(** * SORT tracker ([sort/tracker.py]): a shallow embedding and its properties

    The module tracks axis-aligned boxes across video frames: geometric
    helpers ([iou_batch], [convert_bbox_to_z], [convert_x_to_bbox]), a
    per-object estimator ([KalmanBoxTracker]), the associator
    ([associate_detections_to_trackers]) and the orchestrator
    ([SortTracker]).

    Numbers are kept behind the interface [Scalar], with two instances: the
    reals (exact arithmetic, no NaN) and binary64 floats (numpy's [float64],
    with NaN and infinities).  The two library calls the module makes,
    filterpy's [KalmanFilter.predict]/[update] and scipy's
    [linear_sum_assignment], are parameters ([External]); section
    [Reference] gives executable instances of both. *)

From Stdlib Require Import ZArith List Bool Lia Permutation Sorted.
From Stdlib Require Import Reals Lra.
From Stdlib Require Import Floats.
Import ListNotations.

Set Implicit Arguments.

(** ** Scalars *)

(** The arithmetic the module performs on array elements.  [fleb] and
    [fltb] are Python's [<=] and [<]; [to_int] is Python's [int(...)],
    which raises on NaN and on infinities. *)
Class Scalar (F : Type) : Type := {
  of_Z : Z -> F;
  fadd : F -> F -> F;
  fsub : F -> F -> F;
  fmul : F -> F -> F;
  fdiv : F -> F -> F;
  fopp : F -> F;
  fsqrt : F -> F;
  fltb : F -> F -> bool;
  fleb : F -> F -> bool;
  fisnan : F -> bool;
  fisinf : F -> bool;
  to_int : F -> option Z
}.

Declare Scope scalar_scope.
Delimit Scope scalar_scope with sc.
Infix "+" := fadd : scalar_scope.
Infix "-" := fsub : scalar_scope.
Infix "*" := fmul : scalar_scope.
Infix "/" := fdiv : scalar_scope.
Infix "<?" := fltb : scalar_scope.
Infix "<=?" := fleb : scalar_scope.
Notation "x >? y" := (fltb y x)
  (at level 70, no associativity, only parsing) : scalar_scope.
Notation "x >=? y" := (fleb y x)
  (at level 70, no associativity, only parsing) : scalar_scope.

(** Option as the error monad: [None] is a raised Python exception. *)
Definition bind {A B : Type} (m : option A) (k : A -> option B) : option B :=
  match m with
  | Some a => k a
  | None => None
  end.

Notation "x <- m ;; k" := (bind m (fun x => k))
  (at level 61, m at next level, right associativity).
Notation "' p <- m ;; k" := (bind m (fun p => k))
  (at level 61, p pattern, m at next level, right associativity).

(** ** Arrays of fixed shape *)

(** A box [[x1, y1, x2, y2]]. *)
Record BBox (F : Type) : Type := mkBBox {
  bx1 : F; by1 : F; bx2 : F; by2 : F
}.

(** A row of the detection array: [[x1, y1, x2, y2, score, class_id]]. *)
Record Detection (F : Type) : Type := mkDetection {
  det_box : BBox F;
  det_score : F;
  det_class : F
}.

(** The observation [[x, y, s, r]]: centre, area, aspect ratio. *)
Record Obs (F : Type) : Type := mkObs {
  ox : F; oy : F; os : F; or_ : F
}.

(** The estimator's state [kf.x]: [[x, y, s, r, vx, vy, vs]]. *)
Record StateVec (F : Type) : Type := mkStateVec {
  sx : F; sy : F; ss : F; sr : F; svx : F; svy : F; svs : F
}.

(** Entries 0..3 of the state, the only ones [convert_x_to_bbox] reads. *)
Definition state_obs {F : Type} (x : StateVec F) : Obs F :=
  mkObs (sx x) (sy x) (ss x) (sr x).

(** [kf.x[:4] = z]. *)
Definition set_obs {F : Type} (x : StateVec F) (z : Obs F) : StateVec F :=
  mkStateVec (ox z) (oy z) (os z) (or_ z) (svx x) (svy x) (svs x).

Definition Matrix (F : Type) : Type := list (list F).

(** The filter object: the state [x] and the matrices [__init__] sets up. *)
Record KalmanFilter (F : Type) : Type := mkKalmanFilter {
  kf_x : StateVec F;
  kf_P : Matrix F;
  kf_Q : Matrix F;
  kf_R : Matrix F;
  kf_F : Matrix F;
  kf_H : Matrix F
}.

Definition kf_with_x {F : Type} (k : KalmanFilter F) (x : StateVec F) : KalmanFilter F :=
  mkKalmanFilter x (kf_P k) (kf_Q k) (kf_R k) (kf_F k) (kf_H k).

(** The library calls: [KalmanFilter.predict], [KalmanFilter.update] and
    [scipy.optimize.linear_sum_assignment] (row and column index of each
    assigned pair). *)
Class External (F : Type) : Type := {
  kf_predict : KalmanFilter F -> KalmanFilter F;
  kf_update : KalmanFilter F -> Obs F -> KalmanFilter F;
  linear_sum_assignment : Matrix F -> list (nat * nat)
}.

(** ** Geometric utilities *)

Section Geometry.
Context {F : Type} {SF : Scalar F}.
Local Open Scope scalar_scope.

(** [np.maximum] and [np.minimum]: a NaN on either side comes out. *)
Definition maximum (a b : F) : F :=
  if (b <=? a) || fisnan a then a else b.

Definition minimum (a b : F) : F :=
  if (a <=? b) || fisnan a then a else b.

(** One entry of [iou_batch]. *)
Definition iou (bb_test bb_gt : BBox F) : F :=
  let xx1 := maximum (bx1 bb_test) (bx1 bb_gt) in
  let yy1 := maximum (by1 bb_test) (by1 bb_gt) in
  let xx2 := minimum (bx2 bb_test) (bx2 bb_gt) in
  let yy2 := minimum (by2 bb_test) (by2 bb_gt) in
  let w := maximum (of_Z 0) (xx2 - xx1) in
  let h := maximum (of_Z 0) (yy2 - yy1) in
  let wh := w * h in
  wh / ((bx2 bb_test - bx1 bb_test) * (by2 bb_test - by1 bb_test)
        + (bx2 bb_gt - bx1 bb_gt) * (by2 bb_gt - by1 bb_gt)
        - wh).

(** The [N x M] matrix of IoU values. *)
Definition iou_batch (bb_test bb_gt : list (BBox F)) : Matrix F :=
  map (fun t => map (fun g => iou t g) bb_gt) bb_test.

Definition convert_bbox_to_z (bbox : BBox F) : Obs F :=
  let w := bx2 bbox - bx1 bbox in
  let h := by2 bbox - by1 bbox in
  let x := bx1 bbox + w / of_Z 2 in
  let y := by1 bbox + h / of_Z 2 in
  let s := w * h in
  let r := w / h in
  mkObs x y s r.

(** [convert_x_to_bbox(x)], the [score is None] branch. *)
Definition convert_x_to_bbox (x : Obs F) : BBox F :=
  let w := fsqrt (os x * or_ x) in
  let h := os x / w in
  mkBBox (ox x - w / of_Z 2) (oy x - h / of_Z 2)
         (ox x + w / of_Z 2) (oy x + h / of_Z 2).

(** [convert_x_to_bbox(x, score)]: the same box with the score appended. *)
Definition convert_x_to_bbox_score (x : Obs F) (score : F) : BBox F * F :=
  (convert_x_to_bbox x, score).

End Geometry.

(** ** Small list helpers (Python list and numpy idioms) *)

(** [l.pop(i)]: the list without its [i]-th element. *)
Fixpoint pop {A : Type} (i : nat) (l : list A) : list A :=
  match l, i with
  | [], _ => []
  | _ :: t, O => t
  | h :: t, S j => h :: pop j t
  end.

(** [l[i] = f(l[i])]: the in-place change of one slot; [None] is IndexError. *)
Fixpoint modify_nth {A : Type} (i : nat) (f : A -> A) (l : list A) : option (list A) :=
  match l, i with
  | [], _ => None
  | h :: t, O => Some (f h :: t)
  | h :: t, S j => t' <- modify_nth j f t ;; Some (h :: t')
  end.

(** [enumerate(l)] from a starting index. *)
Fixpoint enumerate_from {A : Type} (i : nat) (l : list A) : list (nat * A) :=
  match l with
  | [] => []
  | h :: t => (i, h) :: enumerate_from (S i) t
  end.

Definition enumerate {A : Type} (l : list A) : list (nat * A) := enumerate_from 0 l.

(** [d in arr] for an integer column. *)
Definition mem_nat (d : nat) (l : list nat) : bool := existsb (Nat.eqb d) l.

Definition sumZ (l : list Z) : Z := fold_right Z.add 0%Z l.

(** [arr.max()] of a non-empty integer array (callers check emptiness). *)
Definition maxZ (l : list Z) : Z :=
  match l with
  | [] => 0%Z
  | h :: t => fold_left Z.max t h
  end.

(** [M[r:, r:] *= c]. *)
Definition scale_block {F : Type} (mul : F -> F -> F) (r : nat) (c : F) (M : Matrix F) : Matrix F :=
  map (fun '(i, row) =>
         map (fun '(j, v) => if (r <=? i)%nat && (r <=? j)%nat then mul v c else v)
             (enumerate row))
      (enumerate M).

(** [M[r, c] *= k]. *)
Definition scale_entry {F : Type} (mul : F -> F -> F) (r c : nat) (k : F) (M : Matrix F) : Matrix F :=
  map (fun '(i, row) =>
         map (fun '(j, v) => if (r =? i)%nat && (c =? j)%nat then mul v k else v)
             (enumerate row))
      (enumerate M).

(** [l.pop(i)] as Python runs it: a negative index counts from the end,
    and an index outside the list raises IndexError. *)
Definition pop_at {A : Type} (i : Z) (l : list A) : option (list A) :=
  let len := Z.of_nat (length l) in
  let j := if (i <? 0)%Z then (i + len)%Z else i in
  if ((0 <=? j) && (j <? len))%Z then Some (pop (Z.to_nat j) l) else None.

(** [np.eye(n)] with its two entries given. *)
Definition eye {F : Type} (zero one : F) (n : nat) : Matrix F :=
  map (fun i => map (fun j => if (i =? j)%nat then one else zero) (seq 0 n)) (seq 0 n).

(** ** The track state estimator *)

Module KalmanBoxTracker.
Section Def.
Context {F : Type} {SF : Scalar F} {EX : External F}.
Local Open Scope scalar_scope.

Record t : Type := mk {
  kf : KalmanFilter F;
  time_since_update : Z;
  id : Z;
  history : list (BBox F);
  hits : Z;
  hit_streak : Z;
  age : Z;
  conf : F;
  cls : Z
}.

(** The transition matrix [kf.F] and the observation matrix [kf.H]. *)
Definition F_matrix : Matrix F :=
  map (map of_Z)
    [ [1; 0; 0; 0; 1; 0; 0];
      [0; 1; 0; 0; 0; 1; 0];
      [0; 0; 1; 0; 0; 0; 1];
      [0; 0; 0; 1; 0; 0; 0];
      [0; 0; 0; 0; 1; 0; 0];
      [0; 0; 0; 0; 0; 1; 0];
      [0; 0; 0; 0; 0; 0; 1] ]%Z.

Definition H_matrix : Matrix F :=
  map (map of_Z)
    [ [1; 0; 0; 0; 0; 0; 0];
      [0; 1; 0; 0; 0; 0; 0];
      [0; 0; 1; 0; 0; 0; 0];
      [0; 0; 0; 1; 0; 0; 0] ]%Z.

(** The literal [0.01]: the quotient is the binary64 number nearest to
    one hundredth, as the literal is. *)
Definition hundredth : F := of_Z 1 / of_Z 100.

(** [KalmanFilter(dim_x=7, dim_z=4)] after [__init__] has set [F], [H]
    and scaled the defaults [R = eye(4)], [P = eye(7)], [Q = eye(7)]
    ([P *= 10.] is the block from row and column 0, [Q[-1, -1]] is the
    entry (6, 6)); [x] is still zero. *)
Definition initial_filter : KalmanFilter F :=
  let I7 := eye (of_Z 0) (of_Z 1) 7 in
  let I4 := eye (of_Z 0) (of_Z 1) 4 in
  let R := scale_block fmul 2 (of_Z 10) I4 in
  let P := scale_block fmul 0 (of_Z 10) (scale_block fmul 4 (of_Z 1000) I7) in
  let Q := scale_block fmul 4 hundredth (scale_entry fmul 6 6 hundredth I7) in
  let z := of_Z 0 in
  mkKalmanFilter (mkStateVec z z z z z z z) P Q R F_matrix H_matrix.

(** [KalmanBoxTracker(bbox, conf, cls)], given the class counter
    [KalmanBoxTracker.count]; returns the new counter as well. *)
Definition init (count : Z) (bbox : BBox F) (conf0 : F) (cls0 : Z) : t * Z :=
  let k := initial_filter in
  let k := kf_with_x k (set_obs (kf_x k) (convert_bbox_to_z bbox)) in
  (mk k 0 count [] 0 0 0 conf0 cls0, (count + 1)%Z).

Definition update (self : t) (bbox : BBox F) : t :=
  mk (kf_update (kf self) (convert_bbox_to_z bbox))
     0
     (id self)
     []
     (hits self + 1)%Z
     (hit_streak self + 1)%Z
     (age self)
     (conf self)
     (cls self).

(** The guard of [predict]: [kf.x[6] *= 0.0] when the area would not
    stay positive. *)
Definition clamp_area_velocity (k : KalmanFilter F) : KalmanFilter F :=
  let x := kf_x k in
  if (svs x + ss x) <=? of_Z 0
  then kf_with_x k (mkStateVec (sx x) (sy x) (ss x) (sr x) (svx x) (svy x)
                               (svs x * of_Z 0))
  else k.

(** [predict]: the mutated tracker and the returned box [history[-1]]. *)
Definition predict (self : t) : t * BBox F :=
  let k := kf_predict (clamp_area_velocity (kf self)) in
  let age' := (age self + 1)%Z in
  let streak := if (time_since_update self >? 0)%Z then 0%Z else hit_streak self in
  let tsu := (time_since_update self + 1)%Z in
  let box := convert_x_to_bbox (state_obs (kf_x k)) in
  (mk k tsu (id self) (history self ++ [box]) (hits self) streak age'
      (conf self) (cls self),
   box).

Definition get_state (self : t) : BBox F :=
  convert_x_to_bbox (state_obs (kf_x (kf self))).

End Def.
Arguments t F : clear implicits.
End KalmanBoxTracker.

(** ** The associator *)

Section Associator.
Context {F : Type} {SF : Scalar F} {EX : External F}.
Local Open Scope scalar_scope.

(** [(iou_matrix > iou_threshold).astype(np.int32)]. *)
Definition threshold_matrix (iou_matrix : Matrix F) (iou_threshold : F) : list (list Z) :=
  map (map (fun v => if v >? iou_threshold then 1%Z else 0%Z)) iou_matrix.

(** [a.sum(1)]: one sum per row. *)
Definition sum_axis1 (a : list (list Z)) : list Z := map sumZ a.

(** [a.sum(0)]: one sum per column, [m] columns. *)
Definition sum_axis0 (m : nat) (a : list (list Z)) : list Z :=
  map (fun j => sumZ (map (fun row => nth j row 0%Z) a)) (seq 0 m).

(** [np.stack(np.where(a), axis=1)]: the positions of the non-zero
    entries, row by row. *)
Definition where_pairs (a : list (list Z)) : list (nat * nat) :=
  flat_map (fun '(i, row) =>
              flat_map (fun '(j, v) => if (v =? 0)%Z then [] else [(i, j)])
                       (enumerate row))
           (enumerate a).

(** [linear_assignment(cost_matrix)]. *)
Definition linear_assignment (cost_matrix : Matrix F) : list (nat * nat) :=
  linear_sum_assignment cost_matrix.

Definition neg_matrix (M : Matrix F) : Matrix F := map (map fopp) M.

(** The test that selects the shortcut. *)
Definition fast_path (m : nat) (a : list (list Z)) : bool :=
  (maxZ (sum_axis1 a) =? 1)%Z && (maxZ (sum_axis0 m a) =? 1)%Z.

(** [matched_indices], from the shortcut or from the solver. *)
Definition matched_indices_of (n m : nat) (iou_matrix : Matrix F) (iou_threshold : F)
  : list (nat * nat) :=
  if (0 <? Nat.min n m)%nat then
    let a := threshold_matrix iou_matrix iou_threshold in
    if fast_path m a then where_pairs a
    else linear_assignment (neg_matrix iou_matrix)
  else [].

(** [iou_matrix[d, t]]; [None] is IndexError. *)
Definition matrix_get (M : Matrix F) (d t : nat) : option F :=
  row <- nth_error M d ;; nth_error row t.

(** The loop that filters out the matches with low IoU; it appends to
    the two unmatched lists as it goes. *)
Fixpoint filter_matches (iou_matrix : Matrix F) (iou_threshold : F)
         (matched_indices : list (nat * nat))
         (matches : list (nat * nat)) (unmatched_detections unmatched_trackers : list nat)
  : option (list (nat * nat) * list nat * list nat) :=
  match matched_indices with
  | [] => Some (matches, unmatched_detections, unmatched_trackers)
  | m :: rest =>
      v <- matrix_get iou_matrix (fst m) (snd m) ;;
      if v <? iou_threshold
      then filter_matches iou_matrix iou_threshold rest matches
                          (unmatched_detections ++ [fst m])
                          (unmatched_trackers ++ [snd m])
      else filter_matches iou_matrix iou_threshold rest (matches ++ [m])
                          unmatched_detections unmatched_trackers
  end.

(** Everything after [matched_indices] is known. *)
Definition associate_from (n m : nat) (iou_matrix : Matrix F) (iou_threshold : F)
           (matched_indices : list (nat * nat))
  : option (list (nat * nat) * list nat * list nat) :=
  let unmatched_detections :=
    filter (fun d => negb (mem_nat d (map fst matched_indices))) (seq 0 n) in
  let unmatched_trackers :=
    filter (fun t => negb (mem_nat t (map snd matched_indices))) (seq 0 m) in
  filter_matches iou_matrix iou_threshold matched_indices []
                 unmatched_detections unmatched_trackers.

(** [associate_detections_to_trackers(detections, trackers, iou_threshold)]:
    [(matches, unmatched_detections, unmatched_trackers)], a match being
    (detection index, tracker index). *)
Definition associate_detections_to_trackers
           (detections trackers : list (BBox F)) (iou_threshold : F)
  : option (list (nat * nat) * list nat * list nat) :=
  let n := length detections in
  let m := length trackers in
  if (m =? 0)%nat then Some ([], seq 0 n, [])
  else
    let iou_matrix := iou_batch detections trackers in
    associate_from n m iou_matrix iou_threshold
                   (matched_indices_of n m iou_matrix iou_threshold).

End Associator.

(** ** The orchestrator *)

Module SortTracker.
Section Def.
Context {F : Type} {SF : Scalar F} {EX : External F}.
Local Open Scope scalar_scope.

Record t : Type := mk {
  max_age : Z;
  min_hits : Z;
  iou_threshold : F;
  trackers : list (KalmanBoxTracker.t F);
  frame_count : Z
}.

(** [SortTracker(max_age, min_hits, iou_threshold)]; [None] is the
    AssertionError of either [assert]. *)
Definition init (max_age0 min_hits0 : Z) (iou_threshold0 : F) : option t :=
  if (max_age0 >=? 0)%Z then
    if (min_hits0 >=? 0)%Z then
      Some (mk max_age0 min_hits0 iou_threshold0 [] 0)
    else None
  else None.

(** [np.any(np.isnan(pos))]. *)
Definition any_isnan (pos : BBox F) : bool :=
  fisnan (bx1 pos) || fisnan (by1 pos) || fisnan (bx2 pos) || fisnan (by2 pos).

(** A row [[pos[0], pos[1], pos[2], pos[3], 0]] that [np.ma.masked_invalid]
    masks somewhere (NaN or infinite), so that [compress_rows] drops it. *)
Definition invalid (v : F) : bool := fisnan v || fisinf v.

Definition row_masked (pos : BBox F) : bool :=
  invalid (bx1 pos) || invalid (by1 pos) || invalid (bx2 pos) || invalid (by2 pos)
  || invalid (of_Z 0).

(** The first loop: every tracker predicts; [tracks] gets the boxes and
    [to_del] the indices whose box has a NaN. *)
Fixpoint predict_loop (t : nat) (trks : list (KalmanBoxTracker.t F))
  : list (KalmanBoxTracker.t F) * list (BBox F) * list nat :=
  match trks with
  | [] => ([], [], [])
  | trk :: rest =>
      let '(trk', pos) := KalmanBoxTracker.predict trk in
      let '(rest', tracks, to_del) := predict_loop (S t) rest in
      (trk' :: rest', pos :: tracks,
       if any_isnan pos then t :: to_del else to_del)
  end.

(** [np.ma.compress_rows(np.ma.masked_invalid(tracks))]. *)
Definition compress_rows (tracks : list (BBox F)) : list (BBox F) :=
  filter (fun pos => negb (row_masked pos)) tracks.

(** [for t in reversed(to_del): self.trackers.pop(t)]. *)
Fixpoint pop_all (rev_to_del : list nat) (trks : list (KalmanBoxTracker.t F))
  : option (list (KalmanBoxTracker.t F)) :=
  match rev_to_del with
  | [] => Some trks
  | t :: rest => trks' <- pop_at (Z.of_nat t) trks ;; pop_all rest trks'
  end.

(** [for m in matched: self.trackers[m[1]].update(dets[m[0], :])]. *)
Fixpoint update_matched (matched : list (nat * nat)) (dets : list (Detection F))
         (trks : list (KalmanBoxTracker.t F)) : option (list (KalmanBoxTracker.t F)) :=
  match matched with
  | [] => Some trks
  | m :: rest =>
      d <- nth_error dets (fst m) ;;
      trks' <- modify_nth (snd m) (fun trk => KalmanBoxTracker.update trk (det_box d)) trks ;;
      update_matched rest dets trks'
  end.

(** [for i in unmatched_dets: self.trackers.append(KalmanBoxTracker(...))],
    threading the class counter. *)
Fixpoint create_new (unmatched_dets : list nat) (dets : list (Detection F))
         (count : Z) (trks : list (KalmanBoxTracker.t F))
  : option (Z * list (KalmanBoxTracker.t F)) :=
  match unmatched_dets with
  | [] => Some (count, trks)
  | i :: rest =>
      d <- nth_error dets i ;;
      c <- to_int (det_class d) ;;
      let '(trk, count') := KalmanBoxTracker.init count (det_box d) (det_score d) c in
      create_new rest dets count' (trks ++ [trk])
  end.

(** The test that puts a tracker in the report. *)
Definition reported (min_hits0 frame_count0 : Z) (trk : KalmanBoxTracker.t F) : bool :=
  (KalmanBoxTracker.time_since_update trk <? 1)%Z
  && ((KalmanBoxTracker.hit_streak trk >=? min_hits0)%Z || (frame_count0 <=? min_hits0)%Z).

(** [np.concatenate((d, [trk.id + 1], [trk.cls], [trk.conf]))]. *)
Definition report_row (trk : KalmanBoxTracker.t F) : list F :=
  let d := KalmanBoxTracker.get_state trk in
  [bx1 d; by1 d; bx2 d; by2 d;
   of_Z (KalmanBoxTracker.id trk + 1); of_Z (KalmanBoxTracker.cls trk);
   KalmanBoxTracker.conf trk].

(** The test that removes a tracker. *)
Definition dead (max_age0 : Z) (trk : KalmanBoxTracker.t F) : bool :=
  (KalmanBoxTracker.time_since_update trk >? max_age0)%Z.

(** The last loop, [for trk in reversed(self.trackers)], which pops from
    the list it walks.  [k] is one more than the index the reversed
    iterator holds: the iterator stops when that index is no longer
    inside the (possibly shortened) list.  [i] is the loop's own
    counter. *)
Fixpoint report_loop (min_hits0 max_age0 frame_count0 : Z) (k : nat)
         (trks : list (KalmanBoxTracker.t F)) (i : Z) (ret : list (list F))
  : option (list (KalmanBoxTracker.t F) * list (list F)) :=
  match k with
  | O => Some (trks, ret)
  | S idx =>
      match nth_error trks idx with
      | None => Some (trks, ret)
      | Some trk =>
          let ret' := if reported min_hits0 frame_count0 trk
                      then ret ++ [report_row trk] else ret in
          let i' := (i - 1)%Z in
          if dead max_age0 trk
          then trks' <- pop_at i' trks ;;
               report_loop min_hits0 max_age0 frame_count0 idx trks' i' ret'
          else report_loop min_hits0 max_age0 frame_count0 idx trks i' ret'
      end
  end.

(** The trackers once matches are applied and new trackers are appended,
    that is, the list the last loop walks; with the class counter. *)
Definition track_pool (count : Z) (self : t) (dets : list (Detection F))
  : option (Z * list (KalmanBoxTracker.t F)) :=
  let '(trks, tracks, to_del) := predict_loop 0 (trackers self) in
  let tracks := compress_rows tracks in
  trks <- pop_all (rev to_del) trks ;;
  '(matched, unmatched_dets, _) <-
    associate_detections_to_trackers (map (@det_box F) dets) tracks (iou_threshold self) ;;
  trks <- update_matched matched dets trks ;;
  create_new unmatched_dets dets count trks.

(** [SortTracker.update(dets)], given the class counter
    [KalmanBoxTracker.count]: the new counter, the mutated orchestrator
    and the returned rows. *)
Definition update (count : Z) (self : t) (dets : list (Detection F))
  : option (Z * t * list (list F)) :=
  let frame_count' := (frame_count self + 1)%Z in
  '(count', trks) <- track_pool count self dets ;;
  '(trks', ret) <-
    report_loop (min_hits self) (max_age self) frame_count'
                (length trks) trks (Z.of_nat (length trks)) [] ;;
  Some (count',
        mk (max_age self) (min_hits self) (iou_threshold self) trks' frame_count',
        ret).

(** A run over consecutive frames: the reports, oldest first. *)
Fixpoint run (count : Z) (self : t) (frames : list (list (Detection F)))
  : option (Z * t * list (list (list F))) :=
  match frames with
  | [] => Some (count, self, [])
  | dets :: rest =>
      '(count', self', ret) <- update count self dets ;;
      '(count'', self'', rets) <- run count' self' rest ;;
      Some (count'', self'', ret :: rets)
  end.

End Def.
Arguments t F : clear implicits.
End SortTracker.

(** ** The two number systems *)

(** Truncation towards zero, Python's [int] on a float. *)
Definition Rtrunc (r : R) : Z :=
  if Rle_dec 0 r then Int_part r else (- Int_part (- r))%Z.

(** Exact real arithmetic: no NaN, no infinity. *)
#[export] Instance Scalar_R : Scalar R := {|
  of_Z := IZR;
  fadd := Rplus;
  fsub := Rminus;
  fmul := Rmult;
  fdiv := Rdiv;
  fopp := Ropp;
  fsqrt := R_sqrt.sqrt;
  fltb := fun a b => if Rlt_dec a b then true else false;
  fleb := fun a b => if Rle_dec a b then true else false;
  fisnan := fun _ => false;
  fisinf := fun _ => false;
  to_int := fun r => Some (Rtrunc r)
|}.

(** An integer as a binary64 number, rounded to nearest as the
    conversion of a Python int does; below [2^63] in magnitude the
    hardware conversion gives it. *)
Definition float_of_Z (z : Z) : float :=
  match z with
  | Z0 => PrimFloat.zero
  | Zpos _ =>
      if (z <? 2 ^ 63)%Z then PrimFloat.of_uint63 (Uint63.of_Z z)
      else SF2Prim (binary_normalize prec emax z 0 false)
  | Zneg _ =>
      if (- z <? 2 ^ 63)%Z then PrimFloat.opp (PrimFloat.of_uint63 (Uint63.of_Z (- z)))
      else SF2Prim (binary_normalize prec emax z 0 false)
  end.

(** [int(f)] for a binary64 number: the integer part, or an exception. *)
Definition float_to_int (f : float) : option Z :=
  match Prim2SF f with
  | S754_zero _ => Some 0%Z
  | S754_infinity _ => None
  | S754_nan => None
  | S754_finite s m e =>
      let v := match e with
               | Z0 => Zpos m
               | Zpos p => (Zpos m * 2 ^ Zpos p)%Z
               | Zneg p => (Zpos m / 2 ^ Zpos p)%Z
               end in
      Some (if s then (- v)%Z else v)
  end.

(** numpy's [float64]. *)
#[export] Instance Scalar_float : Scalar float := {|
  of_Z := float_of_Z;
  fadd := PrimFloat.add;
  fsub := PrimFloat.sub;
  fmul := PrimFloat.mul;
  fdiv := PrimFloat.div;
  fopp := PrimFloat.opp;
  fsqrt := PrimFloat.sqrt;
  fltb := PrimFloat.ltb;
  fleb := PrimFloat.leb;
  fisnan := PrimFloat.is_nan;
  fisinf := PrimFloat.is_infinity;
  to_int := float_to_int
|}.

(** ** Reference instances of the library calls *)

Section Reference.
Context {F : Type} {SF : Scalar F}.
Local Open Scope scalar_scope.

Definition dot (u v : list F) : F :=
  fold_left fadd (map (fun '(a, b) => a * b) (combine u v)) (of_Z 0).

Definition mat_vec (M : Matrix F) (v : list F) : list F := map (fun row => dot row v) M.

Fixpoint transpose (m : nat) (M : Matrix F) : Matrix F :=
  match m with
  | O => []
  | S m' => map (fun row => hd (of_Z 0) row) M :: transpose m' (map (@tl F) M)
  end.

Definition mat_mul (m : nat) (A B : Matrix F) : Matrix F :=
  let Bt := transpose m B in
  map (fun row => map (fun col => dot row col) Bt) A.

Definition vec_zip (f : F -> F -> F) (u v : list F) : list F :=
  map (fun '(a, b) => f a b) (combine u v).

Definition mat_zip (f : F -> F -> F) (A B : Matrix F) : Matrix F :=
  map (fun '(r, s) => vec_zip f r s) (combine A B).

(** Gauss-Jordan elimination on [[S | I]], pivots on the diagonal. *)
Definition eliminate (j : nat) (rows : Matrix F) : Matrix F :=
  let prow := nth j rows [] in
  let p := nth j prow (of_Z 0) in
  let prow' := map (fun v => v / p) prow in
  map (fun '(i, row) =>
         if (i =? j)%nat then prow'
         else let c := nth j row (of_Z 0) in
              vec_zip (fun a b => a - c * b) row prow')
      (enumerate rows).

Definition mat_inv (n : nat) (M : Matrix F) : Matrix F :=
  let aug := map (fun '(r, e) => r ++ e) (combine M (eye (of_Z 0) (of_Z 1) n)) in
  map (skipn n) (fold_left (fun rows j => eliminate j rows) (seq 0 n) aug).

Definition state_list (x : StateVec F) : list F :=
  [sx x; sy x; ss x; sr x; svx x; svy x; svs x].

Definition list_state (l : list F) : StateVec F :=
  let g i := nth i l (of_Z 0) in
  mkStateVec (g 0%nat) (g 1%nat) (g 2%nat) (g 3%nat) (g 4%nat) (g 5%nat) (g 6%nat).

Definition obs_list (z : Obs F) : list F := [ox z; oy z; os z; or_ z].

(** The linear Kalman prediction: [x = F x], [P = F P F' + Q]. *)
Definition linear_predict (k : KalmanFilter F) : KalmanFilter F :=
  let Fm := kf_F k in
  let x := mat_vec Fm (state_list (kf_x k)) in
  let P := mat_zip fadd (mat_mul 7 (mat_mul 7 Fm (kf_P k)) (transpose 7 Fm)) (kf_Q k) in
  mkKalmanFilter (list_state x) P (kf_Q k) (kf_R k) Fm (kf_H k).

(** The linear Kalman correction: [y = z - H x], [S = H P H' + R],
    [K = P H' S^-1], [x = x + K y], [P = (I - K H) P (I - K H)' + K R K']. *)
Definition linear_update (k : KalmanFilter F) (z : Obs F) : KalmanFilter F :=
  let H := kf_H k in
  let P := kf_P k in
  let R := kf_R k in
  let x := state_list (kf_x k) in
  let y := vec_zip fsub (obs_list z) (mat_vec H x) in
  let PHT := mat_mul 4 P (transpose 7 H) in
  let Sm := mat_zip fadd (mat_mul 4 H PHT) R in
  let SI := mat_inv 4 Sm in
  let K := mat_mul 4 PHT SI in
  let x' := vec_zip fadd x (mat_vec K y) in
  let I_KH := mat_zip fsub (eye (of_Z 0) (of_Z 1) 7) (mat_mul 7 K H) in
  let P' := mat_zip fadd (mat_mul 7 (mat_mul 7 I_KH P) (transpose 7 I_KH))
                    (mat_mul 7 (mat_mul 4 K R) (transpose 4 K)) in
  mkKalmanFilter (list_state x') P' (kf_Q k) R (kf_F k) H.

(** Every way to give each listed row a column of its own, with the
    total cost, rows in the order listed. *)
Fixpoint assignments (rows : list (nat * list F)) (cols : list nat)
  : list (list (nat * nat) * F) :=
  match rows with
  | [] => [([], of_Z 0)]
  | (i, row) :: rest =>
      flat_map (fun j =>
                  map (fun '(asg, c) => ((i, j) :: asg, nth j row (of_Z 0) + c))
                      (assignments rest (filter (fun j' => negb (j' =? j)%nat) cols)))
               cols
  end.

(** The first candidate of least cost. *)
Fixpoint cheapest (cands : list (list (nat * nat) * F)) : list (nat * nat) * option F :=
  match cands with
  | [] => ([], None)
  | (asg, c) :: rest =>
      match cheapest rest with
      | (asg', Some c') => if c' <? c then (asg', Some c') else (asg, Some c)
      | (_, None) => (asg, Some c)
      end
  end.

Fixpoint insert_by_row (p : nat * nat) (l : list (nat * nat)) : list (nat * nat) :=
  match l with
  | [] => [p]
  | q :: t => if (fst p <=? fst q)%nat then p :: l else q :: insert_by_row p t
  end.

(** An exact solver by exhaustive search: a least-cost assignment of
    [min(n, m)] pairs, sorted by row.  Among several assignments of least
    cost it returns the first one found, which need not be the one scipy
    returns, and it returns pairs for a matrix that holds a NaN, where
    scipy raises ValueError: it stands for scipy only on matrices without
    NaN whose least-cost assignment is unique. *)
Definition exhaustive_assignment (C : Matrix F) : list (nat * nat) :=
  let n := length C in
  let m := length (hd [] C) in
  if (n <=? m)%nat then
    fst (cheapest (assignments (enumerate C) (seq 0 m)))
  else
    let Ct := transpose m C in
    let asg := fst (cheapest (assignments (enumerate Ct) (seq 0 n))) in
    fold_right insert_by_row [] (map (fun '(j, i) => (i, j)) asg).

#[export] Instance Reference_External : External F := {|
  kf_predict := linear_predict;
  kf_update := linear_update;
  linear_sum_assignment := exhaustive_assignment
|}.

End Reference.

(** ** Vocabulary of the properties *)

Section Vocabulary.
Context {F : Type} {SF : Scalar F} {EX : External F}.

(** A call on a tracker, as the orchestrator issues them. *)
Inductive call : Type :=
| Predict : call
| Update : BBox F -> call.

Definition do_call (trk : KalmanBoxTracker.t F) (c : call) : KalmanBoxTracker.t F :=
  match c with
  | Predict => fst (KalmanBoxTracker.predict trk)
  | Update bbox => KalmanBoxTracker.update trk bbox
  end.

Definition do_calls (trk : KalmanBoxTracker.t F) (cs : list call) : KalmanBoxTracker.t F :=
  fold_left do_call cs trk.

(** The streak is gone once two predictions passed without a match. *)
Definition streak_reset (trk : KalmanBoxTracker.t F) : Prop :=
  (1 < KalmanBoxTracker.time_since_update trk)%Z -> KalmanBoxTracker.hit_streak trk = 0%Z.

(** Same identity, class and confidence. *)
Definition same_identity (a b : KalmanBoxTracker.t F) : Prop :=
  KalmanBoxTracker.id a = KalmanBoxTracker.id b
  /\ KalmanBoxTracker.cls a = KalmanBoxTracker.cls b
  /\ KalmanBoxTracker.conf a = KalmanBoxTracker.conf b.

(** The tracker carries the score and class of a detection of [dets]. *)
Definition created_from (dets : list (Detection F)) (trk : KalmanBoxTracker.t F) : Prop :=
  exists d, In d dets
            /\ KalmanBoxTracker.conf trk = det_score d
            /\ to_int (det_class d) = Some (KalmanBoxTracker.cls trk).

(** The tracker carries the score and class of a detection of some frame. *)
Definition created_in (frames : list (list (Detection F))) (trk : KalmanBoxTracker.t F) : Prop :=
  exists dets, In dets frames /\ created_from dets trk.

(** Where a live tracker comes from: it continues a tracker of [old], or
    it was created from a detection of [frames] with an identity not below
    [count]. *)
Definition origin (old : list (KalmanBoxTracker.t F)) (count : Z)
           (frames : list (list (Detection F))) (trk' : KalmanBoxTracker.t F) : Prop :=
  (exists trk, In trk old /\ same_identity trk trk')
  \/ ((count <= KalmanBoxTracker.id trk')%Z /\ created_in frames trk').

(** Identities in storage order strictly increase and stay below the
    class counter. *)
Definition ids_ordered (count : Z) (trks : list (KalmanBoxTracker.t F)) : Prop :=
  StronglySorted Z.lt (map (@KalmanBoxTracker.id F) trks)
  /\ Forall (fun trk => (KalmanBoxTracker.id trk < count)%Z) trks.

(** The filter leaves the state where it is, through a prediction and a
    correction by the observation [z]. *)
Definition holds_still (k : KalmanFilter F) (z : Obs F) : Prop :=
  kf_x (kf_predict k) = kf_x k
  /\ kf_x (kf_update (kf_predict k) z) = kf_x k.

(** The arithmetic facts that make an unchanging box match itself: its
    conversion to centre form and back is exact, its area keeps the guard
    of [predict] off, it has no NaN or infinite coordinate, and its IoU
    with itself is above the threshold and not below it. *)
Definition steady (box : BBox F) (iou_threshold : F) : Prop :=
  convert_x_to_bbox (convert_bbox_to_z box) = box
  /\ fleb (fadd (of_Z 0) (os (convert_bbox_to_z box))) (of_Z 0) = false
  /\ SortTracker.row_masked box = false
  /\ fltb iou_threshold (iou box box) = true
  /\ fltb (iou box box) iou_threshold = false.

(** A tracker resting on [box], matched in the last frame. *)
Definition resting (box : BBox F) (trk : KalmanBoxTracker.t F) : Prop :=
  state_obs (kf_x (KalmanBoxTracker.kf trk)) = convert_bbox_to_z box
  /\ svs (kf_x (KalmanBoxTracker.kf trk)) = of_Z 0
  /\ KalmanBoxTracker.time_since_update trk = 0%Z.

(** The filter of a tracker just created from [box], and the filter after
    its first prediction and correction by the same box. *)
Definition first_filter (box : BBox F) : KalmanFilter F :=
  KalmanBoxTracker.kf (fst (KalmanBoxTracker.init 0 box (of_Z 0) 0)).

Definition second_filter (box : BBox F) : KalmanFilter F :=
  kf_update (kf_predict (first_filter box)) (convert_bbox_to_z box).

(** The row reported for a box and a tracker's identity, class and
    confidence. *)
Definition row_of (box : BBox F) (id cls : Z) (conf : F) : list F :=
  [bx1 box; by1 box; bx2 box; by2 box; of_Z (id + 1); of_Z cls; conf].

(** The box a tracker's [predict] returns, the tracker it becomes, and
    whether that box has a NaN. *)
Definition predicted_box (trk : KalmanBoxTracker.t F) : BBox F :=
  snd (KalmanBoxTracker.predict trk).

Definition predicted (trk : KalmanBoxTracker.t F) : KalmanBoxTracker.t F :=
  fst (KalmanBoxTracker.predict trk).

Definition has_nan (trk : KalmanBoxTracker.t F) : bool :=
  SortTracker.any_isnan (predicted_box trk).

(** The trackers the last loop keeps. *)
Definition alive (max_age : Z) (trk : KalmanBoxTracker.t F) : bool :=
  negb (SortTracker.dead max_age trk).

End Vocabulary.

(** ** Vocabulary of the associator's properties *)

Section AssociatorVocabulary.
Context {F : Type} {SF : Scalar F} {EX : External F}.

(** An entry of the thresholded matrix. *)
Definition bit (v : Z) : Prop := v = 0%Z \/ v = 1%Z.

(** The matrix has an entry at the pair's indices. *)
Definition in_matrix (M : Matrix F) (p : nat * nat) : bool :=
  match matrix_get M (fst p) (snd p) with Some _ => true | None => false end.

(** The pair's IoU is below the threshold: the test of the last loop of
    the associator ([false] where the matrix has no such entry). *)
Definition low (iou_matrix : Matrix F) (iou_threshold : F) (p : nat * nat) : bool :=
  match matrix_get iou_matrix (fst p) (snd p) with
  | Some v => fltb v iou_threshold
  | None => false
  end.

(** The pair's IoU is above the threshold: the test of the shortcut. *)
Definition high (iou_matrix : Matrix F) (iou_threshold : F) (p : nat * nat) : bool :=
  match matrix_get iou_matrix (fst p) (snd p) with
  | Some v => fltb iou_threshold v
  | None => false
  end.

(** Pairs of indices inside an [n x m] matrix, no row and no column used
    twice: what an assignment solver returns. *)
Definition valid_assignment (n m : nat) (pairs : list (nat * nat)) : Prop :=
  Forall (fun p => (fst p < n)%nat /\ (snd p < m)%nat) pairs
  /\ NoDup (map fst pairs)
  /\ NoDup (map snd pairs).

(** The pairs the matching step produces for these boxes. *)
Definition matching_step (detections trackers : list (BBox F)) (iou_threshold : F)
  : list (nat * nat) :=
  matched_indices_of (length detections) (length trackers)
                     (iou_batch detections trackers) iou_threshold.

(** The associator with the shortcut taken out: the solver always runs. *)
Definition associate_general (detections trackers : list (BBox F)) (iou_threshold : F)
  : option (list (nat * nat) * list nat * list nat) :=
  let n := length detections in
  let m := length trackers in
  if (m =? 0)%nat then Some ([], seq 0 n, [])
  else
    let iou_matrix := iou_batch detections trackers in
    associate_from n m iou_matrix iou_threshold
      (if (0 <? Nat.min n m)%nat then linear_assignment (neg_matrix iou_matrix) else []).

(** The shortcut's condition on these boxes. *)
Definition unambiguous (detections trackers : list (BBox F)) (iou_threshold : F) : bool :=
  (0 <? Nat.min (length detections) (length trackers))%nat
  && fast_path (length trackers)
               (threshold_matrix (iou_batch detections trackers) iou_threshold).

End AssociatorVocabulary.

(** ** Vocabulary of the further properties *)

Section FurtherVocabulary.
Context {F : Type} {SF : Scalar F} {EX : External F}.

(** The counters of a tracker are in range: no negative age or miss
    count, no streak longer than the number of hits. *)
Definition counters_sane (trk : KalmanBoxTracker.t F) : Prop :=
  (0 <= KalmanBoxTracker.time_since_update trk <= KalmanBoxTracker.age trk)%Z
  /\ (0 <= KalmanBoxTracker.hit_streak trk <= KalmanBoxTracker.hits trk)%Z.

(** The trackers [KalmanBoxTracker(...)] builds for the detections in
    turn, the class counter starting at [count]; [None] when a class does
    not convert. *)
Fixpoint seed_trackers (count : Z) (dets : list (Detection F))
  : option (list (KalmanBoxTracker.t F)) :=
  match dets with
  | [] => Some []
  | d :: rest =>
      c <- to_int (det_class d) ;;
      rest' <- seed_trackers (count + 1) rest ;;
      Some (fst (KalmanBoxTracker.init count (det_box d) (det_score d) c) :: rest')
  end.

(** Two boxes that do not overlap: one lies beside or above the other. *)
Definition disjoint_boxes (a b : BBox R) : Prop :=
  (bx2 a <= bx1 b \/ bx2 b <= bx1 a \/ by2 a <= by1 b \/ by2 b <= by1 a)%R.

(** A box of positive width and height. *)
Definition proper_box (b : BBox R) : Prop :=
  (bx1 b < bx2 b /\ by1 b < by2 b)%R.

(** [history] holds one box for each prediction since the last match. *)
Definition history_in_step (trk : KalmanBoxTracker.t F) : Prop :=
  Z.of_nat (length (KalmanBoxTracker.history trk)) = KalmanBoxTracker.time_since_update trk.

(** The numbers of [predict] and of [update] calls in a sequence. *)
Definition is_predict (c : @call F) : bool :=
  match c with
  | Predict => true
  | Update _ => false
  end.

Definition predicts_in (cs : list (@call F)) : Z :=
  Z.of_nat (length (filter is_predict cs)).

Definition updates_in (cs : list (@call F)) : Z :=
  Z.of_nat (length (filter (fun c => negb (is_predict c)) cs)).



(** [n] frames in a row without any detection. *)
Definition empty_frames (n : nat) : list (list (Detection F)) := repeat [] n.

End FurtherVocabulary.

(** ** Test data in binary64 *)

(** The default [iou_threshold], [0.3]. *)
Definition default_threshold : float := Eval compute in (3 / 10)%float.

(** [SortTracker()] with its defaults [max_age=1, min_hits=3,
    iou_threshold=0.3]. *)
Definition default_tracker : SortTracker.t float :=
  SortTracker.mk 1 3 default_threshold [] 0.

Definition detection (x1 y1 x2 y2 score class_id : float) : Detection float :=
  mkDetection (mkBBox x1 y1 x2 y2) score class_id.

(** A run with the reference filter and solver from a fresh class counter. *)
Definition run_float (self : SortTracker.t float) (frames : list (list (Detection float)))
  : option (Z * SortTracker.t float * list (list (list float))) :=
  @SortTracker.run float Scalar_float Reference_External 0%Z self frames.

(** A detection [2^700] wide, and another one elsewhere. *)
Definition wide_detection : Detection float := detection 0 0 0x1p700 1 0.5 1.

Definition other_detection : Detection float := detection 100 100 110 110 0.5 2.

(** The class counter and the orchestrator after a run from the defaults. *)
Definition state_after (frames : list (list (Detection float))) : Z * SortTracker.t float :=
  match run_float default_tracker frames with
  | Some (count, self, _) => (count, self)
  | None => (0%Z, default_tracker)
  end.

(** A tracker whose area shrinks faster than it is large: the guard acts. *)
Definition shrinking_tracker : KalmanBoxTracker.t R :=
  KalmanBoxTracker.mk
    (kf_with_x (@KalmanBoxTracker.initial_filter R Scalar_R)
               (mkStateVec 0 0 4 1 0 0 (-10))%R)
    0 0 [] 0 0 0 0%R 0.

(** The lifecycle counters of the live trackers:
    [(id, time_since_update, hit_streak)]. *)
Definition counters {F : Type} (self : SortTracker.t F) : list (Z * Z * Z) :=
  map (fun trk => (KalmanBoxTracker.id trk,
                   KalmanBoxTracker.time_since_update trk,
                   KalmanBoxTracker.hit_streak trk))
      (SortTracker.trackers self).

(** * Properties *)

Unset Implicit Arguments.

(** ** Construction *)

(** C10: construction fails exactly when [max_age] or [min_hits] is
    negative; [iou_threshold] is never inspected: whatever its value
    (below 0, above 1, NaN), construction with non-negative [max_age] and
    [min_hits] succeeds and stores it unchanged, with no tracker and
    frame count 0. *)
Theorem init_validates_only_ages :
  forall (F : Type) (max_age min_hits : Z) (iou_threshold : F),
    ((max_age < 0)%Z -> SortTracker.init max_age min_hits iou_threshold = None)
    /\ ((min_hits < 0)%Z -> SortTracker.init max_age min_hits iou_threshold = None)
    /\ ((0 <= max_age)%Z -> (0 <= min_hits)%Z ->
        SortTracker.init max_age min_hits iou_threshold
        = Some (SortTracker.mk max_age min_hits iou_threshold [] 0)).
Proof.
  intros F max_age min_hits tau. unfold SortTracker.init.
  destruct (Z.geb_spec max_age 0) as [Ha | Ha];
    destruct (Z.geb_spec min_hits 0) as [Hm | Hm];
    repeat split; intros; try reflexivity; lia.
Qed.

(** ** Conversions between corner form and centre form *)

(** The classes of binary64 numbers, read off their specification. *)
Lemma SFcompare_refl (x : spec_float) :
  x <> S754_nan -> SFcompare x x = Some Eq.
Proof.
  destruct x as [s | s | | s m e]; intros H; simpl.
  - reflexivity.
  - now destruct s.
  - contradiction.
  - rewrite Z.compare_refl, Pos.compare_cont_refl. now destruct s.
Qed.

Lemma is_nan_SF (x : float) :
  PrimFloat.is_nan x = match Prim2SF x with S754_nan => true | _ => false end.
Proof.
  unfold PrimFloat.is_nan. rewrite FloatAxioms.eqb_spec. unfold SFeqb.
  destruct (Prim2SF x) as [s | s | | s m e] eqn:E; try reflexivity;
    rewrite SFcompare_refl; try reflexivity; discriminate.
Qed.

Lemma is_infinity_SF (x : float) :
  PrimFloat.is_infinity x = match Prim2SF x with S754_infinity _ => true | _ => false end.
Proof.
  unfold PrimFloat.is_infinity. rewrite FloatAxioms.eqb_spec, abs_spec.
  change (Prim2SF infinity) with (S754_infinity false).
  now destruct (Prim2SF x) as [s | s | | s m e].
Qed.

Lemma is_finite_SF (x : float) :
  PrimFloat.is_finite x = true ->
  exists y, Prim2SF x = y /\ y <> S754_nan /\ (forall s, y <> S754_infinity s).
Proof.
  unfold PrimFloat.is_finite. rewrite is_nan_SF, is_infinity_SF. intros H.
  exists (Prim2SF x). split; [reflexivity |].
  destruct (Prim2SF x); try discriminate; split; intros; discriminate.
Qed.

(** A finite number minus (plus) infinity is minus (plus) infinity. *)
Lemma finite_sub_infinity (x : float) :
  PrimFloat.is_finite x = true -> (x - infinity)%float = neg_infinity.
Proof.
  intros H. destruct (is_finite_SF x H) as (y & Hy & Hn & Hi).
  apply Prim2SF_inj. rewrite sub_spec, Hy.
  change (Prim2SF infinity) with (S754_infinity false).
  change (Prim2SF neg_infinity) with (S754_infinity true).
  destruct y as [s | s | | s m e]; try reflexivity;
    [exfalso; now apply (Hi s) | contradiction].
Qed.

Lemma finite_add_infinity (x : float) :
  PrimFloat.is_finite x = true -> (x + infinity)%float = infinity.
Proof.
  intros H. destruct (is_finite_SF x H) as (y & Hy & Hn & Hi).
  apply Prim2SF_inj. rewrite add_spec, Hy.
  change (Prim2SF infinity) with (S754_infinity false).
  destruct y as [s | s | | s m e]; try reflexivity;
    [exfalso; now apply (Hi s) | contradiction].
Qed.

(** When the product under the square root overflows, the box that comes
    back is infinitely wide. *)
Lemma overflow_infinite_box (z : Obs float) :
  (os z * or_ z)%float = infinity ->
  PrimFloat.is_finite (ox z) = true ->
  bx1 (@convert_x_to_bbox float Scalar_float z) = neg_infinity
  /\ bx2 (@convert_x_to_bbox float Scalar_float z) = infinity.
Proof.
  intros Hp Hx. unfold convert_x_to_bbox.
  cbn [bx1 bx2 fsqrt fmul fdiv fsub fadd of_Z Scalar_float]. rewrite Hp.
  change (PrimFloat.sqrt infinity / float_of_Z 2)%float with infinity.
  split; [now apply finite_sub_infinity | now apply finite_add_infinity].
Qed.

(** C7 (as the code has it): over the reals, a box of positive width and
    height survives the trip to centre form and back unchanged.  In
    binary64 it need not, within no tolerance: when the product of area
    and aspect ratio, of which [convert_x_to_bbox] takes the square root,
    overflows while the centre is finite, the box that comes back has
    [x1 = -inf] and [x2 = +inf]. *)
Theorem convert_roundtrip :
  (forall b : BBox R,
      (bx1 b < bx2 b)%R -> (by1 b < by2 b)%R ->
      convert_x_to_bbox (convert_bbox_to_z b) = b)
  /\ (forall b : BBox float,
         let z := @convert_bbox_to_z float Scalar_float b in
         (os z * or_ z)%float = infinity ->
         PrimFloat.is_finite (ox z) = true ->
         bx1 (@convert_x_to_bbox float Scalar_float z) = neg_infinity
         /\ bx2 (@convert_x_to_bbox float Scalar_float z) = infinity).
Proof.
  split.
  - intros [x1 y1 x2 y2]; simpl; intros Hw Hh.
    unfold convert_x_to_bbox, convert_bbox_to_z; simpl.
    assert (Hsq : R_sqrt.sqrt ((x2 - x1) * (y2 - y1) * ((x2 - x1) / (y2 - y1)))
                  = (x2 - x1)%R).
    { replace ((x2 - x1) * (y2 - y1) * ((x2 - x1) / (y2 - y1)))%R
        with ((x2 - x1) * (x2 - x1))%R by (field; lra).
      apply sqrt_square; lra. }
    rewrite Hsq.
    f_equal; field; lra.
  - intros b z Hp Hx. now apply overflow_infinite_box.
Qed.

Lemma convert_roundtrip_witness :
  convert_x_to_bbox (convert_bbox_to_z (mkBBox 0%R 0%R 2%R 3%R))
  = mkBBox 0%R 0%R 2%R 3%R
  /\ bx1 (@convert_x_to_bbox float Scalar_float
            (convert_bbox_to_z (mkBBox 0 0 0x1p700 1)%float)) = neg_infinity
  /\ bx2 (@convert_x_to_bbox float Scalar_float
            (convert_bbox_to_z (mkBBox 0 0 0x1p700 1)%float)) = infinity.
Proof.
  split.
  - apply (proj1 convert_roundtrip (mkBBox 0%R 0%R 2%R 3%R)); simpl; lra.
  - apply (proj2 convert_roundtrip (mkBBox 0 0 0x1p700 1)%float); reflexivity.
Defined.

(** C7 as stated fails in binary64: the box [[0, 0, 2^700, 1]] has
    positive width and height, and comes back as
    [[-inf, 0.5, inf, 0.5]]. *)
Lemma roundtrip_overflow_counterexample :
  (bx1 (mkBBox 0 0 0x1p700 1) <? bx2 (mkBBox 0 0 0x1p700 1))%float = true
  /\ (by1 (mkBBox 0 0 0x1p700 1) <? by2 (mkBBox 0 0 0x1p700 1))%float = true
  /\ @convert_x_to_bbox float Scalar_float
       (convert_bbox_to_z (mkBBox 0 0 0x1p700 1)%float)
     = (mkBBox neg_infinity 0.5 infinity 0.5)%float.
Proof.
  vm_compute. repeat split.
Qed.

(** ** Facts about the list idioms *)

Lemma bind_Some {A B : Type} (m : option A) (k : A -> option B) (b : B) :
  bind m k = Some b -> exists a, m = Some a /\ k a = Some b.
Proof.
  destruct m as [a |]; simpl; intros H; [exists a; auto | discriminate].
Qed.

Lemma pop_app_middle {A : Type} (l1 : list A) (x : A) (l2 : list A) :
  pop (length l1) (l1 ++ x :: l2) = l1 ++ l2.
Proof.
  induction l1 as [| h t IH]; simpl; [reflexivity | now rewrite IH].
Qed.

Lemma pop_at_app_middle {A : Type} (l1 : list A) (x : A) (l2 : list A) :
  pop_at (Z.of_nat (length l1)) (l1 ++ x :: l2) = Some (l1 ++ l2).
Proof.
  unfold pop_at. rewrite length_app; simpl.
  destruct (Z.ltb_spec (Z.of_nat (length l1)) 0) as [H | H]; [lia |].
  destruct (Z.leb_spec 0 (Z.of_nat (length l1))) as [H1 | H1]; [| lia].
  destruct (Z.ltb_spec (Z.of_nat (length l1)) (Z.of_nat (length l1 + S (length l2))))
    as [H2 | H2]; [| lia].
  simpl. now rewrite Nat2Z.id, pop_app_middle.
Qed.

Lemma pop_at_Some {A : Type} (i : Z) (l l' : list A) :
  pop_at i l = Some l' ->
  exists l1 x l2, l = l1 ++ x :: l2 /\ l' = l1 ++ l2.
Proof.
  unfold pop_at. set (j := if (i <? 0)%Z then _ else _).
  destruct ((0 <=? j)%Z && (j <? Z.of_nat (length l))%Z) eqn:E; [| discriminate].
  intros H; inversion H; subst l'; clear H.
  apply andb_true_iff in E as [E1 E2].
  apply Z.leb_le in E1. apply Z.ltb_lt in E2.
  assert (Hlt : (Z.to_nat j < length l)%nat) by lia.
  destruct (nth_error l (Z.to_nat j)) as [x |] eqn:En.
  - destruct (nth_error_split l (Z.to_nat j) En) as (l1 & l2 & Hl & Hlen).
    exists l1, x, l2. split; [assumption |].
    subst l. rewrite <- Hlen. apply pop_app_middle.
  - apply nth_error_None in En; lia.
Qed.

(** ** The last loop of [SortTracker.update] *)

Section ReportLoop.
Context {F : Type} {SF : Scalar F} {EX : External F}.

Lemma nth_error_app_middle {A : Type} (l1 : list A) (x : A) (l2 : list A) :
  nth_error (l1 ++ x :: l2) (length l1) = Some x.
Proof.
  induction l1 as [| h t IH]; simpl; auto.
Qed.

(** Walking the first [length l1] slots from the right: each dead tracker
    is popped, each reported one contributes its row. *)
Lemma report_loop_app (min_hits max_age frame_count : Z)
      (l1 l2 : list (KalmanBoxTracker.t F)) :
  forall ret,
    SortTracker.report_loop min_hits max_age frame_count
      (length l1) (l1 ++ l2) (Z.of_nat (length l1)) ret
    = Some (filter (alive max_age) l1 ++ l2,
            ret ++ map SortTracker.report_row
                       (filter (SortTracker.reported min_hits frame_count) (rev l1))).
Proof.
  revert l2. induction l1 as [| x l IH] using rev_ind; intros l2 ret.
  - simpl. now rewrite app_nil_r.
  - rewrite length_app; simpl length. rewrite Nat.add_1_r.
    rewrite <- app_assoc; simpl app.
    cbn [SortTracker.report_loop].
    rewrite nth_error_app_middle.
    replace (Z.of_nat (S (length l)) - 1)%Z with (Z.of_nat (length l)) by lia.
    rewrite rev_app_distr; simpl rev; simpl app.
    rewrite filter_app; simpl filter.
    assert (Hal : alive max_age x = negb (SortTracker.dead max_age x)) by reflexivity.
    destruct (SortTracker.dead max_age x) eqn:Hd; rewrite Hal; simpl negb; cbv iota.
    + rewrite pop_at_app_middle; simpl bind.
      rewrite IH. rewrite app_nil_r. f_equal. f_equal.
      destruct (SortTracker.reported min_hits frame_count x); simpl;
        [now rewrite <- app_assoc | reflexivity].
    + change (l ++ x :: l2) with (l ++ [x] ++ l2).
      rewrite (IH ([x] ++ l2)). rewrite <- app_assoc. f_equal. f_equal.
      destruct (SortTracker.reported min_hits frame_count x); simpl;
        [now rewrite <- app_assoc | reflexivity].
Qed.

Lemma report_loop_spec (min_hits max_age frame_count : Z)
      (trks : list (KalmanBoxTracker.t F)) :
  SortTracker.report_loop min_hits max_age frame_count
    (length trks) trks (Z.of_nat (length trks)) []
  = Some (filter (alive max_age) trks,
          map SortTracker.report_row
              (filter (SortTracker.reported min_hits frame_count) (rev trks))).
Proof.
  pose proof (report_loop_app min_hits max_age frame_count trks [] []) as H.
  rewrite !app_nil_r in H. exact H.
Qed.

(** [update] in terms of the pool of trackers the last loop walks. *)
Lemma update_spec (count : Z) (self : SortTracker.t F) (dets : list (Detection F)) :
  SortTracker.update count self dets
  = '(count', pool) <- SortTracker.track_pool count self dets ;;
    Some (count',
          SortTracker.mk (SortTracker.max_age self) (SortTracker.min_hits self)
            (SortTracker.iou_threshold self)
            (filter (alive (SortTracker.max_age self)) pool)
            (SortTracker.frame_count self + 1),
          map SortTracker.report_row
              (filter (SortTracker.reported (SortTracker.min_hits self)
                                            (SortTracker.frame_count self + 1))
                      (rev pool))).
Proof.
  unfold SortTracker.update.
  destruct (SortTracker.track_pool count self dets) as [[count' pool] |]; simpl;
    [| reflexivity].
  now rewrite report_loop_spec.
Qed.

End ReportLoop.

(** ** What every stage of [SortTracker.update] preserves *)

Lemma pop_at_Forall {A : Type} (P : A -> Prop) (i : Z) (l l' : list A) :
  Forall P l -> pop_at i l = Some l' -> Forall P l'.
Proof.
  intros Hl Hp. apply pop_at_Some in Hp as (l1 & x & l2 & -> & ->).
  apply Forall_app in Hl as [H1 H2]. apply Forall_app; split; [assumption |].
  now inversion H2.
Qed.

Lemma modify_nth_Some {A : Type} (f : A -> A) :
  forall (i : nat) (l l' : list A),
    modify_nth i f l = Some l' ->
    exists l1 x l2, l = l1 ++ x :: l2 /\ l' = l1 ++ f x :: l2 /\ length l1 = i.
Proof.
  induction i as [| i IH]; intros [| h t] l' H; simpl in H; try discriminate.
  - inversion H; subst. now exists [], h, t.
  - apply bind_Some in H as (t' & Ht & H). inversion H; subst.
    destruct (IH _ _ Ht) as (l1 & x & l2 & -> & -> & Hlen).
    exists (h :: l1), x, l2. simpl. now rewrite Hlen.
Qed.

Lemma modify_nth_total {A : Type} (f : A -> A) :
  forall (i : nat) (l : list A),
    (i < length l)%nat -> exists l', modify_nth i f l = Some l'.
Proof.
  induction i as [| i IH]; intros [| h t] Hlt; simpl in *; try lia.
  - now eexists.
  - destruct (IH t) as [t' Ht]; [lia |]. rewrite Ht. simpl. now eexists.
Qed.

Section Preservation.
Context {F : Type} {SF : Scalar F} {EX : External F}.

Variable P : KalmanBoxTracker.t F -> Prop.
Variable dets : list (Detection F).
Variable count0 : Z.

Hypothesis P_predict : forall trk, P trk -> P (fst (KalmanBoxTracker.predict trk)).
Hypothesis P_update : forall trk bbox, P trk -> P (KalmanBoxTracker.update trk bbox).
Hypothesis P_new :
  forall count d c,
    (count0 <= count)%Z -> In d dets -> to_int (det_class d) = Some c ->
    P (fst (KalmanBoxTracker.init count (det_box d) (det_score d) c)).

Lemma predict_loop_trackers (trks : list (KalmanBoxTracker.t F)) :
  forall t,
    fst (fst (SortTracker.predict_loop t trks))
    = map (fun trk => fst (KalmanBoxTracker.predict trk)) trks.
Proof.
  induction trks as [| trk rest IH]; intros t; simpl; [reflexivity |].
  specialize (IH (S t)).
  destruct (SortTracker.predict_loop (S t) rest) as [[rest' tracks] to_del].
  simpl in *. now rewrite IH.
Qed.

Lemma predict_loop_Forall (trks : list (KalmanBoxTracker.t F)) (t : nat) :
  Forall P trks -> Forall P (fst (fst (SortTracker.predict_loop t trks))).
Proof.
  intros H. rewrite predict_loop_trackers. apply Forall_map.
  eapply Forall_impl; [| exact H]. auto.
Qed.

Lemma pop_all_Forall (to_del : list nat) :
  forall trks trks',
    Forall P trks -> SortTracker.pop_all to_del trks = Some trks' -> Forall P trks'.
Proof.
  induction to_del as [| t rest IH]; intros trks trks' H Hp; simpl in Hp.
  - now inversion Hp; subst.
  - apply bind_Some in Hp as (l & Hl & Hp).
    eapply IH; [| exact Hp]. eapply pop_at_Forall; eauto.
Qed.

Lemma update_matched_Forall (matched : list (nat * nat)) :
  forall trks trks',
    Forall P trks -> SortTracker.update_matched matched dets trks = Some trks' ->
    Forall P trks'.
Proof.
  induction matched as [| m rest IH]; intros trks trks' H Hu; simpl in Hu.
  - now inversion Hu; subst.
  - apply bind_Some in Hu as (d & Hd & Hu).
    apply bind_Some in Hu as (l & Hl & Hu).
    eapply IH; [| exact Hu].
    apply modify_nth_Some in Hl as (l1 & x & l2 & -> & -> & _).
    apply Forall_app in H as [H1 H2]. inversion H2; subst.
    apply Forall_app; split; [assumption |]. constructor; auto.
Qed.

Lemma create_new_Forall (unmatched_dets : list nat) :
  forall count trks count' trks',
    (count0 <= count)%Z -> Forall P trks ->
    SortTracker.create_new unmatched_dets dets count trks = Some (count', trks') ->
    Forall P trks' /\ (count <= count')%Z.
Proof.
  induction unmatched_dets as [| i rest IH]; intros count trks count' trks' Hc H Hn;
    simpl in Hn.
  - inversion Hn; subst. split; [assumption | lia].
  - apply bind_Some in Hn as (d & Hd & Hn).
    apply bind_Some in Hn as (c & Hcls & Hn).
    simpl in Hn. apply IH in Hn as [Hp Hle]; [split; [assumption | lia] | lia |].
    apply Forall_app; split; [assumption |]. constructor; [| constructor].
    apply P_new; [assumption | eapply nth_error_In; eassumption | assumption].
Qed.

Lemma track_pool_Forall (self : SortTracker.t F) (count' : Z)
      (pool : list (KalmanBoxTracker.t F)) :
  Forall P (SortTracker.trackers self) ->
  SortTracker.track_pool count0 self dets = Some (count', pool) ->
  Forall P pool /\ (count0 <= count')%Z.
Proof.
  intros H Hp. unfold SortTracker.track_pool in Hp.
  pose proof (predict_loop_Forall _ 0 H) as Hpred.
  destruct (SortTracker.predict_loop 0 (SortTracker.trackers self))
    as [[trks tracks] to_del]; simpl in Hpred.
  apply bind_Some in Hp as (trks1 & Hpop & Hp).
  apply bind_Some in Hp as ([[matched unmatched_dets] ut] & Hassoc & Hp).
  apply bind_Some in Hp as (trks2 & Hupd & Hp).
  eapply create_new_Forall; [lia | | exact Hp].
  eapply update_matched_Forall; [| exact Hupd].
  eapply pop_all_Forall; eauto.
Qed.

Lemma update_Forall (self self' : SortTracker.t F) (count' : Z) (ret : list (list F)) :
  Forall P (SortTracker.trackers self) ->
  SortTracker.update count0 self dets = Some (count', self', ret) ->
  Forall P (SortTracker.trackers self') /\ (count0 <= count')%Z.
Proof.
  intros H Hu. rewrite update_spec in Hu.
  apply bind_Some in Hu as ([c pool] & Hp & Hu). inversion Hu; subst; simpl.
  destruct (track_pool_Forall _ _ _ H Hp) as [Hpool Hle].
  split; [| assumption].
  apply Forall_forall. intros trk Hin. apply filter_In in Hin as [Hin _].
  revert trk Hin. now apply Forall_forall.
Qed.

End Preservation.

(** ** Lifecycle counters *)

Section Counters.
Context {F : Type} {SF : Scalar F} {EX : External F}.

Lemma streak_reset_init (count : Z) (bbox : BBox F) (conf : F) (cls : Z) :
  streak_reset (fst (KalmanBoxTracker.init count bbox conf cls)).
Proof.
  unfold streak_reset; simpl. lia.
Qed.

Lemma streak_reset_update (trk : KalmanBoxTracker.t F) (bbox : BBox F) :
  streak_reset (KalmanBoxTracker.update trk bbox).
Proof.
  unfold streak_reset; simpl. lia.
Qed.

Lemma streak_reset_predict (trk : KalmanBoxTracker.t F) :
  streak_reset (fst (KalmanBoxTracker.predict trk)).
Proof.
  unfold streak_reset; simpl. intros H.
  destruct (Z.gtb_spec (KalmanBoxTracker.time_since_update trk) 0); [reflexivity | lia].
Qed.

Lemma streak_reset_calls (cs : list call) :
  forall trk : KalmanBoxTracker.t F, streak_reset trk -> streak_reset (do_calls trk cs).
Proof.
  induction cs as [| c cs IH]; intros trk H; simpl; [assumption |].
  apply IH. destruct c; simpl; [apply streak_reset_predict | apply streak_reset_update].
Qed.

Lemma streak_reset_run (frames : list (list (Detection F))) :
  forall count self count' self' rets,
    Forall streak_reset (SortTracker.trackers self) ->
    SortTracker.run count self frames = Some (count', self', rets) ->
    Forall streak_reset (SortTracker.trackers self').
Proof.
  induction frames as [| dets rest IH]; intros count self count' self' rets H Hr;
    simpl in Hr.
  - now inversion Hr; subst.
  - apply bind_Some in Hr as ([[c1 s1] r1] & Hu & Hr).
    apply bind_Some in Hr as ([[c2 s2] r2] & Hrest & Hr).
    inversion Hr; subst.
    eapply IH; [| exact Hrest].
    eapply (update_Forall streak_reset); eauto using streak_reset_update.
    + intros; apply streak_reset_predict.
    + intros; apply streak_reset_init.
Qed.

(** The first miss keeps the streak, a later one resets it. *)
Lemma predict_first_miss (trk : KalmanBoxTracker.t F) :
  KalmanBoxTracker.time_since_update trk = 0%Z ->
  KalmanBoxTracker.time_since_update (fst (KalmanBoxTracker.predict trk)) = 1%Z
  /\ KalmanBoxTracker.hit_streak (fst (KalmanBoxTracker.predict trk))
     = KalmanBoxTracker.hit_streak trk.
Proof.
  intros H. simpl. rewrite H. split; reflexivity.
Qed.

Lemma predict_later_miss (trk : KalmanBoxTracker.t F) :
  (0 < KalmanBoxTracker.time_since_update trk)%Z ->
  KalmanBoxTracker.hit_streak (fst (KalmanBoxTracker.predict trk)) = 0%Z.
Proof.
  intros H. simpl.
  destruct (Z.gtb_spec (KalmanBoxTracker.time_since_update trk) 0); [reflexivity | lia].
Qed.

Lemma hit_streak_nonneg_calls (cs : list call) :
  forall trk : KalmanBoxTracker.t F,
    (0 <= KalmanBoxTracker.hit_streak trk)%Z ->
    (0 <= KalmanBoxTracker.hit_streak (do_calls trk cs))%Z.
Proof.
  induction cs as [| c cs IH]; intros trk H; simpl; [assumption |].
  apply IH. destruct c; simpl; [| lia].
  destruct (KalmanBoxTracker.time_since_update trk >? 0)%Z; lia.
Qed.

(** A tracker that was just matched and then misses one frame. *)
Lemma matched_then_missed (trk : KalmanBoxTracker.t F) (cs : list call) (b : BBox F) :
  (0 <= KalmanBoxTracker.hit_streak trk)%Z ->
  KalmanBoxTracker.time_since_update (do_calls trk (cs ++ [Update b; Predict])) = 1%Z
  /\ KalmanBoxTracker.hit_streak (do_calls trk (cs ++ [Update b; Predict]))
     = KalmanBoxTracker.hit_streak (do_calls trk (cs ++ [Update b]))
  /\ (0 < KalmanBoxTracker.hit_streak (do_calls trk (cs ++ [Update b; Predict])))%Z.
Proof.
  intros H. unfold do_calls. rewrite !fold_left_app. simpl.
  pose proof (hit_streak_nonneg_calls cs trk H) as Hn. unfold do_calls in Hn.
  repeat split. lia.
Qed.

End Counters.

(** C3 (as the code has it): whatever calls a tracker has received since
    its creation, and in every state the orchestrator reaches, a
    [time_since_update] above 1 implies [hit_streak = 0].  With
    [time_since_update = 1] the streak of the last match is still there:
    [predict] on a tracker that was matched in the last frame
    ([time_since_update = 0]) leaves [hit_streak] as it is, and resets it
    only when the tracker had already missed a frame; so a tracker that
    is matched and then misses one frame has [time_since_update = 1] and
    the positive streak its match left. *)
Theorem streak_reset_after_second_miss :
  forall (F : Type) (SF : Scalar F) (EX : External F),
    (forall count bbox conf cls (cs : list call),
        streak_reset (do_calls (fst (KalmanBoxTracker.init count bbox conf cls)) cs))
    /\ (forall max_age min_hits iou_threshold self0 frames count count' self' rets,
           SortTracker.init max_age min_hits iou_threshold = Some self0 ->
           SortTracker.run count self0 frames = Some (count', self', rets) ->
           Forall streak_reset (SortTracker.trackers self'))
    /\ (forall count self dets count' self' ret,
           Forall streak_reset (SortTracker.trackers self) ->
           SortTracker.update count self dets = Some (count', self', ret) ->
           Forall streak_reset (SortTracker.trackers self'))
    /\ (forall trk : KalmanBoxTracker.t F,
           KalmanBoxTracker.time_since_update trk = 0%Z ->
           KalmanBoxTracker.time_since_update (fst (KalmanBoxTracker.predict trk)) = 1%Z
           /\ KalmanBoxTracker.hit_streak (fst (KalmanBoxTracker.predict trk))
              = KalmanBoxTracker.hit_streak trk)
    /\ (forall trk : KalmanBoxTracker.t F,
           (0 < KalmanBoxTracker.time_since_update trk)%Z ->
           KalmanBoxTracker.hit_streak (fst (KalmanBoxTracker.predict trk)) = 0%Z)
    /\ (forall count bbox conf cls (cs : list call) (b : BBox F),
           let matched :=
             do_calls (fst (KalmanBoxTracker.init count bbox conf cls)) (cs ++ [Update b]) in
           let missed :=
             do_calls (fst (KalmanBoxTracker.init count bbox conf cls))
                      (cs ++ [Update b; Predict]) in
           KalmanBoxTracker.time_since_update missed = 1%Z
           /\ KalmanBoxTracker.hit_streak missed = KalmanBoxTracker.hit_streak matched
           /\ (0 < KalmanBoxTracker.hit_streak missed)%Z).
Proof.
  intros F SF EX. split; [| split; [| split; [| split; [| split]]]].
  - intros. apply streak_reset_calls, streak_reset_init.
  - intros max_age min_hits tau self0 frames count count' self' rets Hi Hr.
    eapply streak_reset_run; [| exact Hr].
    unfold SortTracker.init in Hi.
    destruct (max_age >=? 0)%Z; [| discriminate].
    destruct (min_hits >=? 0)%Z; [| discriminate].
    inversion Hi; subst; simpl. constructor.
  - intros count self dets count' self' ret H Hu.
    apply (streak_reset_run [dets] count self count' self' [ret]); [assumption |].
    simpl. rewrite Hu. reflexivity.
  - intros trk H. now apply predict_first_miss.
  - intros trk H. now apply predict_later_miss.
  - intros count bbox conf cls cs b matched missed.
    apply (matched_then_missed (fst (KalmanBoxTracker.init count bbox conf cls)) cs b).
    simpl. lia.
Qed.

(** C3 as stated fails: a tracker matched on frame 2 and missed on frame 3
    ends frame 3 with [time_since_update = 1] and [hit_streak = 1]. *)
Lemma exclusive_signals_counterexample :
  match run_float default_tracker
          [ [detection 0 0 2 2 0.5 1]; [detection 0 0 2 2 0.5 1]; [] ] with
  | Some (_, self, _) => counters self = [(0, 1, 1)%Z]
  | None => False
  end.
Proof.
  vm_compute. reflexivity.
Qed.

(** ** Identity, class and confidence *)

Section Identity.
Context {F : Type} {SF : Scalar F} {EX : External F}.

Lemma same_identity_refl (trk : KalmanBoxTracker.t F) : same_identity trk trk.
Proof. now repeat split. Qed.

Lemma same_identity_trans (a b c : KalmanBoxTracker.t F) :
  same_identity a b -> same_identity b c -> same_identity a c.
Proof.
  unfold same_identity. intros (H1 & H2 & H3) (H4 & H5 & H6).
  repeat split; congruence.
Qed.

Lemma same_identity_update (trk : KalmanBoxTracker.t F) (bbox : BBox F) :
  same_identity trk (KalmanBoxTracker.update trk bbox).
Proof. now repeat split. Qed.

Lemma same_identity_predict (trk : KalmanBoxTracker.t F) :
  same_identity trk (fst (KalmanBoxTracker.predict trk)).
Proof. now repeat split. Qed.

Lemma created_from_same (dets : list (Detection F)) (a b : KalmanBoxTracker.t F) :
  same_identity a b -> created_from dets a -> created_from dets b.
Proof.
  intros (_ & Hcls & Hconf) (d & Hin & Hc & Hi).
  exists d. rewrite <- Hcls, <- Hconf. auto.
Qed.

Lemma origin_same (old : list (KalmanBoxTracker.t F)) (count : Z)
      (frames : list (list (Detection F))) (a b : KalmanBoxTracker.t F) :
  same_identity a b -> origin old count frames a -> origin old count frames b.
Proof.
  intros Hs [(trk & Hin & Ht) | [Hle (dets & Hd & Hc)]].
  - left. exists trk. split; [assumption |]. eapply same_identity_trans; eauto.
  - right. destruct Hs as (Hid & Hrest). split; [now rewrite <- Hid |].
    exists dets. split; [assumption |].
    eapply created_from_same; [| exact Hc]. now split.
Qed.

Lemma track_pool_origin (count : Z) (self : SortTracker.t F) (dets : list (Detection F))
      (count' : Z) (pool : list (KalmanBoxTracker.t F)) :
  SortTracker.track_pool count self dets = Some (count', pool) ->
  Forall (origin (SortTracker.trackers self) count [dets]) pool /\ (count <= count')%Z.
Proof.
  intros Hp.
  eapply (track_pool_Forall (origin (SortTracker.trackers self) count [dets]));
    [ | | | | exact Hp].
  - intros trk H. eapply origin_same; [apply same_identity_predict | exact H].
  - intros trk bbox H. eapply origin_same; [apply same_identity_update | exact H].
  - intros c d k Hc Hin Hi. right. simpl. split; [assumption |].
    exists dets. split; [now left |]. exists d. simpl. auto.
  - apply Forall_forall. intros trk Hin. left. exists trk.
    split; [assumption | apply same_identity_refl].
Qed.

Lemma update_origin (count : Z) (self : SortTracker.t F) (dets : list (Detection F))
      (count' : Z) (self' : SortTracker.t F) (ret : list (list F)) :
  SortTracker.update count self dets = Some (count', self', ret) ->
  Forall (origin (SortTracker.trackers self) count [dets]) (SortTracker.trackers self')
  /\ (count <= count')%Z.
Proof.
  intros Hu. rewrite update_spec in Hu.
  apply bind_Some in Hu as ([c pool] & Hp & Hu). inversion Hu; subst; simpl.
  apply track_pool_origin in Hp as [Hpool Hle]. split; [| assumption].
  rewrite Forall_forall in Hpool. apply Forall_forall.
  intros trk Hin. apply filter_In in Hin as [Hin _]. auto.
Qed.

Lemma update_rows_origin (count : Z) (self : SortTracker.t F) (dets : list (Detection F))
      (count' : Z) (self' : SortTracker.t F) (ret : list (list F)) :
  SortTracker.update count self dets = Some (count', self', ret) ->
  forall row, In row ret ->
    exists trk', origin (SortTracker.trackers self) count [dets] trk'
                 /\ row = SortTracker.report_row trk'.
Proof.
  intros Hu row Hin. rewrite update_spec in Hu.
  apply bind_Some in Hu as ([c pool] & Hp & Hu). inversion Hu; subst; simpl.
  apply track_pool_origin in Hp as [Hpool _]. rewrite Forall_forall in Hpool.
  apply in_map_iff in Hin as (trk' & <- & Hin).
  apply filter_In in Hin as [Hin _]. apply in_rev in Hin.
  exists trk'. auto.
Qed.

Lemma run_origin (frames : list (list (Detection F))) :
  forall count self count' self' rets,
    SortTracker.run count self frames = Some (count', self', rets) ->
    Forall (origin (SortTracker.trackers self) count frames) (SortTracker.trackers self')
    /\ (count <= count')%Z.
Proof.
  induction frames as [| dets rest IH]; intros count self count' self' rets Hr;
    simpl in Hr.
  - inversion Hr; subst. split; [| lia].
    apply Forall_forall. intros trk Hin. left. exists trk.
    split; [assumption | apply same_identity_refl].
  - apply bind_Some in Hr as ([[c1 s1] r1] & Hu & Hr).
    apply bind_Some in Hr as ([[c2 s2] r2] & Hrest & Hr).
    inversion Hr; subst; clear Hr.
    apply update_origin in Hu as [H1 Hle1].
    apply IH in Hrest as [H2 Hle2].
    split; [| lia].
    rewrite Forall_forall in H1, H2. apply Forall_forall. intros trk' Hin.
    destruct (H2 trk' Hin) as [(trk1 & Hin1 & Hs1) | [Hle (ds & Hds & Hc)]].
    + eapply origin_same; [exact Hs1 |].
      destruct (H1 trk1 Hin1) as [Hold | [Hle (ds & Hds & Hc)]]; [now left | right].
      split; [assumption |]. exists ds. split; [| assumption].
      destruct Hds as [<- | []]. now left.
    + right. split; [lia |]. exists ds. split; [now right | assumption].
Qed.

Lemma ids_ordered_unique (count : Z) (trks : list (KalmanBoxTracker.t F))
      (a b : KalmanBoxTracker.t F) :
  ids_ordered count trks -> In a trks -> In b trks ->
  KalmanBoxTracker.id a = KalmanBoxTracker.id b -> a = b.
Proof.
  intros [Hs _]. induction trks as [| h t IH]; simpl; [tauto |].
  simpl in Hs. apply StronglySorted_inv in Hs as [Hs Hh].
  rewrite Forall_forall in Hh.
  intros [-> | Ha] [-> | Hb] Hid; auto.
  - specialize (Hh _ (in_map (@KalmanBoxTracker.id F) _ _ Hb)). lia.
  - specialize (Hh _ (in_map (@KalmanBoxTracker.id F) _ _ Ha)). lia.
Qed.

(** Through any run, the tracker of a given identity keeps its class and
    confidence. *)
Lemma run_same_identity (frames : list (list (Detection F)))
      (count : Z) (self : SortTracker.t F) (count' : Z) (self' : SortTracker.t F)
      (rets : list (list (list F))) :
  ids_ordered count (SortTracker.trackers self) ->
  SortTracker.run count self frames = Some (count', self', rets) ->
  forall trk trk',
    In trk (SortTracker.trackers self) -> In trk' (SortTracker.trackers self') ->
    KalmanBoxTracker.id trk = KalmanBoxTracker.id trk' ->
    same_identity trk trk'.
Proof.
  intros Hids Hr trk trk' Hin Hin' Hid.
  apply run_origin in Hr as [Hr _]. rewrite Forall_forall in Hr.
  destruct (Hr _ Hin') as [(trk0 & Hin0 & Hs) | [Hle _]].
  - assert (trk0 = trk) as ->; [| exact Hs].
    apply (ids_ordered_unique count (SortTracker.trackers self)); auto.
    destruct Hs as [-> _]. now symmetry.
  - destruct Hids as [_ Hb]. rewrite Forall_forall in Hb.
    specialize (Hb _ Hin). lia.
Qed.

End Identity.

(** C8: [update] leaves a tracker's identity, class and confidence as they
    are (so does [predict]).  Over any run of the orchestrator, a live
    tracker either continues a tracker of the starting state, with the
    same identity, class and confidence, or carries the score and the
    class of the detection it was created from; the tracker of a given
    identity keeps its creation-time confidence through every match; and
    every reported row is the row of such a tracker, its last entry being
    that confidence. *)
Theorem confidence_fixed_at_creation :
  forall (F : Type) (SF : Scalar F) (EX : External F),
    (forall (trk : KalmanBoxTracker.t F) bbox,
        same_identity trk (KalmanBoxTracker.update trk bbox)
        /\ same_identity trk (fst (KalmanBoxTracker.predict trk)))
    /\ (forall count self frames count' self' rets,
           SortTracker.run count self frames = Some (count', self', rets) ->
           forall trk', In trk' (SortTracker.trackers self') ->
                        origin (SortTracker.trackers self) count frames trk')
    /\ (forall count self frames count' self' rets,
           ids_ordered count (SortTracker.trackers self) ->
           SortTracker.run count self frames = Some (count', self', rets) ->
           forall trk trk',
             In trk (SortTracker.trackers self) -> In trk' (SortTracker.trackers self') ->
             KalmanBoxTracker.id trk = KalmanBoxTracker.id trk' ->
             same_identity trk trk')
    /\ (forall count self dets count' self' ret,
           SortTracker.update count self dets = Some (count', self', ret) ->
           forall row, In row ret ->
             exists trk', origin (SortTracker.trackers self) count [dets] trk'
                          /\ row = SortTracker.report_row trk'
                          /\ nth_error row 6 = Some (KalmanBoxTracker.conf trk')).
Proof.
  intros F SF EX. split; [| split; [| split]].
  - intros trk bbox. split;
      [apply same_identity_update | apply same_identity_predict].
  - intros count self frames count' self' rets Hr trk' Hin.
    apply run_origin in Hr as [Hr _]. rewrite Forall_forall in Hr. auto.
  - intros count self frames count' self' rets Hids Hr trk trk' Hin Hin' Hid.
    now apply (run_same_identity frames count self count' self' rets Hids Hr).
  - intros count self dets count' self' ret Hu row Hin.
    destruct (update_rows_origin _ _ _ _ _ _ Hu _ Hin) as (trk' & Ho & ->).
    exists trk'. repeat split; assumption.
Qed.

(** ** The associator: the filtering loop *)

Section AssociatorFacts.
Context {F : Type} {SF : Scalar F} {EX : External F}.

Lemma filter_matches_spec (M : Matrix F) (tau : F) (mi : list (nat * nat)) :
  forall matches ud ut,
    filter_matches M tau mi matches ud ut
    = if forallb (in_matrix M) mi
      then Some (matches ++ filter (fun p => negb (low M tau p)) mi,
                 ud ++ map fst (filter (low M tau) mi),
                 ut ++ map snd (filter (low M tau) mi))
      else None.
Proof.
  induction mi as [| p rest IH]; intros matches ud ut; simpl.
  - now rewrite !app_nil_r.
  - assert (Hin : in_matrix M p
                  = match matrix_get M (fst p) (snd p) with
                    | Some _ => true | None => false end) by reflexivity.
    assert (Hlow : low M tau p
                   = match matrix_get M (fst p) (snd p) with
                     | Some v => fltb v tau | None => false end) by reflexivity.
    destruct (matrix_get M (fst p) (snd p)) as [v |]; rewrite Hin; simpl;
      [| reflexivity].
    rewrite Hlow.
    destruct (fltb v tau); simpl; rewrite IH;
      destruct (forallb (in_matrix M) rest); try reflexivity;
      now rewrite <- !app_assoc.
Qed.

Lemma associate_from_spec (n m : nat) (M : Matrix F) (tau : F) (mi : list (nat * nat)) :
  associate_from n m M tau mi
  = if forallb (in_matrix M) mi
    then Some (filter (fun p => negb (low M tau p)) mi,
               filter (fun d => negb (mem_nat d (map fst mi))) (seq 0 n)
                 ++ map fst (filter (low M tau) mi),
               filter (fun t => negb (mem_nat t (map snd mi))) (seq 0 m)
                 ++ map snd (filter (low M tau) mi))
    else None.
Proof.
  unfold associate_from. now rewrite filter_matches_spec.
Qed.

Lemma matrix_get_iou_batch (dets trks : list (BBox F)) (d t : nat) :
  (d < length dets)%nat -> (t < length trks)%nat ->
  exists v, matrix_get (iou_batch dets trks) d t = Some v.
Proof.
  intros Hd Ht. unfold matrix_get, iou_batch.
  rewrite nth_error_map.
  destruct (nth_error dets d) as [bd |] eqn:Ed;
    [| apply nth_error_None in Ed; lia].
  simpl. rewrite nth_error_map.
  destruct (nth_error trks t) as [bt |] eqn:Et;
    [| apply nth_error_None in Et; lia].
  simpl. now eexists.
Qed.

Lemma matrix_get_iou_batch_inv (dets trks : list (BBox F)) (d t : nat) (v : F) :
  matrix_get (iou_batch dets trks) d t = Some v ->
  (d < length dets)%nat /\ (t < length trks)%nat.
Proof.
  unfold matrix_get, iou_batch. rewrite nth_error_map.
  destruct (nth_error dets d) as [bd |] eqn:Ed; simpl; [| discriminate].
  rewrite nth_error_map.
  destruct (nth_error trks t) as [bt |] eqn:Et; simpl; [| discriminate].
  intros _. split; apply nth_error_Some; congruence.
Qed.

Lemma in_matrix_valid (dets trks : list (BBox F)) (mi : list (nat * nat)) :
  Forall (fun p => (fst p < length dets)%nat /\ (snd p < length trks)%nat) mi ->
  forallb (in_matrix (iou_batch dets trks)) mi = true.
Proof.
  intros H. apply forallb_forall. rewrite Forall_forall in H.
  intros p Hin. destruct (H p Hin) as [Hd Ht].
  unfold in_matrix. now destruct (matrix_get_iou_batch dets trks _ _ Hd Ht) as [v ->].
Qed.

End AssociatorFacts.

(** ** The associator: the shortcut *)

Lemma enumerate_from_In {A : Type} (l : list A) :
  forall (k i : nat) (x : A),
    In (i, x) (enumerate_from k l) <-> (k <= i)%nat /\ nth_error l (i - k) = Some x.
Proof.
  induction l as [| h t IH]; intros k i x; simpl.
  - split; [tauto |]. intros [_ H]. now destruct (i - k)%nat.
  - rewrite IH. split.
    + intros [H | [Hle H]].
      * inversion H; subst. rewrite Nat.sub_diag. auto.
      * split; [lia |]. replace (i - k)%nat with (S (i - S k)) by lia. exact H.
    + intros [Hle H]. destruct (Nat.eq_dec i k) as [-> | Hne].
      * rewrite Nat.sub_diag in H. simpl in H. inversion H. now left.
      * right. split; [lia |].
        replace (i - k)%nat with (S (i - S k)) in H by lia. exact H.
Qed.

Lemma enumerate_In {A : Type} (l : list A) (i : nat) (x : A) :
  In (i, x) (enumerate l) <-> nth_error l i = Some x.
Proof.
  unfold enumerate. rewrite enumerate_from_In, Nat.sub_0_r. intuition lia.
Qed.

Section Shortcut.
Context {F : Type} {SF : Scalar F}.

Lemma where_pairs_In (a : list (list Z)) (p : nat * nat) :
  In p (where_pairs a)
  <-> exists row v, nth_error a (fst p) = Some row
                    /\ nth_error row (snd p) = Some v /\ v <> 0%Z.
Proof.
  unfold where_pairs. rewrite in_flat_map. split.
  - intros ([i row] & Hin & Hp). apply enumerate_In in Hin.
    apply in_flat_map in Hp as ([j v] & Hj & Hp). apply enumerate_In in Hj.
    destruct (Z.eqb_spec v 0) as [-> | Hv]; [destruct Hp |].
    destruct Hp as [<- | []]. simpl. now exists row, v.
  - intros (row & v & Hrow & Hv & Hnz). destruct p as [i j]; simpl in *.
    exists (i, row). split; [now apply enumerate_In |].
    apply in_flat_map. exists (j, v). split; [now apply enumerate_In |].
    destruct (Z.eqb_spec v 0); [contradiction | now left].
Qed.

Lemma where_threshold_In (M : Matrix F) (tau : F) (p : nat * nat) :
  In p (where_pairs (threshold_matrix M tau)) <-> high M tau p = true.
Proof.
  rewrite where_pairs_In. unfold high, matrix_get, threshold_matrix.
  rewrite nth_error_map. split.
  - intros (row & v & Hrow & Hv & Hnz).
    destruct (nth_error M (fst p)) as [r |]; simpl in *; [| discriminate].
    inversion Hrow; subst row; clear Hrow. rewrite nth_error_map in Hv.
    destruct (nth_error r (snd p)) as [x |]; simpl in *; [| discriminate].
    inversion Hv; subst v. now destruct (fltb tau x).
  - destruct (nth_error M (fst p)) as [r |]; simpl; [| discriminate].
    destruct (nth_error r (snd p)) as [x |] eqn:Ex; [| discriminate].
    intros Hx. eexists; eexists. split; [reflexivity |].
    rewrite nth_error_map, Ex; simpl. rewrite Hx. split; [reflexivity | discriminate].
Qed.

Lemma high_in_matrix (M : Matrix F) (tau : F) (p : nat * nat) :
  high M tau p = true -> in_matrix M p = true.
Proof.
  unfold high, in_matrix. now destruct (matrix_get M (fst p) (snd p)).
Qed.

End Shortcut.

(** ** The associator as a whole *)

Section Associate.
Context {F : Type} {SF : Scalar F} {EX : External F}.

Lemma filter_all {A : Type} (f : A -> bool) (l : list A) :
  (forall x, In x l -> f x = true) -> filter f l = l.
Proof.
  induction l as [| h t IH]; simpl; intros H; [reflexivity |].
  rewrite (H h (or_introl eq_refl)). f_equal. apply IH. auto.
Qed.

Lemma min_zero_r (n m : nat) : m = 0%nat -> (0 <? Nat.min n m)%nat = false.
Proof.
  intros ->. rewrite Nat.min_0_r. reflexivity.
Qed.

(** The three outputs in closed form, from the pairs of the matching step. *)
Lemma associate_spec (dets trks : list (BBox F)) (tau : F) :
  associate_detections_to_trackers dets trks tau
  = let M := iou_batch dets trks in
    let mi := matching_step dets trks tau in
    if forallb (in_matrix M) mi
    then Some (filter (fun p => negb (low M tau p)) mi,
               filter (fun d => negb (mem_nat d (map fst mi))) (seq 0 (length dets))
                 ++ map fst (filter (low M tau) mi),
               filter (fun t => negb (mem_nat t (map snd mi))) (seq 0 (length trks))
                 ++ map snd (filter (low M tau) mi))
    else None.
Proof.
  unfold associate_detections_to_trackers, matching_step.
  destruct (Nat.eqb_spec (length trks) 0) as [Hm | Hm].
  - unfold matched_indices_of. rewrite (min_zero_r _ _ Hm). simpl.
    rewrite Hm. simpl. rewrite app_nil_r.
    now rewrite filter_all by reflexivity.
  - cbv zeta. apply associate_from_spec.
Qed.

Lemma matching_step_shortcut (dets trks : list (BBox F)) (tau : F) :
  unambiguous dets trks tau = true ->
  matching_step dets trks tau
  = where_pairs (threshold_matrix (iou_batch dets trks) tau).
Proof.
  unfold unambiguous, matching_step, matched_indices_of.
  intros H. apply andb_true_iff in H as [-> ->]. reflexivity.
Qed.

Lemma matching_step_cases (dets trks : list (BBox F)) (tau : F) :
  matching_step dets trks tau = []
  \/ matching_step dets trks tau
     = where_pairs (threshold_matrix (iou_batch dets trks) tau)
  \/ matching_step dets trks tau
     = linear_sum_assignment (neg_matrix (iou_batch dets trks)).
Proof.
  unfold matching_step, matched_indices_of.
  destruct (0 <? Nat.min (length dets) (length trks))%nat; [| now left].
  destruct (fast_path _ _); [right; now left | right; now right].
Qed.

Lemma matching_step_in_matrix (dets trks : list (BBox F)) (tau : F) :
  Forall (fun p => (fst p < length dets)%nat /\ (snd p < length trks)%nat)
         (linear_sum_assignment (neg_matrix (iou_batch dets trks))) ->
  forallb (in_matrix (iou_batch dets trks)) (matching_step dets trks tau) = true.
Proof.
  intros Hv.
  destruct (matching_step_cases dets trks tau) as [-> | [-> | ->]].
  - reflexivity.
  - apply forallb_forall. intros p Hp.
    apply where_threshold_In in Hp. now apply (high_in_matrix _ tau).
  - now apply in_matrix_valid.
Qed.

End Associate.

(** C2 (as the code has it): the last loop of the associator rejects
    exactly the pairs of the matching step whose IoU is strictly below the
    threshold: such a pair's detection index goes to
    [unmatched_detections], its tracker index to [unmatched_trackers], and
    it is not among the matches; every returned match comes from the
    matching step and has an IoU that is not below the threshold (equal to
    it is enough); on the shortcut every match is strictly above.  The
    associator returns whenever the pairs of the solver are inside the
    matrix. *)
Theorem low_pairs_rejected :
  forall (F : Type) (SF : Scalar F) (EX : External F)
         (dets trks : list (BBox F)) (tau : F),
    let M := iou_batch dets trks in
    (Forall (fun p => (fst p < length dets)%nat /\ (snd p < length trks)%nat)
            (linear_sum_assignment (neg_matrix M)) ->
     exists r, associate_detections_to_trackers dets trks tau = Some r)
    /\ (forall matches ud ut,
           associate_detections_to_trackers dets trks tau = Some (matches, ud, ut) ->
           (forall p, In p (matching_step dets trks tau) ->
                      low M tau p = true ->
                      In (fst p) ud /\ In (snd p) ut /\ ~ In p matches)
           /\ (forall p, In p matches ->
                         In p (matching_step dets trks tau)
                         /\ exists v, matrix_get M (fst p) (snd p) = Some v
                                      /\ fltb v tau = false)
           /\ (unambiguous dets trks tau = true ->
               forall p, In p matches ->
                         exists v, matrix_get M (fst p) (snd p) = Some v
                                   /\ fltb tau v = true)).
Proof.
  intros F SF EX dets trks tau M. split.
  - intros Hv. rewrite associate_spec. cbv zeta.
    rewrite (matching_step_in_matrix dets trks tau Hv). now eexists.
  - intros matches ud ut Ha. rewrite associate_spec in Ha. cbv zeta in Ha.
    fold M in Ha.
    destruct (forallb (in_matrix M) (matching_step dets trks tau)) eqn:Hall;
      [| discriminate].
    inversion Ha; subst; clear Ha.
    assert (Hmatch : forall p,
               In p (filter (fun p => negb (low M tau p)) (matching_step dets trks tau)) ->
               In p (matching_step dets trks tau)
               /\ exists v, matrix_get M (fst p) (snd p) = Some v /\ fltb v tau = false).
    { intros p Hp. apply filter_In in Hp as [Hin Hlow]. split; [assumption |].
      rewrite forallb_forall in Hall. specialize (Hall p Hin).
      unfold in_matrix in Hall. unfold low in Hlow.
      destruct (matrix_get M (fst p) (snd p)) as [v |]; [| discriminate].
      exists v. split; [reflexivity |]. now apply negb_true_iff in Hlow. }
    split; [| split].
    + intros p Hin Hlow. repeat split.
      * apply in_or_app. right. apply in_map. now apply filter_In.
      * apply in_or_app. right. apply in_map. now apply filter_In.
      * intros Hp. apply filter_In in Hp as [_ Hp]. rewrite Hlow in Hp. discriminate.
    + exact Hmatch.
    + intros Hu p Hp. destruct (Hmatch p Hp) as [Hin _].
      rewrite (matching_step_shortcut dets trks tau Hu) in Hin.
      apply where_threshold_In in Hin. fold M in Hin. unfold high in Hin.
      destruct (matrix_get M (fst p) (snd p)) as [v |]; [| discriminate].
      now exists v.
Qed.

(** C2 as stated fails at equality: one detection and one tracker box
    with IoU exactly [0.5] and threshold [0.5]; the pair is kept. *)
Lemma threshold_equality_counterexample :
  @associate_detections_to_trackers float Scalar_float Reference_External
    [mkBBox 0 0 1 1]%float [mkBBox 0 0 2 1]%float 0.5%float
  = Some ([(0, 0)%nat], [], [])
  /\ matrix_get (iou_batch [mkBBox 0 0 1 1]%float [mkBBox 0 0 2 1]%float) 0 0
     = Some 0.5%float
  /\ PrimFloat.leb 0.5 0.5 = true.
Proof.
  vm_compute. repeat split.
Qed.

(** ** Sums and maxima of integer arrays *)

Lemma fold_left_max_ge (t : list Z) :
  forall h, (h <= fold_left Z.max t h)%Z
            /\ forall x, In x t -> (x <= fold_left Z.max t h)%Z.
Proof.
  induction t as [| y t IH]; intros h; simpl.
  - split; [lia | tauto].
  - destruct (IH (Z.max h y)) as [H1 H2]. split; [lia |].
    intros x [<- | Hx]; [lia | auto].
Qed.

Lemma maxZ_ge (l : list Z) (x : Z) : In x l -> (x <= maxZ l)%Z.
Proof.
  destruct l as [| h t]; simpl; [tauto |].
  destruct (fold_left_max_ge t h) as [H1 H2].
  intros [<- | Hx]; auto.
Qed.

Lemma sumZ_nonneg (l : list Z) : Forall (fun v => (0 <= v)%Z) l -> (0 <= sumZ l)%Z.
Proof.
  induction 1; simpl; lia.
Qed.

Lemma sumZ_two_ones (l : list Z) :
  forall i1 i2,
    Forall (fun v => (0 <= v)%Z) l ->
    nth_error l i1 = Some 1%Z -> nth_error l i2 = Some 1%Z -> i1 <> i2 ->
    (2 <= sumZ l)%Z.
Proof.
  induction l as [| h t IH]; intros i1 i2 Hpos H1 H2 Hne.
  - now destruct i1.
  - inversion Hpos; subst. pose proof (sumZ_nonneg _ H4) as Ht.
    assert (Hone : forall i, nth_error t i = Some 1%Z -> (1 <= sumZ t)%Z).
    { clear -H4. induction t as [| y t IHt]; intros i Hi; [now destruct i |].
      inversion H4; subst. pose proof (sumZ_nonneg _ H2).
      destruct i; simpl in *; [inversion Hi; lia |].
      specialize (IHt H2 _ Hi). lia. }
    destruct i1 as [| i1], i2 as [| i2]; simpl in *.
    + contradiction.
    + inversion H1; subst. specialize (Hone _ H2). lia.
    + inversion H2; subst. specialize (Hone _ H1). lia.
    + assert (2 <= sumZ t)%Z by (apply (IH i1 i2); auto; lia). lia.
Qed.

(** ** The shortcut yields an assignment *)

Section ShortcutAssignment.
Context {F : Type} {SF : Scalar F}.

Lemma row_pairs_length (i : nat) (row : list Z) :
  forall k,
    Forall bit row ->
    Z.of_nat (length (flat_map (fun '(j, v) => if (v =? 0)%Z then [] else [(i, j)])
                               (enumerate_from k row)))
    = sumZ row.
Proof.
  induction row as [| v row IH]; intros k Hb; simpl; [reflexivity |].
  inversion Hb; subst. rewrite length_app, Nat2Z.inj_add, IH by assumption.
  destruct H1 as [-> | ->]; simpl; lia.
Qed.

Lemma row_pairs_fst (i : nat) (row : list Z) (k : nat) (p : nat * nat) :
  In p (flat_map (fun '(j, v) => if (v =? 0)%Z then [] else [(i, j)])
                 (enumerate_from k row)) ->
  fst p = i.
Proof.
  intros H. apply in_flat_map in H as ([j v] & _ & H).
  destruct (v =? 0)%Z; [destruct H |]. now destruct H as [<- | []].
Qed.

Lemma where_pairs_sorted (a : list (list Z)) :
  forall k,
    Forall (fun row => Forall bit row /\ (sumZ row <= 1)%Z) a ->
    StronglySorted lt
      (map fst (flat_map (fun '(i, row) =>
                            flat_map (fun '(j, v) => if (v =? 0)%Z then [] else [(i, j)])
                                     (enumerate row))
                         (enumerate_from k a)))
    /\ Forall (fun i => (k <= i)%nat)
         (map fst (flat_map (fun '(i, row) =>
                               flat_map (fun '(j, v) => if (v =? 0)%Z then [] else [(i, j)])
                                        (enumerate row))
                            (enumerate_from k a))).
Proof.
  induction a as [| row a IH]; intros k Ha; simpl.
  - split; constructor.
  - inversion Ha as [| ? ? [Hb Hs] Hrest]; subst.
    destruct (IH (S k) Hrest) as [IHs IHk].
    pose proof (row_pairs_length k row 0%nat Hb) as Hlen.
    pose proof (row_pairs_fst k row 0%nat) as Hfst.
    fold (enumerate row) in Hlen, Hfst.
    destruct (flat_map (fun '(j, v) => if (v =? 0)%Z then [] else [(k, j)])
                       (enumerate row)) as [| p [| q rest]] eqn:E.
    + simpl. split; [assumption |].
      eapply Forall_impl; [| exact IHk]. simpl; intros; lia.
    + simpl. rewrite (Hfst p (or_introl eq_refl)). split.
      * constructor; [assumption |].
        eapply Forall_impl; [| exact IHk]. simpl; intros; lia.
      * constructor; [lia |].
        eapply Forall_impl; [| exact IHk]. simpl; intros; lia.
    + simpl in Hlen. lia.
Qed.

End ShortcutAssignment.

Lemma NoDup_map_inj_on {A B : Type} (f : A -> B) (l : list A) :
  NoDup l ->
  (forall x y, In x l -> In y l -> f x = f y -> x = y) ->
  NoDup (map f l).
Proof.
  induction 1 as [| x l Hx Hl IH]; intros Hinj; simpl; constructor.
  - intros Hin. apply in_map_iff in Hin as (y & Hy & Hin).
    assert (y = x) by (apply Hinj; simpl; auto). now subst.
  - apply IH. intros; apply Hinj; simpl; auto.
Qed.

Lemma StronglySorted_lt_NoDup (l : list nat) : StronglySorted lt l -> NoDup l.
Proof.
  induction 1 as [| x l Hs IH Hx]; constructor; [| assumption].
  intros Hin. rewrite Forall_forall in Hx. specialize (Hx _ Hin). lia.
Qed.

Lemma NoDup_map_fst_NoDup {A B : Type} (l : list (A * B)) :
  NoDup (map fst l) -> NoDup l.
Proof.
  induction l as [| p l IH]; simpl; intros H; constructor; inversion H; subst.
  - intros Hin. apply H2. now apply in_map.
  - auto.
Qed.

Section ShortcutValid.
Context {F : Type} {SF : Scalar F}.

Lemma threshold_rows_bits (M : Matrix F) (tau : F) :
  Forall (Forall bit) (threshold_matrix M tau).
Proof.
  unfold threshold_matrix. apply Forall_map, Forall_forall. intros row _.
  apply Forall_map, Forall_forall. intros v _.
  destruct (fltb tau v); [now right | now left].
Qed.

Lemma fast_path_rows (m : nat) (a : list (list Z)) :
  fast_path m a = true -> Forall (fun row => (sumZ row <= 1)%Z) a.
Proof.
  unfold fast_path. intros H. apply andb_true_iff in H as [H _].
  apply Z.eqb_eq in H. apply Forall_forall. intros row Hin.
  rewrite <- H. apply maxZ_ge. unfold sum_axis1. now apply in_map.
Qed.

Lemma fast_path_columns (m : nat) (a : list (list Z)) (j : nat) :
  fast_path m a = true -> (j < m)%nat ->
  (sumZ (map (fun row => nth j row 0%Z) a) <= 1)%Z.
Proof.
  unfold fast_path. intros H Hj. apply andb_true_iff in H as [_ H].
  apply Z.eqb_eq in H. rewrite <- H. apply maxZ_ge. unfold sum_axis0.
  apply in_map_iff. exists j. split; [reflexivity |]. apply in_seq. lia.
Qed.

Lemma where_pairs_fst_sorted (m : nat) (a : list (list Z)) :
  Forall (Forall bit) a -> fast_path m a = true ->
  StronglySorted lt (map fst (where_pairs a)).
Proof.
  intros Hb Hf. apply (where_pairs_sorted a 0%nat).
  pose proof (fast_path_rows _ _ Hf) as Hr.
  rewrite Forall_forall in *. intros row Hin. split; auto.
Qed.

Lemma where_pairs_snd_inj (m : nat) (a : list (list Z)) (p q : nat * nat) :
  Forall (Forall bit) a -> Forall (fun row => length row = m) a ->
  fast_path m a = true ->
  In p (where_pairs a) -> In q (where_pairs a) -> snd p = snd q -> p = q.
Proof.
  intros Hb Hlen Hf Hp Hq Hsnd.
  apply where_pairs_In in Hp as (rp & vp & Hrp & Hvp & Hnp).
  apply where_pairs_In in Hq as (rq & vq & Hrq & Hvq & Hnq).
  destruct p as [i1 j], q as [i2 j2]; simpl in *. subst j2.
  destruct (Nat.eq_dec i1 i2) as [-> | Hne]; [reflexivity | exfalso].
  rewrite Forall_forall in Hb, Hlen.
  pose proof (nth_error_In _ _ Hrp) as Hinp.
  pose proof (nth_error_In _ _ Hrq) as Hinq.
  assert (Hj : (j < m)%nat).
  { rewrite <- (Hlen _ Hinp). apply nth_error_Some. congruence. }
  assert (Hone : forall r v, In r a -> nth_error r j = Some v -> v <> 0%Z ->
                             nth j r 0%Z = 1%Z).
  { intros r v Hin Hv Hnz. rewrite (nth_error_nth _ _ _ Hv).
    pose proof (Hb _ Hin) as Hr. rewrite Forall_forall in Hr.
    destruct (Hr v (nth_error_In _ _ Hv)) as [-> | ->]; [contradiction | reflexivity]. }
  pose proof (fast_path_columns _ _ _ Hf Hj) as Hcol.
  assert (2 <= sumZ (map (fun row => nth j row 0%Z) a))%Z; [| lia].
  apply (sumZ_two_ones _ i1 i2).
  - apply Forall_map, Forall_forall. intros r Hin.
    pose proof (Hb _ Hin) as Hr. rewrite Forall_forall in Hr.
    destruct (nth_in_or_default j r 0%Z) as [Hn | ->]; [| lia].
    destruct (Hr _ Hn) as [-> | ->]; lia.
  - rewrite nth_error_map, Hrp. simpl. f_equal. eapply Hone; eauto.
  - rewrite nth_error_map, Hrq. simpl. f_equal. eapply Hone; eauto.
  - assumption.
Qed.

Lemma shortcut_valid (dets trks : list (BBox F)) (tau : F) :
  fast_path (length trks) (threshold_matrix (iou_batch dets trks) tau) = true ->
  valid_assignment (length dets) (length trks)
                   (where_pairs (threshold_matrix (iou_batch dets trks) tau)).
Proof.
  intros Hf.
  pose proof (threshold_rows_bits (iou_batch dets trks) tau) as Hb.
  pose proof (where_pairs_fst_sorted _ _ Hb Hf) as Hs.
  apply StronglySorted_lt_NoDup in Hs.
  repeat split.
  - apply Forall_forall. intros p Hp. apply where_threshold_In in Hp.
    unfold high in Hp.
    destruct (matrix_get (iou_batch dets trks) (fst p) (snd p)) as [v |] eqn:Ev;
      [| discriminate].
    now apply matrix_get_iou_batch_inv in Ev.
  - assumption.
  - apply NoDup_map_inj_on; [now apply NoDup_map_fst_NoDup |].
    intros p q Hp Hq. apply (where_pairs_snd_inj (length trks) _ p q Hb); auto.
    unfold threshold_matrix, iou_batch. apply Forall_map, Forall_map.
    apply Forall_forall. intros b _. now rewrite !length_map.
Qed.

End ShortcutValid.

(** ** The three outputs partition the indices *)

Lemma mem_nat_In (d : nat) (l : list nat) : mem_nat d l = true <-> In d l.
Proof.
  unfold mem_nat. rewrite existsb_exists. split.
  - intros (x & Hx & He). apply Nat.eqb_eq in He. now subst.
  - intros H. exists d. split; [assumption | apply Nat.eqb_refl].
Qed.

Lemma filter_split_Permutation {A : Type} (f : A -> bool) (l : list A) :
  Permutation (filter (fun x => negb (f x)) l ++ filter f l) l.
Proof.
  induction l as [| x l IH]; simpl; [constructor |].
  destruct (f x); simpl.
  - apply Permutation_sym, Permutation_cons_app, Permutation_sym, IH.
  - now constructor.
Qed.

Lemma complement_Permutation (n : nat) (ks : list nat) :
  NoDup ks -> Forall (fun k => (k < n)%nat) ks ->
  Permutation (ks ++ filter (fun d => negb (mem_nat d ks)) (seq 0 n)) (seq 0 n).
Proof.
  intros Hnd Hlt. apply NoDup_Permutation.
  - apply NoDup_app; repeat split.
    + assumption.
    + apply NoDup_filter, seq_NoDup.
    + intros x Hx Hf. apply filter_In in Hf as [_ Hf].
      apply negb_true_iff in Hf. apply mem_nat_In in Hx. congruence.
  - apply seq_NoDup.
  - intros x. rewrite in_app_iff, filter_In, in_seq, negb_true_iff.
    rewrite Forall_forall in Hlt. split.
    + intros [Hx | [Hx _]]; [specialize (Hlt _ Hx) |]; lia.
    + intros Hx. destruct (mem_nat x ks) eqn:E.
      * left. now apply mem_nat_In.
      * right. split; [lia | reflexivity].
Qed.

(** One side of the partition, for either column of the pairs. *)
Lemma side_partition {A : Type} (proj : A -> nat) (lo : A -> bool) (n : nat)
      (mi : list A) :
  NoDup (map proj mi) -> Forall (fun p => (proj p < n)%nat) mi ->
  Permutation
    (map proj (filter (fun p => negb (lo p)) mi)
       ++ (filter (fun d => negb (mem_nat d (map proj mi))) (seq 0 n)
             ++ map proj (filter lo mi)))
    (seq 0 n).
Proof.
  intros Hnd Hlt.
  eapply Permutation_trans;
    [| apply (complement_Permutation n (map proj mi) Hnd), Forall_map, Hlt].
  eapply Permutation_trans;
    [apply Permutation_app_head, Permutation_app_comm |].
  rewrite app_assoc, <- map_app.
  apply Permutation_app_tail, Permutation_map, filter_split_Permutation.
Qed.

Lemma NoDup_map_filter {A B : Type} (proj : A -> B) (f : A -> bool) (l : list A) :
  NoDup (map proj l) -> NoDup (map proj (filter f l)).
Proof.
  induction l as [| x l IH]; simpl; intros H; [constructor |].
  inversion H; subst. destruct (f x); simpl; auto.
  constructor; auto. intros Hin. apply H2.
  apply in_map_iff in Hin as (y & Hy & Hin). apply filter_In in Hin as [Hin _].
  rewrite <- Hy. now apply in_map.
Qed.

Section Partition.
Context {F : Type} {SF : Scalar F} {EX : External F}.

Lemma matching_step_valid (dets trks : list (BBox F)) (tau : F) :
  (unambiguous dets trks tau = false ->
   valid_assignment (length dets) (length trks)
                    (linear_sum_assignment (neg_matrix (iou_batch dets trks)))) ->
  valid_assignment (length dets) (length trks) (matching_step dets trks tau).
Proof.
  intros Hv. unfold matching_step, matched_indices_of.
  unfold unambiguous in Hv.
  destruct (0 <? Nat.min (length dets) (length trks))%nat.
  - destruct (fast_path _ _) eqn:Hf; [now apply shortcut_valid | now apply Hv].
  - repeat split; constructor.
Qed.

Lemma associate_partition (dets trks : list (BBox F)) (tau : F) :
  valid_assignment (length dets) (length trks) (matching_step dets trks tau) ->
  exists matches ud ut,
    associate_detections_to_trackers dets trks tau = Some (matches, ud, ut)
    /\ Permutation (map fst matches ++ ud) (seq 0 (length dets))
    /\ Permutation (map snd matches ++ ut) (seq 0 (length trks))
    /\ NoDup (map fst matches)
    /\ NoDup (map snd matches).
Proof.
  intros (Hr & Hf & Hs). rewrite associate_spec. cbv zeta.
  rewrite (in_matrix_valid dets trks _ Hr).
  do 3 eexists. split; [reflexivity |].
  rewrite Forall_forall in Hr. repeat split.
  - apply side_partition; [assumption |].
    apply Forall_forall. intros p Hp. now apply Hr.
  - apply side_partition; [assumption |].
    apply Forall_forall. intros p Hp. now apply Hr.
  - now apply NoDup_map_filter.
  - now apply NoDup_map_filter.
Qed.

End Partition.

(** C6: when the solver, where it is called, returns an assignment (pairs
    inside the matrix, no row and no column twice), the associator
    returns, and its outputs partition the indices: the detection indices
    of the matches together with [unmatched_detections] are a
    rearrangement of [0 .. N-1], the tracker indices of the matches
    together with [unmatched_trackers] a rearrangement of [0 .. M-1], and
    no match shares a detection or a tracker with another.  On the
    shortcut nothing is assumed. *)
Theorem outputs_partition_indices :
  forall (F : Type) (SF : Scalar F) (EX : External F)
         (dets trks : list (BBox F)) (tau : F),
    (unambiguous dets trks tau = false ->
     valid_assignment (length dets) (length trks)
                      (linear_sum_assignment (neg_matrix (iou_batch dets trks)))) ->
    exists matches ud ut,
      associate_detections_to_trackers dets trks tau = Some (matches, ud, ut)
      /\ Permutation (map fst matches ++ ud) (seq 0 (length dets))
      /\ Permutation (map snd matches ++ ut) (seq 0 (length trks))
      /\ NoDup (map fst matches)
      /\ NoDup (map snd matches).
Proof.
  intros F SF EX dets trks tau Hv.
  apply associate_partition, matching_step_valid, Hv.
Qed.

Lemma outputs_partition_indices_witness :
  exists matches ud ut,
    @associate_detections_to_trackers float Scalar_float Reference_External
      [mkBBox 0 0 10 10; mkBBox 5 0 15 10]%float
      [mkBBox 7 0 17 10; mkBBox 2 0 12 10]%float default_threshold
    = Some (matches, ud, ut)
    /\ Permutation (map fst matches ++ ud) (seq 0 2)
    /\ Permutation (map snd matches ++ ut) (seq 0 2)
    /\ NoDup (map fst matches)
    /\ NoDup (map snd matches).
Proof.
  apply (outputs_partition_indices float Scalar_float Reference_External
           [mkBBox 0 0 10 10; mkBBox 5 0 15 10]%float
           [mkBBox 7 0 17 10; mkBBox 2 0 12 10]%float default_threshold).
  intros _. vm_compute.
  repeat split; repeat constructor; simpl; intuition discriminate.
Defined.

(** ** The shortcut against the solver *)

Lemma StronglySorted_fst_filter (f : nat * nat -> bool) (l : list (nat * nat)) :
  StronglySorted lt (map fst l) -> StronglySorted lt (map fst (filter f l)).
Proof.
  induction l as [| p l IH]; simpl; intros H; [constructor |].
  apply StronglySorted_inv in H as [Hs Hp].
  destruct (f p); simpl; [| auto].
  constructor; [auto |].
  rewrite Forall_forall in *. intros x Hx. apply Hp.
  apply in_map_iff in Hx as (q & <- & Hq). apply filter_In in Hq as [Hq _].
  now apply in_map.
Qed.

(** Two lists of pairs with strictly increasing rows and the same members
    are the same list. *)
Lemma sorted_fst_ext (l1 : list (nat * nat)) :
  forall l2,
    StronglySorted lt (map fst l1) -> StronglySorted lt (map fst l2) ->
    (forall p, In p l1 <-> In p l2) -> l1 = l2.
Proof.
  induction l1 as [| p t1 IH]; intros [| q t2] H1 H2 Hm.
  - reflexivity.
  - destruct (proj2 (Hm q) (or_introl eq_refl)).
  - destruct (proj1 (Hm p) (or_introl eq_refl)).
  - simpl in H1, H2.
    apply StronglySorted_inv in H1 as [Hs1 Hp]. apply StronglySorted_inv in H2 as [Hs2 Hq].
    rewrite Forall_forall in Hp, Hq.
    assert (Hpq : p = q).
    { destruct (proj1 (Hm p) (or_introl eq_refl)) as [Heq | Hin2]; [now symmetry |].
      destruct (proj2 (Hm q) (or_introl eq_refl)) as [Heq | Hin1]; [assumption |].
      specialize (Hq _ (in_map fst _ _ Hin2)).
      specialize (Hp _ (in_map fst _ _ Hin1)). lia. }
    subst q. f_equal. apply IH; try assumption.
    intros x. split; intros Hx.
    + destruct (proj1 (Hm x) (or_intror Hx)) as [<- | Hin]; [| assumption].
      specialize (Hp _ (in_map fst _ _ Hx)). lia.
    + destruct (proj2 (Hm x) (or_intror Hx)) as [<- | Hin]; [| assumption].
      specialize (Hq _ (in_map fst _ _ Hx)). lia.
Qed.

Section ShortcutVersusSolver.
Context {F : Type} {SF : Scalar F} {EX : External F}.

Lemma associate_general_spec (dets trks : list (BBox F)) (tau : F) :
  (0 <? Nat.min (length dets) (length trks))%nat = true ->
  associate_general dets trks tau
  = associate_from (length dets) (length trks) (iou_batch dets trks) tau
                   (linear_sum_assignment (neg_matrix (iou_batch dets trks))).
Proof.
  intros Hmin. unfold associate_general. rewrite Hmin.
  destruct (Nat.eqb_spec (length trks) 0) as [Hm | Hm]; [| reflexivity].
  rewrite (min_zero_r _ _ Hm) in Hmin. discriminate.
Qed.

Lemma shortcut_matches_solver (dets trks : list (BBox F)) (tau : F) :
  let M := iou_batch dets trks in
  let A := linear_sum_assignment (neg_matrix M) in
  let W := where_pairs (threshold_matrix M tau) in
  fast_path (length trks) (threshold_matrix M tau) = true ->
  StronglySorted lt (map fst A) ->
  incl W A ->
  Forall (fun p => low M tau p = negb (high M tau p)) A ->
  filter (fun p => negb (low M tau p)) W = W
  /\ filter (fun p => negb (low M tau p)) A = W.
Proof.
  intros M A W Hf Hsorted Hincl Hcmp. rewrite Forall_forall in Hcmp. split.
  - apply filter_all. intros p Hp.
    rewrite (Hcmp p (Hincl p Hp)), negb_involutive.
    now apply where_threshold_In.
  - apply sorted_fst_ext.
    + now apply StronglySorted_fst_filter.
    + apply (where_pairs_fst_sorted (length trks)); [apply threshold_rows_bits | exact Hf].
    + intros p. rewrite filter_In. split.
      * intros [Hin Hk]. rewrite (Hcmp p Hin), negb_involutive in Hk.
        now apply where_threshold_In.
      * intros Hp. split; [now apply Hincl |].
        rewrite (Hcmp p (Hincl p Hp)), negb_involutive.
        now apply where_threshold_In.
Qed.

End ShortcutVersusSolver.

(** C5 (as the code has it): when the shortcut's condition holds, the
    solver's pairs form an assignment listed by increasing row that
    contains every pair of the shortcut, and no assigned pair has an IoU
    equal (or incomparable) to the threshold, then the associator returns
    the matches the solver-only associator returns, and the same unmatched
    detections and unmatched trackers up to their order. *)
Theorem shortcut_agrees_with_solver :
  forall (F : Type) (SF : Scalar F) (EX : External F)
         (dets trks : list (BBox F)) (tau : F),
    unambiguous dets trks tau = true ->
    valid_assignment (length dets) (length trks)
                     (linear_sum_assignment (neg_matrix (iou_batch dets trks))) ->
    StronglySorted lt
      (map fst (linear_sum_assignment (neg_matrix (iou_batch dets trks)))) ->
    incl (where_pairs (threshold_matrix (iou_batch dets trks) tau))
         (linear_sum_assignment (neg_matrix (iou_batch dets trks))) ->
    Forall (fun p => low (iou_batch dets trks) tau p
                     = negb (high (iou_batch dets trks) tau p))
           (linear_sum_assignment (neg_matrix (iou_batch dets trks))) ->
    exists matches ud ut ud' ut',
      associate_detections_to_trackers dets trks tau = Some (matches, ud, ut)
      /\ associate_general dets trks tau = Some (matches, ud', ut')
      /\ Permutation ud ud'
      /\ Permutation ut ut'.
Proof.
  intros F SF EX dets trks tau Hu Hv Hsorted Hincl Hcmp.
  pose proof Hu as Hu'. unfold unambiguous in Hu'.
  apply andb_true_iff in Hu' as [Hmin Hf].
  destruct (shortcut_matches_solver dets trks tau Hf Hsorted Hincl Hcmp) as [HW HA].
  pose proof (shortcut_valid dets trks tau Hf) as (HrW & HfW & HsW).
  destruct Hv as (HrA & HfA & HsA).
  rewrite associate_spec, (associate_general_spec dets trks tau Hmin),
    associate_from_spec. cbv zeta.
  rewrite (matching_step_shortcut dets trks tau Hu).
  rewrite (in_matrix_valid dets trks _ HrW), (in_matrix_valid dets trks _ HrA).
  rewrite HW, HA.
  do 5 eexists. split; [reflexivity |]. split; [reflexivity |].
  set (lo := low (iou_batch dets trks) tau).
  set (W := where_pairs (threshold_matrix (iou_batch dets trks) tau)) in *.
  set (A := linear_sum_assignment (neg_matrix (iou_batch dets trks))) in *.
  split.
  - apply (Permutation_app_inv_l (map fst W)).
    eapply Permutation_trans; [| apply Permutation_sym].
    + rewrite <- HW at 1. apply (side_partition fst lo (length dets) W HfW).
      eapply Forall_impl; [| exact HrW]. simpl; tauto.
    + rewrite <- HA at 1. apply (side_partition fst lo (length dets) A HfA).
      eapply Forall_impl; [| exact HrA]. simpl; tauto.
  - apply (Permutation_app_inv_l (map snd W)).
    eapply Permutation_trans; [| apply Permutation_sym].
    + rewrite <- HW at 1. apply (side_partition snd lo (length trks) W HsW).
      eapply Forall_impl; [| exact HrW]. simpl; tauto.
    + rewrite <- HA at 1. apply (side_partition snd lo (length trks) A HsA).
      eapply Forall_impl; [| exact HrA]. simpl; tauto.
Qed.

Lemma shortcut_agrees_with_solver_witness :
  exists matches ud ut ud' ut',
    @associate_detections_to_trackers float Scalar_float Reference_External
      [mkBBox 0 0 10 10; mkBBox 20 0 30 10]%float
      [mkBBox 21 0 31 10; mkBBox 1 0 11 10; mkBBox 50 0 60 10]%float default_threshold
    = Some (matches, ud, ut)
    /\ @associate_general float Scalar_float Reference_External
         [mkBBox 0 0 10 10; mkBBox 20 0 30 10]%float
         [mkBBox 21 0 31 10; mkBBox 1 0 11 10; mkBBox 50 0 60 10]%float default_threshold
       = Some (matches, ud', ut')
    /\ Permutation ud ud'
    /\ Permutation ut ut'.
Proof.
  apply (shortcut_agrees_with_solver float Scalar_float Reference_External
           [mkBBox 0 0 10 10; mkBBox 20 0 30 10]%float
           [mkBBox 21 0 31 10; mkBBox 1 0 11 10; mkBBox 50 0 60 10]%float
           default_threshold).
  - vm_compute. reflexivity.
  - vm_compute. repeat split; repeat constructor; simpl; intuition discriminate.
  - vm_compute. repeat constructor.
  - vm_compute. intros p [<- | [<- | []]]; simpl; auto.
  - vm_compute. repeat constructor.
Defined.

(** C5 as stated fails.  First input: the only pair above the threshold
    [0.5] is (0, 0), IoU 7/13, so the shortcut returns it; the assignment
    of largest total IoU is (0, 1), (1, 0), IoU 3/7 each (the last line
    of the first part compares the two totals), and the solver path ends
    with no match at all.  Second input: both paths return the
    match (1, 0), but list the unmatched detections in different orders,
    which decides the identities given to the new trackers. *)
Lemma shortcut_differs_counterexample :
  (unambiguous [mkBBox 0 0 10 1; mkBBox 7 0 17 1]%float
               [mkBBox 3 0 13 1; mkBBox (-4) 0 6 1]%float 0.5%float = true
   /\ @associate_detections_to_trackers float Scalar_float Reference_External
        [mkBBox 0 0 10 1; mkBBox 7 0 17 1]%float
        [mkBBox 3 0 13 1; mkBBox (-4) 0 6 1]%float 0.5%float
      = Some ([(0, 0)%nat], [1%nat], [1%nat])
   /\ @associate_general float Scalar_float Reference_External
        [mkBBox 0 0 10 1; mkBBox 7 0 17 1]%float
        [mkBBox 3 0 13 1; mkBBox (-4) 0 6 1]%float 0.5%float
      = Some ([], [0; 1]%nat, [1; 0]%nat)
   /\ PrimFloat.ltb
        (iou (mkBBox 0 0 10 1) (mkBBox 3 0 13 1)
         + iou (mkBBox 7 0 17 1) (mkBBox (-4) 0 6 1))%float
        (iou (mkBBox 0 0 10 1) (mkBBox (-4) 0 6 1)
         + iou (mkBBox 7 0 17 1) (mkBBox 3 0 13 1))%float
      = true)
  /\ (unambiguous [mkBBox 0 0 10 1; mkBBox 20 0 30 1; mkBBox 50 0 60 1]%float
                  [mkBBox 20 0 30 1; mkBBox 8 0 18 1]%float default_threshold = true
      /\ @associate_detections_to_trackers float Scalar_float Reference_External
           [mkBBox 0 0 10 1; mkBBox 20 0 30 1; mkBBox 50 0 60 1]%float
           [mkBBox 20 0 30 1; mkBBox 8 0 18 1]%float default_threshold
         = Some ([(1, 0)%nat], [0; 2]%nat, [1%nat])
      /\ @associate_general float Scalar_float Reference_External
           [mkBBox 0 0 10 1; mkBBox 20 0 30 1; mkBBox 50 0 60 1]%float
           [mkBBox 20 0 30 1; mkBBox 8 0 18 1]%float default_threshold
         = Some ([(1, 0)%nat], [2; 0]%nat, [1%nat])).
Proof.
  vm_compute. repeat split.
Qed.

(** ** Identities follow the storage order *)

Lemma StronglySorted_snoc {A : Type} (R : A -> A -> Prop) (l : list A) (x : A) :
  StronglySorted R l -> Forall (fun y => R y x) l -> StronglySorted R (l ++ [x]).
Proof.
  induction 1 as [| a l Hs IH Ha]; intros Hx; simpl.
  - repeat constructor.
  - inversion Hx; subst. constructor; [auto |].
    apply Forall_app; split; [assumption | now repeat constructor].
Qed.

Lemma StronglySorted_rev {A : Type} (R : A -> A -> Prop) (l : list A) :
  StronglySorted R l -> StronglySorted (fun a b => R b a) (rev l).
Proof.
  induction 1 as [| a l Hs IH Ha]; simpl; [constructor |].
  apply StronglySorted_snoc; [assumption |].
  apply Forall_rev. exact Ha.
Qed.

Lemma StronglySorted_remove_middle {A : Type} (R : A -> A -> Prop)
      (l1 : list A) (x : A) (l2 : list A) :
  StronglySorted R (l1 ++ x :: l2) -> StronglySorted R (l1 ++ l2).
Proof.
  induction l1 as [| a l1 IH]; simpl; intros H.
  - now apply StronglySorted_inv in H.
  - apply StronglySorted_inv in H as [Hs Ha]. constructor; [auto |].
    apply Forall_app in Ha as [H1 H2]. apply Forall_app; split; [assumption |].
    now inversion H2.
Qed.

Lemma StronglySorted_map_filter {A B : Type} (R : B -> B -> Prop) (f : A -> B)
      (g : A -> bool) (l : list A) :
  StronglySorted R (map f l) -> StronglySorted R (map f (filter g l)).
Proof.
  induction l as [| a l IH]; simpl; intros H; [constructor |].
  apply StronglySorted_inv in H as [Hs Ha].
  destruct (g a); simpl; [| auto].
  constructor; [auto |].
  rewrite Forall_forall in *. intros y Hy. apply Ha.
  apply in_map_iff in Hy as (b & <- & Hb). apply filter_In in Hb as [Hb _].
  now apply in_map.
Qed.

Section IdsOrdered.
Context {F : Type} {SF : Scalar F} {EX : External F}.

Lemma ids_ordered_pop_at (count : Z) (i : Z) (trks trks' : list (KalmanBoxTracker.t F)) :
  ids_ordered count trks -> pop_at i trks = Some trks' -> ids_ordered count trks'.
Proof.
  intros [Hs Hb] Hp. split; [| eapply pop_at_Forall; eauto].
  apply pop_at_Some in Hp as (l1 & x & l2 & -> & ->).
  rewrite map_app in *. simpl in Hs.
  eapply StronglySorted_remove_middle; eauto.
Qed.

Lemma ids_ordered_pop_all (count : Z) (to_del : list nat) :
  forall trks trks' : list (KalmanBoxTracker.t F),
    ids_ordered count trks -> SortTracker.pop_all to_del trks = Some trks' ->
    ids_ordered count trks'.
Proof.
  induction to_del as [| t rest IH]; intros trks trks' H Hp; simpl in Hp.
  - now inversion Hp; subst.
  - apply bind_Some in Hp as (l & Hl & Hp).
    eapply IH; [| exact Hp]. eapply ids_ordered_pop_at; eauto.
Qed.

Lemma ids_ordered_same_ids (count : Z) (trks trks' : list (KalmanBoxTracker.t F)) :
  map (@KalmanBoxTracker.id F) trks' = map (@KalmanBoxTracker.id F) trks -> ids_ordered count trks -> ids_ordered count trks'.
Proof.
  intros Hm [Hs Hb]. split; [now rewrite Hm |].
  apply Forall_forall. intros trk Hin.
  apply (in_map (@KalmanBoxTracker.id F)) in Hin. rewrite Hm in Hin.
  apply in_map_iff in Hin as (trk0 & <- & Hin0).
  rewrite Forall_forall in Hb. now apply Hb.
Qed.

Lemma update_matched_ids (matched : list (nat * nat)) (dets : list (Detection F)) :
  forall trks trks' : list (KalmanBoxTracker.t F),
    SortTracker.update_matched matched dets trks = Some trks' ->
    map (@KalmanBoxTracker.id F) trks' = map (@KalmanBoxTracker.id F) trks.
Proof.
  induction matched as [| m rest IH]; intros trks trks' Hu; simpl in Hu.
  - now inversion Hu; subst.
  - apply bind_Some in Hu as (d & Hd & Hu).
    apply bind_Some in Hu as (l & Hl & Hu).
    rewrite (IH _ _ Hu).
    apply modify_nth_Some in Hl as (l1 & x & l2 & -> & -> & _).
    now rewrite !map_app.
Qed.

Lemma ids_ordered_create_new (unmatched_dets : list nat) (dets : list (Detection F)) :
  forall count (trks : list (KalmanBoxTracker.t F)) count' trks',
    ids_ordered count trks ->
    SortTracker.create_new unmatched_dets dets count trks = Some (count', trks') ->
    ids_ordered count' trks'.
Proof.
  induction unmatched_dets as [| i rest IH]; intros count trks count' trks' H Hn;
    simpl in Hn.
  - now inversion Hn; subst.
  - apply bind_Some in Hn as (d & Hd & Hn).
    apply bind_Some in Hn as (c & Hcls & Hn).
    simpl in Hn. eapply IH; [| exact Hn].
    destruct H as [Hs Hb]. split.
    + rewrite map_app. simpl. apply StronglySorted_snoc; [assumption |].
      apply Forall_map. exact Hb.
    + apply Forall_app; split.
      * eapply Forall_impl; [| exact Hb]. simpl; intros; lia.
      * repeat constructor. simpl. lia.
Qed.

Lemma track_pool_ids_ordered (count : Z) (self : SortTracker.t F)
      (dets : list (Detection F)) (count' : Z) (pool : list (KalmanBoxTracker.t F)) :
  ids_ordered count (SortTracker.trackers self) ->
  SortTracker.track_pool count self dets = Some (count', pool) ->
  ids_ordered count' pool.
Proof.
  intros H Hp. unfold SortTracker.track_pool in Hp.
  pose proof (predict_loop_trackers (SortTracker.trackers self) 0) as Hpred.
  destruct (SortTracker.predict_loop 0 (SortTracker.trackers self))
    as [[trks tracks] to_del]; simpl in Hpred.
  apply bind_Some in Hp as (trks1 & Hpop & Hp).
  apply bind_Some in Hp as ([[matched unmatched_dets] ut] & Hassoc & Hp).
  apply bind_Some in Hp as (trks2 & Hupd & Hp).
  eapply ids_ordered_create_new; [| exact Hp].
  eapply ids_ordered_same_ids; [eapply update_matched_ids; exact Hupd |].
  eapply ids_ordered_pop_all; [| exact Hpop].
  eapply ids_ordered_same_ids; [| exact H].
  rewrite Hpred, map_map. reflexivity.
Qed.

Lemma ids_ordered_filter (count : Z) (g : KalmanBoxTracker.t F -> bool)
      (trks : list (KalmanBoxTracker.t F)) :
  ids_ordered count trks -> ids_ordered count (filter g trks).
Proof.
  intros [Hs Hb]. split; [now apply StronglySorted_map_filter |].
  rewrite Forall_forall in *. intros trk Hin. apply filter_In in Hin as [Hin _]. auto.
Qed.

Lemma update_ids_ordered (count : Z) (self : SortTracker.t F) (dets : list (Detection F))
      (count' : Z) (self' : SortTracker.t F) (ret : list (list F)) :
  ids_ordered count (SortTracker.trackers self) ->
  SortTracker.update count self dets = Some (count', self', ret) ->
  ids_ordered count' (SortTracker.trackers self').
Proof.
  intros H Hu. rewrite update_spec in Hu.
  apply bind_Some in Hu as ([c pool] & Hp & Hu). inversion Hu; subst; simpl.
  apply ids_ordered_filter. eapply track_pool_ids_ordered; eauto.
Qed.

End IdsOrdered.

(** ** An unchanging box *)

Section Steady.
Context {F : Type} {SF : Scalar F} {EX : External F}.

Lemma associate_single_match (d t : BBox F) (tau : F) :
  fltb tau (iou d t) = true -> fltb (iou d t) tau = false ->
  associate_detections_to_trackers [d] [t] tau = Some ([(0, 0)%nat], [], []).
Proof.
  intros Hhi Hlo.
  unfold associate_detections_to_trackers, matched_indices_of, associate_from; simpl.
  rewrite Hhi. simpl. unfold matrix_get; simpl. rewrite Hlo. reflexivity.
Qed.

Lemma state_obs_set_obs (x : StateVec F) (z : Obs F) : state_obs (set_obs x z) = z.
Proof. now destruct z. Qed.

Lemma row_masked_no_nan (pos : BBox F) :
  SortTracker.row_masked pos = false -> SortTracker.any_isnan pos = false.
Proof.
  unfold SortTracker.row_masked, SortTracker.any_isnan, SortTracker.invalid.
  intros H. repeat (apply orb_false_iff in H as [H ?]).
  repeat (match goal with
          | Hx : (_ || _) = false |- _ => apply orb_false_iff in Hx as [Hx ?]
          end).
  repeat (apply orb_false_iff; split); assumption.
Qed.

Lemma predict_resting (box : BBox F) (tau : F) (trk : KalmanBoxTracker.t F) :
  steady box tau -> resting box trk ->
  holds_still (KalmanBoxTracker.kf trk) (convert_bbox_to_z box) ->
  KalmanBoxTracker.predict trk
  = (KalmanBoxTracker.mk (kf_predict (KalmanBoxTracker.kf trk)) 1
       (KalmanBoxTracker.id trk) (KalmanBoxTracker.history trk ++ [box])
       (KalmanBoxTracker.hits trk) (KalmanBoxTracker.hit_streak trk)
       (KalmanBoxTracker.age trk + 1)
       (KalmanBoxTracker.conf trk) (KalmanBoxTracker.cls trk),
     box).
Proof.
  intros (Hrt & Harea & _) (Hobs & Hvs & Htsu) [Hp _].
  unfold KalmanBoxTracker.predict, KalmanBoxTracker.clamp_area_velocity.
  assert (Hss : ss (kf_x (KalmanBoxTracker.kf trk)) = os (convert_bbox_to_z box))
    by (rewrite <- Hobs; reflexivity).
  rewrite Hvs, Hss, Harea, Hp, Hobs, Hrt, Htsu. reflexivity.
Qed.

Lemma predict_loop_single (t : nat) (trk : KalmanBoxTracker.t F) :
  SortTracker.predict_loop t [trk]
  = ([fst (KalmanBoxTracker.predict trk)], [snd (KalmanBoxTracker.predict trk)],
     if SortTracker.any_isnan (snd (KalmanBoxTracker.predict trk)) then [t] else []).
Proof. reflexivity. Qed.

Lemma track_pool_resting (box : BBox F) (tau : F) (det : Detection F)
      (trk : KalmanBoxTracker.t F) (count max_age min_hits frame_count : Z) :
  steady box tau -> resting box trk ->
  holds_still (KalmanBoxTracker.kf trk) (convert_bbox_to_z box) ->
  det_box det = box ->
  SortTracker.track_pool count
    (SortTracker.mk max_age min_hits tau [trk] frame_count) [det]
  = Some (count,
          [KalmanBoxTracker.update (fst (KalmanBoxTracker.predict trk)) box]).
Proof.
  intros Hst Hre Hh Hbox.
  unfold SortTracker.track_pool. simpl SortTracker.trackers.
  rewrite predict_loop_single.
  rewrite (predict_resting box tau trk Hst Hre Hh).
  cbn [fst snd].
  destruct Hst as (Hrt & Harea & Hmask & Hhi & Hlo).
  rewrite (row_masked_no_nan box Hmask).
  unfold SortTracker.compress_rows. simpl filter. rewrite Hmask. simpl negb.
  simpl SortTracker.pop_all. simpl bind. simpl map. rewrite Hbox.
  simpl SortTracker.iou_threshold.
  rewrite (associate_single_match box box tau Hhi Hlo).
  simpl. rewrite Hbox. reflexivity.
Qed.

(** One frame in which the only tracker rests on the only detection. *)
Lemma update_resting (box : BBox F) (tau : F) (det : Detection F)
      (trk : KalmanBoxTracker.t F) (count max_age min_hits frame_count : Z) :
  steady box tau -> resting box trk ->
  holds_still (KalmanBoxTracker.kf trk) (convert_bbox_to_z box) ->
  det_box det = box -> (0 <= max_age)%Z ->
  let trk' := KalmanBoxTracker.update (fst (KalmanBoxTracker.predict trk)) box in
  SortTracker.update count
    (SortTracker.mk max_age min_hits tau [trk] frame_count) [det]
  = Some (count,
          SortTracker.mk max_age min_hits tau [trk'] (frame_count + 1),
          if ((KalmanBoxTracker.hit_streak trk + 1 >=? min_hits)%Z
              || (frame_count + 1 <=? min_hits)%Z)
          then [row_of box (KalmanBoxTracker.id trk) (KalmanBoxTracker.cls trk)
                       (KalmanBoxTracker.conf trk)]
          else [])
  /\ resting box trk'
  /\ KalmanBoxTracker.kf trk'
     = kf_update (kf_predict (KalmanBoxTracker.kf trk)) (convert_bbox_to_z box)
  /\ same_identity trk trk'
  /\ KalmanBoxTracker.hit_streak trk' = (KalmanBoxTracker.hit_streak trk + 1)%Z.
Proof.
  intros Hst Hre Hh Hbox Hage trk'.
  assert (Hkf : KalmanBoxTracker.kf trk'
                = kf_update (kf_predict (KalmanBoxTracker.kf trk))
                            (convert_bbox_to_z box)).
  { unfold trk'. now rewrite (predict_resting box tau trk Hst Hre Hh). }
  assert (Hx : kf_x (KalmanBoxTracker.kf trk') = kf_x (KalmanBoxTracker.kf trk)).
  { rewrite Hkf. apply Hh. }
  assert (Hrest : resting box trk').
  { destruct Hre as (Hobs & Hvs & Htsu). repeat split.
    - now rewrite Hx.
    - now rewrite Hx. }
  assert (Hstreak : KalmanBoxTracker.hit_streak trk'
                    = (KalmanBoxTracker.hit_streak trk + 1)%Z).
  { unfold trk'. now rewrite (predict_resting box tau trk Hst Hre Hh). }
  assert (Hid : same_identity trk trk').
  { eapply same_identity_trans;
      [apply same_identity_predict | apply same_identity_update]. }
  split; [| split; [exact Hrest | split; [exact Hkf | split; [exact Hid | exact Hstreak]]]].
  rewrite update_spec.
  rewrite (track_pool_resting box tau det trk count max_age min_hits frame_count
                              Hst Hre Hh Hbox).
  fold trk'. simpl bind. cbn [SortTracker.max_age SortTracker.min_hits
                              SortTracker.iou_threshold SortTracker.frame_count].
  f_equal. f_equal.
  - f_equal. simpl. unfold alive, SortTracker.dead.
    destruct Hrest as (_ & _ & ->).
    destruct (Z.gtb_spec 0 max_age); [lia | reflexivity].
  - simpl rev. simpl filter. unfold SortTracker.reported.
    rewrite Hstreak. destruct Hrest as (Hobs & _ & ->). simpl Z.ltb. simpl andb.
    destruct ((KalmanBoxTracker.hit_streak trk + 1 >=? min_hits)%Z
              || (frame_count + 1 <=? min_hits)%Z); [| reflexivity].
    simpl map. f_equal. unfold SortTracker.report_row, row_of, KalmanBoxTracker.get_state.
    rewrite Hobs. destruct Hst as (-> & _).
    destruct Hid as (<- & <- & <-). reflexivity.
Qed.

Lemma first_filter_resting (count : Z) (box : BBox F) (conf : F) (cls : Z) :
  resting box (fst (KalmanBoxTracker.init count box conf cls))
  /\ KalmanBoxTracker.kf (fst (KalmanBoxTracker.init count box conf cls))
     = first_filter box.
Proof.
  unfold resting, first_filter; simpl. repeat split.
Qed.

(** The first frame: no tracker yet, one detection. *)
Lemma update_first_frame (box : BBox F) (tau : F) (det : Detection F) (c : Z)
      (count max_age min_hits : Z) :
  steady box tau -> det_box det = box -> to_int (det_class det) = Some c ->
  (0 <= max_age)%Z ->
  SortTracker.update count (SortTracker.mk max_age min_hits tau [] 0) [det]
  = Some ((count + 1)%Z,
          SortTracker.mk max_age min_hits tau
            [fst (KalmanBoxTracker.init count box (det_score det) c)] 1,
          if ((0 >=? min_hits)%Z || (1 <=? min_hits)%Z)
          then [row_of box count c (det_score det)] else []).
Proof.
  intros Hst Hbox Hcls Hage.
  rewrite update_spec. unfold SortTracker.track_pool. simpl.
  rewrite Hcls. simpl. rewrite Hbox. f_equal. f_equal.
  - f_equal. unfold alive, SortTracker.dead. simpl.
    destruct (Z.gtb_spec 0 max_age); [lia | reflexivity].
  - unfold SortTracker.reported. simpl.
    destruct ((0 >=? min_hits)%Z || (1 <=? min_hits)%Z); [| reflexivity].
    simpl. f_equal. unfold SortTracker.report_row, row_of.
    destruct Hst as (Hrt & _).
    change (KalmanBoxTracker.get_state _)
      with (convert_x_to_bbox (convert_bbox_to_z box)).
    rewrite Hrt. reflexivity.
Qed.

(** Three frames of the same detection from a fresh orchestrator with
    [max_age = 1] and [min_hits = 3]: one tracker, reported every time. *)
Lemma steady_box_three_frames (box : BBox F) (tau : F) (det : Detection F)
      (c count : Z) :
  det_box det = box -> to_int (det_class det) = Some c ->
  steady box tau ->
  holds_still (first_filter box) (convert_bbox_to_z box) ->
  holds_still (second_filter box) (convert_bbox_to_z box) ->
  exists self3,
    (self0 <- SortTracker.init 1 3 tau ;;
     SortTracker.run count self0 [[det]; [det]; [det]])
    = Some ((count + 1)%Z, self3,
            [[row_of box count c (det_score det)];
             [row_of box count c (det_score det)];
             [row_of box count c (det_score det)]])
    /\ counters self3 = [(count, 0, 2)%Z].
Proof.
  intros Hbox Hcls Hst Hh1 Hh2.
  set (T0 := fst (KalmanBoxTracker.init count box (det_score det) c)).
  destruct (first_filter_resting count box (det_score det) c) as [Hr0 Hk0].
  fold T0 in Hr0, Hk0.
  assert (Hh0 : holds_still (KalmanBoxTracker.kf T0) (convert_bbox_to_z box))
    by now rewrite Hk0.
  destruct (update_resting box tau det T0 (count + 1) 1 3 1 Hst Hr0 Hh0 Hbox)
    as (Hu1 & Hr1 & Hk1 & Hid1 & Hs1); [lia |].
  set (T1 := KalmanBoxTracker.update (fst (KalmanBoxTracker.predict T0)) box) in *.
  assert (Hh1' : holds_still (KalmanBoxTracker.kf T1) (convert_bbox_to_z box)).
  { rewrite Hk1, Hk0. exact Hh2. }
  destruct (update_resting box tau det T1 (count + 1) 1 3 2 Hst Hr1 Hh1' Hbox)
    as (Hu2 & Hr2 & Hk2 & Hid2 & Hs2); [lia |].
  set (T2 := KalmanBoxTracker.update (fst (KalmanBoxTracker.predict T1)) box) in *.
  exists (SortTracker.mk 1 3 tau [T2] 3). split.
  - simpl SortTracker.init. simpl bind. unfold SortTracker.run.
    rewrite (update_first_frame box tau det c count 1 3 Hst Hbox Hcls) by lia.
    fold T0. simpl bind. rewrite Hu1. simpl bind. rewrite Hu2. simpl bind.
    reflexivity.
  - reflexivity.
Qed.

End Steady.

(** ** The reference filter over the reals *)

Section RealFilter.
Local Open Scope R_scope.

Lemma dot_zeros (row : list R) (n : nat) :
  dot row (repeat 0 n) = 0.
Proof.
  unfold dot. simpl of_Z.
  assert (H : forall acc, fold_left Rplus (map (fun '(a, b) => a * b)
                                                (combine row (repeat 0 n))) acc = acc).
  { revert n. induction row as [| a row IH]; intros n acc; [reflexivity |].
    destruct n as [| n]; simpl; [reflexivity |].
    rewrite IH. ring. }
  apply H.
Qed.

Lemma mat_vec_zeros (K : Matrix R) (n : nat) :
  mat_vec K (repeat 0 n) = map (fun _ => 0) K.
Proof.
  unfold mat_vec. apply map_ext. intros row. apply dot_zeros.
Qed.

Lemma add_zeros (x : StateVec R) (K : Matrix R) :
  length K = 7%nat ->
  list_state (vec_zip Rplus (state_list x) (map (fun _ => 0) K)) = x.
Proof.
  intros HK.
  destruct K as [| r0 [| r1 [| r2 [| r3 [| r4 [| r5 [| r6 [| r7 K]]]]]]]];
    simpl in HK; try discriminate.
  destruct x; unfold list_state, vec_zip, state_list; simpl.
  f_equal; ring.
Qed.

Lemma linear_predict_rest (k : KalmanFilter R) :
  kf_F k = KalmanBoxTracker.F_matrix ->
  svx (kf_x k) = 0 -> svy (kf_x k) = 0 -> svs (kf_x k) = 0 ->
  kf_x (linear_predict k) = kf_x k.
Proof.
  intros HF Hx Hy Hs. unfold linear_predict. rewrite HF.
  destruct (kf_x k) as [x y s r vx vy vs]; simpl in *. subst vx vy vs.
  unfold list_state, mat_vec, dot; simpl. f_equal; ring.
Qed.

Lemma linear_update_fixed (k : KalmanFilter R) (z : Obs R) :
  kf_H k = KalmanBoxTracker.H_matrix -> length (kf_P k) = 7%nat ->
  state_obs (kf_x k) = z ->
  kf_x (linear_update k z) = kf_x k.
Proof.
  intros HH HP Hz. unfold linear_update. rewrite HH.
  set (K := mat_mul 4 (mat_mul 4 (kf_P k) (transpose 7 KalmanBoxTracker.H_matrix)) _).
  assert (HK : length K = 7%nat).
  { unfold K, mat_mul. now rewrite !length_map. }
  assert (Hy : vec_zip fsub (obs_list z)
                       (mat_vec KalmanBoxTracker.H_matrix (state_list (kf_x k)))
               = repeat 0 4).
  { subst z. destruct (kf_x k) as [x y s r vx vy vs].
    unfold vec_zip, obs_list, mat_vec, dot; simpl.
    repeat (f_equal; try ring). }
  cbn [kf_x]. rewrite Hy, mat_vec_zeros.
  now apply add_zeros.
Qed.

Lemma linear_predict_P_rows (k : KalmanFilter R) :
  kf_F k = KalmanBoxTracker.F_matrix -> length (kf_Q k) = 7%nat ->
  length (kf_P (linear_predict k)) = 7%nat.
Proof.
  intros HF HQ. unfold linear_predict. cbn [kf_P]. rewrite HF.
  unfold mat_zip, mat_mul. rewrite length_map, length_combine, !length_map, HQ.
  reflexivity.
Qed.

(** The reference filter keeps a state at rest where it is. *)
Lemma reference_holds_still (k : KalmanFilter R) (z : Obs R) :
  kf_F k = KalmanBoxTracker.F_matrix -> kf_H k = KalmanBoxTracker.H_matrix ->
  length (kf_Q k) = 7%nat ->
  svx (kf_x k) = 0 -> svy (kf_x k) = 0 -> svs (kf_x k) = 0 ->
  state_obs (kf_x k) = z ->
  @holds_still R Reference_External k z.
Proof.
  intros HF HH HQ Hx Hy Hs Hz.
  pose proof (linear_predict_rest k HF Hx Hy Hs) as Hp.
  split; [exact Hp |].
  change (kf_x (linear_update (linear_predict k) z) = kf_x k).
  transitivity (kf_x (linear_predict k)); [| exact Hp].
  apply linear_update_fixed.
  - exact HH.
  - now apply linear_predict_P_rows.
  - now rewrite Hp.
Qed.

End RealFilter.

(** ** An unchanging box over the reals *)

Section RealSteady.
Local Open Scope R_scope.

Lemma real_maximum_self (a : R) : maximum a a = a.
Proof.
  unfold maximum. now destruct (fleb a a || fisnan a)%bool.
Qed.

Lemma real_minimum_self (a : R) : minimum a a = a.
Proof.
  unfold minimum. now destruct (fleb a a || fisnan a)%bool.
Qed.

Lemma real_maximum_pos (v : R) : 0 < v -> maximum (of_Z 0) v = v.
Proof.
  intros Hv. unfold maximum; simpl.
  destruct (Rle_dec v 0) as [H | H]; [lra | reflexivity].
Qed.

Lemma iou_self (b : BBox R) :
  bx1 b < bx2 b -> by1 b < by2 b -> iou b b = 1.
Proof.
  intros Hw Hh. unfold iou.
  rewrite !real_maximum_self, !real_minimum_self.
  rewrite !real_maximum_pos by (simpl; lra).
  simpl. field.
  assert (0 < (bx2 b - bx1 b) * (by2 b - by1 b))
    by (apply Rmult_lt_0_compat; lra).
  lra.
Qed.

Lemma real_roundtrip (b : BBox R) :
  bx1 b < bx2 b -> by1 b < by2 b ->
  convert_x_to_bbox (convert_bbox_to_z b) = b.
Proof.
  destruct b as [x1 y1 x2 y2]; simpl; intros Hw Hh.
  unfold convert_x_to_bbox, convert_bbox_to_z; simpl.
  replace ((x2 - x1) * (y2 - y1) * ((x2 - x1) / (y2 - y1)))
    with ((x2 - x1) * (x2 - x1)) by (field; lra).
  rewrite sqrt_square by lra.
  f_equal; field; lra.
Qed.

Lemma real_steady (b : BBox R) (tau : R) :
  bx1 b < bx2 b -> by1 b < by2 b -> tau < 1 -> steady b tau.
Proof.
  intros Hw Hh Htau. unfold steady. rewrite (iou_self b Hw Hh).
  repeat split.
  - now apply real_roundtrip.
  - simpl.
    assert (0 < (bx2 b - bx1 b) * (by2 b - by1 b))
      by (apply Rmult_lt_0_compat; lra).
    destruct (Rle_dec _ 0) as [H0 | H0]; [lra | reflexivity].
  - simpl. destruct (Rlt_dec tau 1); [reflexivity | lra].
  - simpl. destruct (Rlt_dec 1 tau); [lra | reflexivity].
Qed.

Lemma real_first_filter_still (b : BBox R) :
  @holds_still R Reference_External (first_filter b) (convert_bbox_to_z b).
Proof.
  apply reference_holds_still; try reflexivity.
Qed.

Lemma real_second_filter_still (b : BBox R) :
  @holds_still R Reference_External
               (@second_filter R Scalar_R Reference_External b) (convert_bbox_to_z b).
Proof.
  destruct (real_first_filter_still b) as [_ Hx].
  assert (Hx' : kf_x (@second_filter R Scalar_R Reference_External b)
                = kf_x (first_filter b)) by exact Hx.
  apply reference_holds_still; try reflexivity; rewrite Hx'; reflexivity.
Qed.

End RealSteady.

(** ** The first loop: predictions and NaN *)

Section PredictLoop.
Context {F : Type} {SF : Scalar F} {EX : External F}.

Lemma predict_loop_unfold (trks : list (KalmanBoxTracker.t F)) :
  forall t,
    SortTracker.predict_loop t trks
    = (map predicted trks, map predicted_box trks,
       map fst (filter (fun p => has_nan (snd p)) (enumerate_from t trks))).
Proof.
  induction trks as [| trk rest IH]; intros t; [reflexivity |].
  cbn [SortTracker.predict_loop]. rewrite (IH (S t)).
  rewrite (surjective_pairing (KalmanBoxTracker.predict trk)).
  fold (predicted trk) (predicted_box trk).
  cbn [enumerate_from filter snd map].
  change (SortTracker.any_isnan (predicted_box trk)) with (has_nan trk).
  now destruct (has_nan trk).
Qed.

Lemma pop_all_app (l1 l2 : list nat) :
  forall trks : list (KalmanBoxTracker.t F),
    SortTracker.pop_all (l1 ++ l2) trks
    = trks' <- SortTracker.pop_all l1 trks ;; SortTracker.pop_all l2 trks'.
Proof.
  induction l1 as [| t l1 IH]; intros trks; simpl; [reflexivity |].
  destruct (pop_at (Z.of_nat t) trks) as [trks' |]; simpl; [apply IH | reflexivity].
Qed.

(** Popping the indices of [to_del], largest first, removes exactly the
    trackers whose predicted box has a NaN. *)
Lemma pop_all_to_del (trks : list (KalmanBoxTracker.t F)) :
  forall (l0 : list (KalmanBoxTracker.t F)),
    SortTracker.pop_all
      (rev (map fst (filter (fun p => has_nan (snd p))
                            (enumerate_from (length l0) trks))))
      (l0 ++ map predicted trks)
    = Some (l0 ++ map predicted (filter (fun trk => negb (has_nan trk)) trks)).
Proof.
  induction trks as [| trk rest IH]; intros l0; [reflexivity |].
  cbn [enumerate_from filter snd map].
  specialize (IH (l0 ++ [predicted trk])).
  rewrite length_app, Nat.add_1_r, <- app_assoc in IH. simpl app in IH.
  destruct (has_nan trk); cbn [negb map fst rev].
  - rewrite pop_all_app, IH. simpl bind. cbn [SortTracker.pop_all].
    rewrite <- app_assoc. simpl app.
    rewrite pop_at_app_middle. reflexivity.
  - rewrite IH, <- app_assoc. reflexivity.
Qed.

(** The pool in terms of the trackers that survive the first loop and of
    the rows that survive [compress_rows]. *)
Lemma track_pool_unfold (count : Z) (self : SortTracker.t F) (dets : list (Detection F)) :
  SortTracker.track_pool count self dets
  = let live := map predicted
                    (filter (fun trk => negb (has_nan trk)) (SortTracker.trackers self)) in
    let tracks := SortTracker.compress_rows
                    (map predicted_box (SortTracker.trackers self)) in
    '(matched, unmatched_dets, _) <-
      associate_detections_to_trackers (map (@det_box F) dets) tracks
                                       (SortTracker.iou_threshold self) ;;
    trks <- SortTracker.update_matched matched dets live ;;
    SortTracker.create_new unmatched_dets dets count trks.
Proof.
  unfold SortTracker.track_pool. rewrite predict_loop_unfold.
  pose proof (pop_all_to_del (SortTracker.trackers self) []) as Hpop.
  simpl in Hpop. rewrite Hpop. reflexivity.
Qed.

(** [compress_rows] drops at least what the NaN test drops. *)
Lemma compress_rows_length (trks : list (KalmanBoxTracker.t F)) :
  (length (SortTracker.compress_rows (map predicted_box trks))
   <= length (filter (fun trk => negb (has_nan trk)) trks))%nat.
Proof.
  unfold SortTracker.compress_rows.
  induction trks as [| trk rest IH]; simpl; [lia |].
  unfold has_nan at 1.
  destruct (SortTracker.row_masked (predicted_box trk)) eqn:Hm; simpl.
  - destruct (SortTracker.any_isnan (predicted_box trk)); simpl; lia.
  - rewrite (row_masked_no_nan _ Hm). simpl. lia.
Qed.

(** When no predicted box is infinite without holding a NaN, the rows
    given to the associator are the boxes of the surviving trackers, in
    the same order. *)
Lemma compress_rows_aligned (trks : list (KalmanBoxTracker.t F)) :
  Forall (fun trk => SortTracker.row_masked (predicted_box trk) = has_nan trk) trks ->
  SortTracker.compress_rows (map predicted_box trks)
  = map predicted_box (filter (fun trk => negb (has_nan trk)) trks).
Proof.
  unfold SortTracker.compress_rows.
  induction 1 as [| trk rest Hm Hrest IH]; simpl; [reflexivity |].
  rewrite Hm. destruct (has_nan trk); simpl; now rewrite IH.
Qed.

End PredictLoop.

(** ** [update] returns *)

Section Returns.
Context {F : Type} {SF : Scalar F} {EX : External F}.

Lemma update_matched_total (dets : list (Detection F)) (matched : list (nat * nat)) :
  forall trks : list (KalmanBoxTracker.t F),
    Forall (fun m => (fst m < length dets)%nat /\ (snd m < length trks)%nat) matched ->
    exists trks', SortTracker.update_matched matched dets trks = Some trks'.
Proof.
  induction matched as [| m rest IH]; intros trks Hm; simpl; [now eexists |].
  inversion Hm as [| ? ? [Hd Ht] Hrest]; subst.
  destruct (nth_error dets (fst m)) as [d |] eqn:Ed;
    [| apply nth_error_None in Ed; lia].
  simpl.
  destruct (modify_nth_total
              (fun trk => KalmanBoxTracker.update trk (det_box d)) (snd m) trks Ht)
    as [trks1 H1].
  rewrite H1. simpl. apply IH.
  apply modify_nth_Some in H1 as (l1 & x & l2 & -> & -> & _).
  eapply Forall_impl; [| exact Hrest]. simpl. intros p [Hp1 Hp2].
  split; [assumption |]. rewrite length_app in *. simpl in *. lia.
Qed.

Lemma create_new_total (dets : list (Detection F)) (unmatched_dets : list nat) :
  forall count (trks : list (KalmanBoxTracker.t F)),
    Forall (fun i => (i < length dets)%nat) unmatched_dets ->
    Forall (fun d => to_int (det_class d) <> None) dets ->
    exists r, SortTracker.create_new unmatched_dets dets count trks = Some r.
Proof.
  induction unmatched_dets as [| i rest IH]; intros count trks Hi Hc; simpl;
    [now eexists |].
  inversion Hi; subst.
  destruct (nth_error dets i) as [d |] eqn:Ed;
    [| apply nth_error_None in Ed; lia].
  simpl. rewrite Forall_forall in Hc.
  pose proof (Hc d (nth_error_In _ _ Ed)) as Hd.
  destruct (to_int (det_class d)) as [c |]; [| contradiction].
  simpl. apply IH; [assumption | now apply Forall_forall].
Qed.

(** [update] raises nothing when the solver's pairs are an assignment for
    the matrix it was given and every detection's class converts to an
    integer. *)
Lemma update_total (count : Z) (self : SortTracker.t F) (dets : list (Detection F)) :
  let tracks := SortTracker.compress_rows
                  (map predicted_box (SortTracker.trackers self)) in
  valid_assignment (length dets) (length tracks)
    (linear_sum_assignment (neg_matrix (iou_batch (map (@det_box F) dets) tracks))) ->
  Forall (fun d => to_int (det_class d) <> None) dets ->
  exists count' pool,
    SortTracker.track_pool count self dets = Some (count', pool).
Proof.
  intros tracks Hv Hc. rewrite track_pool_unfold. cbv zeta. fold tracks.
  rewrite <- (length_map (@det_box F) dets) in Hv.
  destruct (associate_partition (map (@det_box F) dets) tracks
              (SortTracker.iou_threshold self)
              (matching_step_valid _ _ _ (fun _ => Hv)))
    as (matches & ud & ut & Ha & Hpd & Hpt & _).
  rewrite Ha. simpl bind. rewrite length_map in Hpd.
  assert (Hm : Forall (fun m => (fst m < length dets)%nat
                                /\ (snd m < length
                                      (map predicted
                                           (filter (fun trk => negb (has_nan trk))
                                                   (SortTracker.trackers self))))%nat)
                      matches).
  { apply Forall_forall. intros m Hin. split.
    - assert (Hi : In (fst m) (seq 0 (length dets))).
      { eapply Permutation_in; [exact Hpd |].
        apply in_or_app. left. now apply in_map. }
      apply in_seq in Hi. lia.
    - assert (Hi : In (snd m) (seq 0 (length tracks))).
      { eapply Permutation_in; [exact Hpt |].
        apply in_or_app. left. now apply in_map. }
      apply in_seq in Hi. rewrite length_map.
      pose proof (compress_rows_length (SortTracker.trackers self)).
      fold tracks in H. lia. }
  destruct (update_matched_total dets matches _ Hm) as [trks1 H1].
  rewrite H1. simpl bind.
  destruct (create_new_total dets ud count trks1) as [[count' pool] Hn].
  - apply Forall_forall. intros i Hin.
    assert (Hi : In i (seq 0 (length dets))).
    { eapply Permutation_in; [exact Hpd |]. apply in_or_app. now right. }
    apply in_seq in Hi. lia.
  - exact Hc.
  - now exists count', pool.
Qed.

End Returns.

(** ** The report *)

(** C1: [update] returns whenever the solver's pairs are an assignment and
    the detections' classes convert to integers; in every frame, the rows
    it returns are those of the trackers of the live pool that satisfy [time_since_update < 1] and
    ([hit_streak >= min_hits] or [frame_count <= min_hits]), the frame
    count being the incremented one; a tracker's row is
    [[x1, y1, x2, y2, id + 1, class, confidence]], the box being its
    current state.  With [max_age = 1] and [min_hits = 3], a box that
    keeps the filter still and matches itself (see [steady],
    [holds_still]) yields one tracker, reported on frames 1, 2 and 3; over
    the reals with the reference filter this holds for every box of
    positive width and height and every threshold below 1. *)
Theorem report_rule :
  (forall (F : Type) (SF : Scalar F) (EX : External F),
      (forall count self dets,
          valid_assignment
            (length dets)
            (length (SortTracker.compress_rows
                       (map predicted_box (SortTracker.trackers self))))
            (linear_sum_assignment
               (neg_matrix
                  (iou_batch (map (@det_box F) dets)
                             (SortTracker.compress_rows
                                (map predicted_box (SortTracker.trackers self)))))) ->
          Forall (fun d => to_int (det_class d) <> None) dets ->
          exists count' pool,
            SortTracker.track_pool count self dets = Some (count', pool))
      /\ (forall count self dets count' pool,
          SortTracker.track_pool count self dets = Some (count', pool) ->
          exists self' shown,
            SortTracker.update count self dets
            = Some (count', self',
                    map (fun trk =>
                           row_of (KalmanBoxTracker.get_state trk)
                                  (KalmanBoxTracker.id trk)
                                  (KalmanBoxTracker.cls trk)
                                  (KalmanBoxTracker.conf trk))
                        shown)
            /\ SortTracker.frame_count self' = (SortTracker.frame_count self + 1)%Z
            /\ SortTracker.min_hits self' = SortTracker.min_hits self
            /\ forall trk,
                In trk shown
                <-> In trk pool
                    /\ (KalmanBoxTracker.time_since_update trk < 1)%Z
                    /\ ((KalmanBoxTracker.hit_streak trk >= SortTracker.min_hits self)%Z
                        \/ (SortTracker.frame_count self' <= SortTracker.min_hits self)%Z))
      /\ (forall box tau det c count,
             det_box det = box -> to_int (det_class det) = Some c ->
             steady box tau ->
             holds_still (first_filter box) (convert_bbox_to_z box) ->
             holds_still (second_filter box) (convert_bbox_to_z box) ->
             exists self3,
               (self0 <- SortTracker.init 1 3 tau ;;
                SortTracker.run count self0 [[det]; [det]; [det]])
               = Some ((count + 1)%Z, self3,
                       [[row_of box count c (det_score det)];
                        [row_of box count c (det_score det)];
                        [row_of box count c (det_score det)]])
               /\ counters self3 = [(count, 0, 2)%Z]))
  /\ (forall (box : BBox R) (tau : R) (det : Detection R) (count : Z),
         (bx1 box < bx2 box)%R -> (by1 box < by2 box)%R -> (tau < 1)%R ->
         det_box det = box ->
         exists self3,
           (self0 <- SortTracker.init 1 3 tau ;;
            @SortTracker.run R Scalar_R Reference_External count self0
                             [[det]; [det]; [det]])
           = Some ((count + 1)%Z, self3,
                   [[row_of box count (Rtrunc (det_class det)) (det_score det)];
                    [row_of box count (Rtrunc (det_class det)) (det_score det)];
                    [row_of box count (Rtrunc (det_class det)) (det_score det)]])
           /\ counters self3 = [(count, 0, 2)%Z]).
Proof.
  split; [intros F SF EX; split; [| split] |].
  - intros count self dets Hv Hc. now apply update_total.
  - intros count self dets count' pool Hp.
    rewrite update_spec, Hp. simpl bind.
    eexists. exists (filter (SortTracker.reported (SortTracker.min_hits self)
                                                   (SortTracker.frame_count self + 1))
                            (rev pool)).
    split; [reflexivity |]. split; [reflexivity |]. split; [reflexivity |].
    intros trk. rewrite filter_In, <- in_rev. unfold SortTracker.reported. simpl.
    rewrite andb_true_iff, orb_true_iff, Z.ltb_lt, Z.geb_le, Z.leb_le.
    intuition lia.
  - intros box tau det c count Hbox Hcls Hst Hh1 Hh2.
    now apply steady_box_three_frames.
  - intros box tau det count Hw Hh Htau Hbox.
    apply steady_box_three_frames; try assumption.
    + reflexivity.
    + now apply real_steady.
    + apply real_first_filter_still.
    + apply real_second_filter_still.
Qed.

Lemma report_rule_witness :
  exists self3,
    (self0 <- SortTracker.init 1 3 default_threshold ;;
     run_float self0 [[detection 10 20 30 60 0.5 7];
                      [detection 10 20 30 60 0.5 7];
                      [detection 10 20 30 60 0.5 7]])
    = Some (1%Z, self3,
            [[row_of (mkBBox 10 20 30 60)%float 0 7 0.5%float];
             [row_of (mkBBox 10 20 30 60)%float 0 7 0.5%float];
             [row_of (mkBBox 10 20 30 60)%float 0 7 0.5%float]])
    /\ counters self3 = [(0, 0, 2)%Z].
Proof.
  apply (proj2 (proj2 (proj1 report_rule float Scalar_float Reference_External))
           (mkBBox 10 20 30 60)%float default_threshold
           (detection 10 20 30 60 0.5 7) 7%Z 0%Z).
  - reflexivity.
  - vm_compute. reflexivity.
  - vm_compute. repeat split.
  - vm_compute. repeat split.
  - vm_compute. repeat split.
Defined.

(** ** The order of the report *)

(** C9: the returned rows are the rows of the reported trackers in the
    reverse of the order of the live pool.  Identities are handed out in
    increasing order and the pool stores its trackers by increasing
    identity (a property every frame keeps, and that holds with no
    tracker), so the identities of the returned rows strictly decrease:
    the most recently created reported tracker comes first. *)
Theorem report_in_reverse_storage_order :
  forall (F : Type) (SF : Scalar F) (EX : External F)
         (count : Z) (self : SortTracker.t F) (dets : list (Detection F)),
    SortTracker.update count self dets
    = ('(count', pool) <- SortTracker.track_pool count self dets ;;
       Some (count',
             SortTracker.mk (SortTracker.max_age self) (SortTracker.min_hits self)
               (SortTracker.iou_threshold self)
               (filter (alive (SortTracker.max_age self)) pool)
               (SortTracker.frame_count self + 1),
             rev (map SortTracker.report_row
                      (filter (SortTracker.reported (SortTracker.min_hits self)
                                                    (SortTracker.frame_count self + 1))
                              pool))))
    /\ (forall count' pool,
           SortTracker.track_pool count self dets = Some (count', pool) ->
           ids_ordered count (SortTracker.trackers self) ->
           ids_ordered count' pool
           /\ ids_ordered count' (filter (alive (SortTracker.max_age self)) pool)
           /\ StronglySorted (fun a b => (b < a)%Z)
                (map (@KalmanBoxTracker.id F)
                     (rev (filter (SortTracker.reported
                                     (SortTracker.min_hits self)
                                     (SortTracker.frame_count self + 1))
                                  pool))))
    /\ ids_ordered count (@nil (KalmanBoxTracker.t F)).
Proof.
  intros F SF EX count self dets. split; [| split].
  - rewrite update_spec.
    destruct (SortTracker.track_pool count self dets) as [[count' pool] |];
      [| reflexivity].
    simpl bind. now rewrite <- map_rev, filter_rev.
  - intros count' pool Hp Hids.
    pose proof (track_pool_ids_ordered count self dets count' pool Hids Hp) as Hpool.
    split; [assumption |]. split; [now apply ids_ordered_filter |].
    rewrite map_rev.
    apply (StronglySorted_rev Z.lt).
    apply StronglySorted_map_filter. apply Hpool.
  - split; constructor.
Qed.

(** Two detections on the first frame: the second one's tracker (reported
    identity 2) comes first in the rows, the first one's (reported
    identity 1) last. *)
Example report_newest_first :
  match run_float default_tracker
          [ [detection 0 0 10 10 0.5 1; detection 50 50 60 60 0.25 2] ] with
  | Some (_, _, [ret]) => map (fun row => nth 4 row 0%float) ret = [2; 1]%float
  | _ => False
  end.
Proof.
  vm_compute. reflexivity.
Qed.


(** ** Predictions that are not finite *)

(** C4 at a failing input.  The tracker created from [wide_detection]
    predicts the box [[-inf, 0.5, inf, 0.5]]: the width is the square
    root of an overflowed product.  The box holds no NaN, so the tracker
    is not put in [to_del], but [masked_invalid] masks its row, so
    [compress_rows] drops it from the associator's input.  After frame 2
    the tracker is still live (identity 0, [time_since_update = 1]) next
    to the tracker created for [other_detection] (identity 1).  On frame
    3 the associator matches [other_detection] with row 0 of its input,
    which is tracker 1's box, and [update] applies the match to
    [self.trackers[0]], which is tracker 0: tracker 0 ends the frame with
    [time_since_update = 0] and [hit_streak = 1], tracker 1 unmatched. *)
Theorem infinite_prediction_survives :
  match run_float default_tracker [[wide_detection]] with
  | Some (_, self, _) =>
      map (@predicted_box float Scalar_float Reference_External)
          (SortTracker.trackers self)
      = [mkBBox neg_infinity 0.5 infinity 0.5]%float
      /\ map (@has_nan float Scalar_float Reference_External)
             (SortTracker.trackers self) = [false]
      /\ SortTracker.compress_rows
           (map (@predicted_box float Scalar_float Reference_External)
                (SortTracker.trackers self)) = []
  | None => False
  end
  /\ match run_float default_tracker [[wide_detection]; [other_detection]] with
     | Some (_, self, _) => counters self = [(0, 1, 0); (1, 0, 0)]%Z
     | None => False
     end
  /\ match run_float default_tracker
             [[wide_detection]; [other_detection]; [other_detection]] with
     | Some (_, self, _) => counters self = [(0, 0, 1); (1, 1, 0)]%Z
     | None => False
     end.
Proof.
  vm_compute. repeat split.
Qed.

(** * Further properties *)

(** ** IoU over the reals *)

Section RealIoU.
Local Open Scope R_scope.

Lemma real_maximum_Rmax (a b : R) : maximum a b = Rmax a b.
Proof.
  unfold maximum, Rmax; simpl.
  destruct (Rle_dec b a), (Rle_dec a b); simpl; lra.
Qed.

Lemma real_minimum_Rmin (a b : R) : minimum a b = Rmin a b.
Proof.
  unfold minimum, Rmin; simpl.
  destruct (Rle_dec a b); reflexivity.
Qed.

(** The shape of one entry of [iou_batch] over the reals. *)
Lemma real_iou_unfold (a b : BBox R) :
  iou a b
  = let w := Rmax 0 (Rmin (bx2 a) (bx2 b) - Rmax (bx1 a) (bx1 b)) in
    let h := Rmax 0 (Rmin (by2 a) (by2 b) - Rmax (by1 a) (by1 b)) in
    w * h / ((bx2 a - bx1 a) * (by2 a - by1 a)
             + (bx2 b - bx1 b) * (by2 b - by1 b) - w * h).
Proof.
  unfold iou. rewrite !real_maximum_Rmax, !real_minimum_Rmin. reflexivity.
Qed.

(** The overlap of two intervals is no longer than either. *)
Lemma overlap_bounds (a1 a2 b1 b2 : R) :
  a1 < a2 -> b1 < b2 ->
  0 <= Rmax 0 (Rmin a2 b2 - Rmax a1 b1) <= a2 - a1
  /\ Rmax 0 (Rmin a2 b2 - Rmax a1 b1) <= b2 - b1.
Proof.
  intros Ha Hb. unfold Rmax, Rmin.
  repeat (match goal with |- context [Rle_dec ?x ?y] => destruct (Rle_dec x y) end);
    lra.
Qed.

Lemma overlap_disjoint (a1 a2 b1 b2 : R) :
  a2 <= b1 \/ b2 <= a1 -> a1 <= a2 -> b1 <= b2 ->
  Rmax 0 (Rmin a2 b2 - Rmax a1 b1) = 0.
Proof.
  intros Hd Ha Hb. unfold Rmax, Rmin.
  repeat (match goal with |- context [Rle_dec ?x ?y] => destruct (Rle_dec x y) end);
    lra.
Qed.

Lemma real_iou_comm (a b : BBox R) : iou a b = iou b a.
Proof.
  rewrite !real_iou_unfold. cbv zeta.
  rewrite (Rmin_comm (bx2 b)), (Rmax_comm (bx1 b)),
          (Rmin_comm (by2 b)), (Rmax_comm (by1 b)).
  f_equal. ring.
Qed.

Lemma real_iou_range (a b : BBox R) :
  proper_box a -> proper_box b -> 0 <= iou a b <= 1.
Proof.
  intros [Hwa Hha] [Hwb Hhb]. rewrite real_iou_unfold. cbv zeta.
  destruct (overlap_bounds (bx1 a) (bx2 a) (bx1 b) (bx2 b) Hwa Hwb) as [[Hw0 Hwa'] Hwb'].
  destruct (overlap_bounds (by1 a) (by2 a) (by1 b) (by2 b) Hha Hhb) as [[Hh0 Hha'] Hhb'].
  set (w := Rmax 0 (Rmin (bx2 a) (bx2 b) - Rmax (bx1 a) (bx1 b))) in *.
  set (h := Rmax 0 (Rmin (by2 a) (by2 b) - Rmax (by1 a) (by1 b))) in *.
  assert (Hwh0 : 0 <= w * h) by (apply Rmult_le_pos; assumption).
  assert (HA : w * h <= (bx2 a - bx1 a) * (by2 a - by1 a))
    by (apply Rmult_le_compat; assumption).
  assert (HB : w * h <= (bx2 b - bx1 b) * (by2 b - by1 b))
    by (apply Rmult_le_compat; assumption).
  assert (HAp : 0 < (bx2 a - bx1 a) * (by2 a - by1 a))
    by (apply Rmult_lt_0_compat; lra).
  set (den := (bx2 a - bx1 a) * (by2 a - by1 a)
              + (bx2 b - bx1 b) * (by2 b - by1 b) - w * h).
  assert (Hden : 0 < den) by (unfold den; lra).
  assert (Hle : w * h <= den) by (unfold den; lra).
  split.
  - unfold Rdiv. apply Rmult_le_pos; [assumption |].
    left. now apply Rinv_0_lt_compat.
  - apply (Rmult_le_reg_r den); [assumption |].
    unfold Rdiv. rewrite Rmult_assoc, Rinv_l by lra. lra.
Qed.

Lemma real_iou_disjoint (a b : BBox R) :
  bx1 a <= bx2 a -> by1 a <= by2 a -> bx1 b <= bx2 b -> by1 b <= by2 b ->
  disjoint_boxes a b -> iou a b = 0.
Proof.
  intros Hwa Hha Hwb Hhb Hd. rewrite real_iou_unfold. cbv zeta.
  assert (Hz : Rmax 0 (Rmin (bx2 a) (bx2 b) - Rmax (bx1 a) (bx1 b))
               * Rmax 0 (Rmin (by2 a) (by2 b) - Rmax (by1 a) (by1 b)) = 0).
  { destruct Hd as [H | [H | [H | H]]].
    - rewrite (overlap_disjoint (bx1 a) (bx2 a) (bx1 b) (bx2 b)) by auto. ring.
    - rewrite (overlap_disjoint (bx1 a) (bx2 a) (bx1 b) (bx2 b)) by auto. ring.
    - rewrite (overlap_disjoint (by1 a) (by2 a) (by1 b) (by2 b)) by auto. ring.
    - rewrite (overlap_disjoint (by1 a) (by2 a) (by1 b) (by2 b)) by auto. ring. }
  rewrite Hz. unfold Rdiv. ring.
Qed.

End RealIoU.

Lemma matrix_get_iou_batch_entry {F : Type} {SF : Scalar F}
      (dets trks : list (BBox F)) (d t : nat) :
  matrix_get (iou_batch dets trks) d t
  = bd <- nth_error dets d ;; bt <- nth_error trks t ;; Some (iou bd bt).
Proof.
  unfold matrix_get, iou_batch. rewrite nth_error_map.
  destruct (nth_error dets d) as [bd |]; simpl; [| reflexivity].
  rewrite nth_error_map. now destruct (nth_error trks t).
Qed.

(** X1: over the reals, every entry of the IoU matrix of boxes of
    positive width and height lies between 0 and 1. *)
Theorem iou_batch_entries_bounded :
  forall (dets trks : list (BBox R)) (d t : nat) (v : R),
    Forall proper_box dets -> Forall proper_box trks ->
    matrix_get (iou_batch dets trks) d t = Some v ->
    (0 <= v <= 1)%R.
Proof.
  intros dets trks d t v Hd Ht Hv.
  rewrite matrix_get_iou_batch_entry in Hv.
  apply bind_Some in Hv as (bd & Hbd & Hv).
  apply bind_Some in Hv as (bt & Hbt & Hv).
  inversion Hv; subst v.
  rewrite Forall_forall in Hd, Ht.
  apply real_iou_range; [apply Hd | apply Ht]; eapply nth_error_In; eassumption.
Qed.

Lemma iou_batch_entries_bounded_witness :
  (0 <= 1 / 3 <= 1)%R.
Proof.
  apply (iou_batch_entries_bounded
           [mkBBox 0%R 0%R 2%R 1%R] [mkBBox 1%R 0%R 3%R 1%R] 0 0 (1 / 3)%R).
  - repeat constructor; simpl; lra.
  - repeat constructor; simpl; lra.
  - rewrite matrix_get_iou_batch_entry. cbn [nth_error bind]. f_equal.
    rewrite real_iou_unfold. cbn [bx1 by1 bx2 by2]. cbv zeta.
    rewrite (Rmin_left 2 3), (Rmax_right 0 1), (Rmin_left 1 1), (Rmax_left 0 0) by lra.
    rewrite (Rmax_right 0 (2 - 1)), (Rmax_right 0 (1 - 0)) by lra.
    field.
Defined.

(** X2: over the reals, IoU does not depend on which box comes first: the
    matrix of the boxes swapped is the transpose. *)
Theorem iou_batch_symmetric :
  forall (dets trks : list (BBox R)) (d t : nat),
    matrix_get (iou_batch dets trks) d t = matrix_get (iou_batch trks dets) t d.
Proof.
  intros dets trks d t. rewrite !matrix_get_iou_batch_entry.
  destruct (nth_error dets d) as [bd |], (nth_error trks t) as [bt |]; cbn [bind];
    try reflexivity.
  now rewrite real_iou_comm.
Qed.

(** X3: over the reals, a box of positive width and height has IoU 1 with
    itself. *)
Theorem iou_identical_boxes :
  forall b : BBox R, proper_box b -> iou b b = 1%R.
Proof.
  intros b [Hw Hh]. now apply iou_self.
Qed.

Lemma iou_identical_boxes_witness :
  iou (mkBBox 0%R 0%R 2%R 3%R) (mkBBox 0%R 0%R 2%R 3%R) = 1%R.
Proof.
  apply (iou_identical_boxes (mkBBox 0%R 0%R 2%R 3%R)).
  split; simpl; lra.
Defined.

(** X4: over the reals, two boxes that do not overlap (one ends where or
    before the other starts, on either axis), neither of them inverted
    and at least one of them of positive width and height, have IoU 0;
    the areas of the two boxes add up to a positive number, so the
    quotient is that of 0 by a positive number. *)
Theorem iou_disjoint_boxes :
  forall a b : BBox R,
    (bx1 a <= bx2 a)%R -> (by1 a <= by2 a)%R ->
    (bx1 b <= bx2 b)%R -> (by1 b <= by2 b)%R ->
    proper_box a \/ proper_box b ->
    disjoint_boxes a b ->
    iou a b = 0%R
    /\ (0 < (bx2 a - bx1 a) * (by2 a - by1 a) + (bx2 b - bx1 b) * (by2 b - by1 b))%R.
Proof.
  intros a b Hwa Hha Hwb Hhb Hp Hd. split; [now apply real_iou_disjoint |].
  assert (HA : (0 <= (bx2 a - bx1 a) * (by2 a - by1 a))%R)
    by (apply Rmult_le_pos; lra).
  assert (HB : (0 <= (bx2 b - bx1 b) * (by2 b - by1 b))%R)
    by (apply Rmult_le_pos; lra).
  destruct Hp as [[Hw Hh] | [Hw Hh]].
  - assert ((0 < (bx2 a - bx1 a) * (by2 a - by1 a))%R)
      by (apply Rmult_lt_0_compat; lra).
    lra.
  - assert ((0 < (bx2 b - bx1 b) * (by2 b - by1 b))%R)
      by (apply Rmult_lt_0_compat; lra).
    lra.
Qed.

Lemma iou_disjoint_boxes_witness :
  iou (mkBBox 0%R 0%R 2%R 3%R) (mkBBox 2%R 1%R 5%R 4%R) = 0%R
  /\ (0 < (2 - 0) * (3 - 0) + (5 - 2) * (4 - 1))%R.
Proof.
  apply (iou_disjoint_boxes (mkBBox 0%R 0%R 2%R 3%R) (mkBBox 2%R 1%R 5%R 4%R));
    simpl; try lra.
  - left. split; simpl; lra.
  - left. simpl. lra.
Defined.

(** ** Centre form back to corner form and back *)

(** X5: over the reals, a centre-form observation with positive area and
    aspect ratio survives the trip to corner form and back unchanged. *)
Theorem convert_roundtrip_centre :
  forall z : Obs R,
    (0 < os z)%R -> (0 < or_ z)%R ->
    convert_bbox_to_z (convert_x_to_bbox z) = z.
Proof.
  intros [x y s r]; simpl; intros Hs Hr.
  unfold convert_bbox_to_z, convert_x_to_bbox; simpl.
  assert (Hp : (0 < s * r)%R) by (apply Rmult_lt_0_compat; assumption).
  pose proof (sqrt_lt_R0 (s * r) Hp) as Hw.
  pose proof (sqrt_sqrt (s * r) (Rlt_le _ _ Hp)) as Hsq.
  set (w := R_sqrt.sqrt (s * r)) in *.
  f_equal.
  - field.
  - field. lra.
  - field. lra.
  - replace ((x + w / 2 - (x - w / 2)) / (y + s / w / 2 - (y - s / w / 2)))%R
      with (w * w / s)%R by (field; lra).
    rewrite Hsq. field. lra.
Qed.

Lemma convert_roundtrip_centre_witness :
  convert_bbox_to_z (convert_x_to_bbox (mkObs 1%R 2%R 6%R 3%R))
  = mkObs 1%R 2%R 6%R 3%R.
Proof.
  apply (convert_roundtrip_centre (mkObs 1%R 2%R 6%R 3%R)); simpl; lra.
Defined.

(** ** A tracker just created *)

(** X6: over the reals, a tracker created from a box of positive width
    and height reads back that box with [get_state]; it takes the class
    counter as its identity and advances the counter by one, starts with
    all its counters at zero, and keeps the confidence and class it was
    given. *)
Theorem fresh_tracker_reads_back :
  forall (EX : External R) (count : Z) (box : BBox R) (conf : R) (cls : Z),
    proper_box box ->
    let trk := fst (KalmanBoxTracker.init count box conf cls) in
    KalmanBoxTracker.get_state trk = box
    /\ snd (KalmanBoxTracker.init count box conf cls) = (count + 1)%Z
    /\ KalmanBoxTracker.id trk = count
    /\ (KalmanBoxTracker.time_since_update trk, KalmanBoxTracker.hits trk,
        KalmanBoxTracker.hit_streak trk, KalmanBoxTracker.age trk) = (0, 0, 0, 0)%Z
    /\ KalmanBoxTracker.conf trk = conf
    /\ KalmanBoxTracker.cls trk = cls.
Proof.
  intros EX count box conf cls [Hw Hh] trk. repeat split.
  change (KalmanBoxTracker.get_state trk)
    with (convert_x_to_bbox (convert_bbox_to_z box)).
  now apply real_roundtrip.
Qed.

Lemma fresh_tracker_reads_back_witness :
  KalmanBoxTracker.get_state
    (fst (@KalmanBoxTracker.init R Scalar_R 4 (mkBBox 0%R 0%R 2%R 3%R) 1%R 7))
  = mkBBox 0%R 0%R 2%R 3%R.
Proof.
  apply (fresh_tracker_reads_back Reference_External 4 (mkBBox 0%R 0%R 2%R 3%R) 1%R 7).
  split; simpl; lra.
Defined.

(** ** The lifecycle counters stay in range *)

Section CountersSane.
Context {F : Type} {SF : Scalar F} {EX : External F}.

Lemma counters_sane_init (count : Z) (bbox : BBox F) (conf : F) (cls : Z) :
  counters_sane (fst (KalmanBoxTracker.init count bbox conf cls)).
Proof.
  unfold counters_sane; simpl. lia.
Qed.

Lemma counters_sane_update (trk : KalmanBoxTracker.t F) (bbox : BBox F) :
  counters_sane trk -> counters_sane (KalmanBoxTracker.update trk bbox).
Proof.
  unfold counters_sane; simpl. lia.
Qed.

Lemma counters_sane_predict (trk : KalmanBoxTracker.t F) :
  counters_sane trk -> counters_sane (fst (KalmanBoxTracker.predict trk)).
Proof.
  unfold counters_sane; simpl.
  destruct (KalmanBoxTracker.time_since_update trk >? 0)%Z; lia.
Qed.

Lemma counters_sane_calls (cs : list call) :
  forall trk : KalmanBoxTracker.t F, counters_sane trk -> counters_sane (do_calls trk cs).
Proof.
  induction cs as [| c cs IH]; intros trk H; simpl; [assumption |].
  apply IH. destruct c; simpl;
    [now apply counters_sane_predict | now apply counters_sane_update].
Qed.

Lemma counters_sane_update_frame (count : Z) (self : SortTracker.t F)
      (dets : list (Detection F)) (count' : Z) (self' : SortTracker.t F)
      (ret : list (list F)) :
  Forall counters_sane (SortTracker.trackers self) ->
  SortTracker.update count self dets = Some (count', self', ret) ->
  Forall counters_sane (SortTracker.trackers self').
Proof.
  intros H Hu.
  eapply (update_Forall counters_sane dets count); [| | | exact H | exact Hu].
  - apply counters_sane_predict.
  - intros trk bbox. apply counters_sane_update.
  - intros; apply counters_sane_init.
Qed.

Lemma counters_sane_run (frames : list (list (Detection F))) :
  forall count self count' self' rets,
    Forall counters_sane (SortTracker.trackers self) ->
    SortTracker.run count self frames = Some (count', self', rets) ->
    Forall counters_sane (SortTracker.trackers self').
Proof.
  induction frames as [| dets rest IH]; intros count self count' self' rets H Hr;
    simpl in Hr.
  - now inversion Hr; subst.
  - apply bind_Some in Hr as ([[c1 s1] r1] & Hu & Hr).
    apply bind_Some in Hr as ([[c2 s2] r2] & Hrest & Hr).
    inversion Hr; subst.
    eapply IH; [| exact Hrest].
    eapply counters_sane_update_frame; eauto.
Qed.

End CountersSane.

(** X7: whatever calls a tracker has received since its creation, and in
    every state a run reaches from trackers that satisfy it, a tracker's
    counters stay in range: [0 <= time_since_update <= age] and
    [0 <= hit_streak <= hits]. *)
Theorem counters_stay_in_range :
  forall (F : Type) (SF : Scalar F) (EX : External F),
    (forall count bbox conf cls (cs : list call),
        counters_sane (do_calls (fst (KalmanBoxTracker.init count bbox conf cls)) cs))
    /\ (forall frames count self count' self' rets,
           Forall counters_sane (SortTracker.trackers self) ->
           SortTracker.run count self frames = Some (count', self', rets) ->
           Forall counters_sane (SortTracker.trackers self')).
Proof.
  intros F SF EX. split.
  - intros. apply counters_sane_calls, counters_sane_init.
  - intros frames count self count' self' rets H Hr.
    now apply (counters_sane_run frames count self count' self' rets).
Qed.

(** ** The associator with nothing on one side *)

Section AssociateEmpty.
Context {F : Type} {SF : Scalar F} {EX : External F}.

Lemma filter_mem_nil (n : nat) :
  filter (fun t => negb (mem_nat t [])) (seq 0 n) = seq 0 n.
Proof.
  now apply filter_all.
Qed.

Lemma associate_no_detections (trks : list (BBox F)) (tau : F) :
  associate_detections_to_trackers [] trks tau = Some ([], [], seq 0 (length trks)).
Proof.
  unfold associate_detections_to_trackers.
  destruct (Nat.eqb_spec (length trks) 0) as [Hm | Hm].
  - rewrite Hm. reflexivity.
  - unfold matched_indices_of, associate_from. simpl.
    now rewrite filter_mem_nil.
Qed.

Lemma associate_no_trackers (dets : list (BBox F)) (tau : F) :
  associate_detections_to_trackers dets [] tau = Some ([], seq 0 (length dets), []).
Proof. reflexivity. Qed.

End AssociateEmpty.

(** X8: with no tracker box every detection is unmatched, with no
    detection every tracker is unmatched; in both cases there is no
    match, the indices come in increasing order, and the solver is not
    consulted (the result is the same for every solver). *)
Theorem associate_with_an_empty_side :
  forall (F : Type) (SF : Scalar F) (EX : External F)
         (dets trks : list (BBox F)) (tau : F),
    associate_detections_to_trackers dets [] tau = Some ([], seq 0 (length dets), [])
    /\ associate_detections_to_trackers [] trks tau = Some ([], [], seq 0 (length trks)).
Proof.
  intros F SF EX dets trks tau. split.
  - apply associate_no_trackers.
  - apply associate_no_detections.
Qed.

(** ** Applying the matches *)

Lemma modify_nth_lookup {A : Type} (f : A -> A) :
  forall (i : nat) (l l' : list A),
    modify_nth i f l = Some l' ->
    length l' = length l
    /\ nth_error l' i = option_map f (nth_error l i)
    /\ forall j, j <> i -> nth_error l' j = nth_error l j.
Proof.
  induction i as [| i IH]; intros [| h t] l' H; simpl in H; try discriminate.
  - inversion H; subst. repeat split. intros [| j] Hj; [contradiction | reflexivity].
  - apply bind_Some in H as (t' & Ht & H). inversion H; subst.
    destruct (IH _ _ Ht) as (Hlen & Hi & Hj). repeat split.
    + simpl. now rewrite Hlen.
    + exact Hi.
    + intros [| j] Hne; [reflexivity |]. simpl. apply Hj. lia.
Qed.

Section UpdateMatched.
Context {F : Type} {SF : Scalar F} {EX : External F}.

Lemma update_matched_lookup (dets : list (Detection F)) (matched : list (nat * nat)) :
  forall trks trks' : list (KalmanBoxTracker.t F),
    NoDup (map snd matched) ->
    SortTracker.update_matched matched dets trks = Some trks' ->
    length trks' = length trks
    /\ (forall d t det trk,
           In (d, t) matched -> nth_error dets d = Some det ->
           nth_error trks t = Some trk ->
           nth_error trks' t = Some (KalmanBoxTracker.update trk (det_box det)))
    /\ (forall t, ~ In t (map snd matched) -> nth_error trks' t = nth_error trks t).
Proof.
  induction matched as [| m rest IH]; intros trks trks' Hnd Hu; simpl in Hu.
  - inversion Hu; subst.
    split; [reflexivity | split; [intros d t det trk [] | reflexivity]].
  - apply bind_Some in Hu as (d0 & Hd0 & Hu).
    apply bind_Some in Hu as (trks1 & H1 & Hu).
    simpl in Hnd. inversion Hnd as [| ? ? Hnotin Hnd']; subst.
    destruct (IH _ _ Hnd' Hu) as (Hlen & Hmatched & Hother).
    destruct (modify_nth_lookup _ _ _ _ H1) as (Hlen1 & Hat & Helse).
    split; [lia |]. split.
    + intros d t det trk [Heq | Hin] Hdet Htrk.
      * subst m; simpl in *. rewrite (Hother t Hnotin), Hat, Htrk. simpl.
        rewrite Hdet in Hd0. now inversion Hd0.
      * assert (Hne : t <> snd m).
        { intros ->. apply Hnotin. apply in_map_iff. now exists (d, snd m). }
        apply (Hmatched d t det trk Hin Hdet). now rewrite (Helse t Hne).
    + intros t Hnot. simpl in Hnot.
      rewrite (Hother t) by tauto. apply Helse. intros ->. tauto.
Qed.

End UpdateMatched.

(** X9: when no tracker index occurs twice among the matches and every
    index is in range, applying the matches raises nothing, keeps the
    number and order of the trackers, gives each matched tracker exactly
    one [update] with the box of its own detection, and leaves every
    other tracker as it was. *)
Theorem matches_update_each_tracker_once :
  forall (F : Type) (SF : Scalar F) (EX : External F)
         (dets : list (Detection F)) (matched : list (nat * nat))
         (trks : list (KalmanBoxTracker.t F)),
    NoDup (map snd matched) ->
    Forall (fun m => (fst m < length dets)%nat /\ (snd m < length trks)%nat) matched ->
    exists trks',
      SortTracker.update_matched matched dets trks = Some trks'
      /\ length trks' = length trks
      /\ (forall d t det trk,
             In (d, t) matched -> nth_error dets d = Some det ->
             nth_error trks t = Some trk ->
             nth_error trks' t = Some (KalmanBoxTracker.update trk (det_box det)))
      /\ (forall t, ~ In t (map snd matched) -> nth_error trks' t = nth_error trks t).
Proof.
  intros F SF EX dets matched trks Hnd Hr.
  destruct (update_matched_total dets matched trks Hr) as [trks' Hu].
  exists trks'. split; [exact Hu |].
  now apply (update_matched_lookup dets matched trks trks').
Qed.

Lemma matches_update_each_tracker_once_witness :
  exists trks',
    @SortTracker.update_matched float Scalar_float Reference_External
      [(0, 0)%nat] [detection 1 1 3 4 0.5 2]
      [fst (KalmanBoxTracker.init 0 (mkBBox 0 0 2 3)%float 0.5%float 2)]
    = Some trks'
    /\ length trks' = 1%nat
    /\ (forall d t det trk,
           In (d, t) [(0, 0)%nat] ->
           nth_error [detection 1 1 3 4 0.5 2] d = Some det ->
           nth_error [fst (KalmanBoxTracker.init 0 (mkBBox 0 0 2 3)%float 0.5%float 2)] t
           = Some trk ->
           nth_error trks' t
           = Some (@KalmanBoxTracker.update float Scalar_float Reference_External
                     trk (det_box det)))
    /\ (forall t, ~ In t (map snd [(0, 0)%nat]) ->
                  nth_error trks' t
                  = nth_error
                      [fst (KalmanBoxTracker.init 0 (mkBBox 0 0 2 3)%float 0.5%float 2)] t).
Proof.
  apply (matches_update_each_tracker_once float Scalar_float Reference_External
           [detection 1 1 3 4 0.5 2] [(0, 0)%nat]
           [fst (KalmanBoxTracker.init 0 (mkBBox 0 0 2 3)%float 0.5%float 2)]).
  - repeat constructor. simpl. tauto.
  - repeat constructor; simpl; lia.
Defined.

(** ** Which trackers a frame keeps and creates *)


Section PoolIdentities.
Context {F : Type} {SF : Scalar F} {EX : External F}.






End PoolIdentities.



(** ** A frame without detections *)

Lemma filter_none {A : Type} (g : A -> bool) (l : list A) :
  (forall x, In x l -> g x = false) -> filter g l = [].
Proof.
  induction l as [| h t IH]; intros H; simpl; [reflexivity |].
  rewrite (H h (or_introl eq_refl)). apply IH. intros x Hx. apply H. now right.
Qed.

Section EmptyFrame.
Context {F : Type} {SF : Scalar F} {EX : External F}.

Lemma track_pool_empty_frame (count : Z) (self : SortTracker.t F) :
  SortTracker.track_pool count self []
  = Some (count,
          map predicted (filter (fun trk => negb (has_nan trk)) (SortTracker.trackers self))).
Proof.
  rewrite track_pool_unfold. cbv zeta. cbn [map].
  rewrite associate_no_detections. reflexivity.
Qed.

Lemma predicted_time_since_update (trk : KalmanBoxTracker.t F) :
  KalmanBoxTracker.time_since_update (predicted trk)
  = (KalmanBoxTracker.time_since_update trk + 1)%Z.
Proof. reflexivity. Qed.

Lemma update_empty_frame (count : Z) (self : SortTracker.t F) :
  Forall (fun trk => (0 <= KalmanBoxTracker.time_since_update trk)%Z)
         (SortTracker.trackers self) ->
  SortTracker.update count self []
  = Some (count,
          SortTracker.mk (SortTracker.max_age self) (SortTracker.min_hits self)
            (SortTracker.iou_threshold self)
            (filter (alive (SortTracker.max_age self))
                    (map predicted
                         (filter (fun trk => negb (has_nan trk))
                                 (SortTracker.trackers self))))
            (SortTracker.frame_count self + 1),
          []).
Proof.
  intros H. rewrite update_spec, track_pool_empty_frame. cbn [bind].
  rewrite (filter_none (SortTracker.reported _ _)); [reflexivity |].
  intros trk Hin. apply in_rev, in_map_iff in Hin as (trk0 & <- & Hin0).
  apply filter_In in Hin0 as [Hin0 _].
  rewrite Forall_forall in H. specialize (H _ Hin0).
  unfold SortTracker.reported. rewrite predicted_time_since_update.
  destruct (Z.ltb_spec (KalmanBoxTracker.time_since_update trk0 + 1) 1);
    [lia | reflexivity].
Qed.

(** Each empty frame adds a miss to every tracker it keeps. *)
Lemma run_empty_frames (n : nat) :
  forall (count : Z) (self : SortTracker.t F) (k : Z),
    (0 <= k)%Z ->
    Forall (fun trk => (k <= KalmanBoxTracker.time_since_update trk)%Z)
           (SortTracker.trackers self) ->
    exists self',
      SortTracker.run count self (empty_frames n) = Some (count, self', repeat [] n)
      /\ SortTracker.max_age self' = SortTracker.max_age self
      /\ Forall (fun trk => (k + Z.of_nat n <= KalmanBoxTracker.time_since_update trk)%Z)
                (SortTracker.trackers self')
      /\ ((0 < n)%nat ->
          Forall (fun trk => (KalmanBoxTracker.time_since_update trk
                              <= SortTracker.max_age self)%Z)
                 (SortTracker.trackers self')).
Proof.
  induction n as [| n IH]; intros count self k Hk H.
  - exists self. split; [reflexivity |]. split; [reflexivity |]. split; [| lia].
    eapply Forall_impl; [| exact H]. simpl. intros; lia.
  - assert (H0 : Forall (fun trk => (0 <= KalmanBoxTracker.time_since_update trk)%Z)
                        (SortTracker.trackers self)).
    { eapply Forall_impl; [| exact H]. simpl. intros; lia. }
    pose proof (update_empty_frame count self H0) as Hu.
    set (self1 := SortTracker.mk (SortTracker.max_age self) (SortTracker.min_hits self)
                    (SortTracker.iou_threshold self)
                    (filter (alive (SortTracker.max_age self))
                            (map predicted
                                 (filter (fun trk => negb (has_nan trk))
                                         (SortTracker.trackers self))))
                    (SortTracker.frame_count self + 1)) in *.
    assert (H1 : Forall (fun trk => (k + 1 <= KalmanBoxTracker.time_since_update trk)%Z
                                    /\ (KalmanBoxTracker.time_since_update trk
                                        <= SortTracker.max_age self)%Z)
                        (SortTracker.trackers self1)).
    { apply Forall_forall. intros trk Hin. simpl in Hin.
      apply filter_In in Hin as [Hin Halive].
      apply in_map_iff in Hin as (trk0 & <- & Hin0).
      apply filter_In in Hin0 as [Hin0 _].
      rewrite Forall_forall in H. specialize (H _ Hin0).
      unfold alive, SortTracker.dead in Halive.
      rewrite predicted_time_since_update in *.
      destruct (Z.gtb_spec (KalmanBoxTracker.time_since_update trk0 + 1)
                           (SortTracker.max_age self)); [discriminate | lia]. }
    destruct (IH count self1 (k + 1)%Z) as (self' & Hr & Hma & Hk' & Hle).
    + lia.
    + eapply Forall_impl; [| exact H1]. simpl. intros ? [? _]. assumption.
    + exists self'. split; [| split; [| split]].
      * unfold empty_frames in *. cbn [repeat SortTracker.run].
        rewrite Hu. cbn [bind]. rewrite Hr. reflexivity.
      * exact Hma.
      * eapply Forall_impl; [| exact Hk']. simpl. intros; lia.
      * intros _. destruct n as [| n].
        -- simpl in Hr. inversion Hr; subst.
           eapply Forall_impl; [| exact H1]. simpl. intros ? [_ ?]. assumption.
        -- apply Hle. lia.
Qed.

End EmptyFrame.

(** X11: a frame without detections, seen by trackers whose
    [time_since_update] is not negative, raises nothing, reports nothing,
    creates no tracker (the class counter is unchanged) and does not
    depend on the solver: the trackers kept are the former ones, each
    after its [predict], without those whose predicted box has a NaN and
    those whose [time_since_update] now exceeds [max_age]. *)
Theorem frame_without_detections :
  forall (F : Type) (SF : Scalar F) (EX : External F)
         (count : Z) (self : SortTracker.t F),
    Forall (fun trk => (0 <= KalmanBoxTracker.time_since_update trk)%Z)
           (SortTracker.trackers self) ->
    SortTracker.update count self []
    = Some (count,
            SortTracker.mk (SortTracker.max_age self) (SortTracker.min_hits self)
              (SortTracker.iou_threshold self)
              (filter (fun trk => (KalmanBoxTracker.time_since_update trk
                                   <=? SortTracker.max_age self)%Z)
                      (map predicted
                           (filter (fun trk => negb (has_nan trk))
                                   (SortTracker.trackers self))))
              (SortTracker.frame_count self + 1),
            []).
Proof.
  intros F SF EX count self H.
  rewrite (update_empty_frame count self H). do 3 f_equal.
  f_equal. apply filter_ext. intros trk. unfold alive, SortTracker.dead.
  destruct (Z.gtb_spec (KalmanBoxTracker.time_since_update trk) (SortTracker.max_age self));
    destruct (Z.leb_spec (KalmanBoxTracker.time_since_update trk)
                         (SortTracker.max_age self)); simpl; try reflexivity; lia.
Qed.

Lemma state_after_one_frame_counters :
  Forall (fun trk => (0 <= KalmanBoxTracker.time_since_update trk)%Z)
         (SortTracker.trackers (snd (state_after [[detection 0 0 2 2 0.5 1]]))).
Proof.
  vm_compute. repeat constructor; discriminate.
Qed.

Lemma frame_without_detections_witness :
  @SortTracker.update float Scalar_float Reference_External
    (fst (state_after [[detection 0 0 2 2 0.5 1]]))
    (snd (state_after [[detection 0 0 2 2 0.5 1]])) []
  = Some (fst (state_after [[detection 0 0 2 2 0.5 1]]),
          SortTracker.mk
            (SortTracker.max_age (snd (state_after [[detection 0 0 2 2 0.5 1]])))
            (SortTracker.min_hits (snd (state_after [[detection 0 0 2 2 0.5 1]])))
            (SortTracker.iou_threshold (snd (state_after [[detection 0 0 2 2 0.5 1]])))
            (filter (fun trk => (KalmanBoxTracker.time_since_update trk
                                 <=? SortTracker.max_age
                                       (snd (state_after [[detection 0 0 2 2 0.5 1]])))%Z)
                    (map predicted
                         (filter (fun trk => negb (has_nan trk))
                                 (SortTracker.trackers
                                    (snd (state_after [[detection 0 0 2 2 0.5 1]]))))))
            (SortTracker.frame_count (snd (state_after [[detection 0 0 2 2 0.5 1]])) + 1),
          []).
Proof.
  apply (frame_without_detections float Scalar_float Reference_External).
  exact state_after_one_frame_counters.
Defined.

(** X12: after [max_age + 1] frames in a row without detections (one
    frame when [max_age] is negative) no tracker is left, no row has been
    reported and no tracker has been created, whatever trackers with a
    [time_since_update] that is not negative there were. *)
Theorem trackers_expire_without_detections :
  forall (F : Type) (SF : Scalar F) (EX : External F)
         (count : Z) (self : SortTracker.t F),
    Forall (fun trk => (0 <= KalmanBoxTracker.time_since_update trk)%Z)
           (SortTracker.trackers self) ->
    exists self',
      SortTracker.run count self (empty_frames (S (Z.to_nat (SortTracker.max_age self))))
      = Some (count, self', repeat [] (S (Z.to_nat (SortTracker.max_age self))))
      /\ SortTracker.trackers self' = [].
Proof.
  intros F SF EX count self H.
  destruct (run_empty_frames (S (Z.to_nat (SortTracker.max_age self))) count self 0%Z
              (Z.le_refl 0) H) as (self' & Hr & _ & Hge & Hle).
  exists self'. split; [exact Hr |].
  specialize (Hle (Nat.lt_0_succ _)).
  destruct (SortTracker.trackers self') as [| trk rest]; [reflexivity |].
  inversion Hge; subst. inversion Hle; subst. lia.
Qed.

Lemma trackers_expire_without_detections_witness :
  exists self',
    @SortTracker.run float Scalar_float Reference_External
      (fst (state_after [[detection 0 0 2 2 0.5 1]]))
      (snd (state_after [[detection 0 0 2 2 0.5 1]]))
      (empty_frames
         (S (Z.to_nat (SortTracker.max_age (snd (state_after [[detection 0 0 2 2 0.5 1]]))))))
    = Some (fst (state_after [[detection 0 0 2 2 0.5 1]]), self',
            repeat []
              (S (Z.to_nat (SortTracker.max_age
                              (snd (state_after [[detection 0 0 2 2 0.5 1]]))))))
    /\ SortTracker.trackers self' = [].
Proof.
  apply (trackers_expire_without_detections float Scalar_float Reference_External).
  exact state_after_one_frame_counters.
Defined.

(** ** A frame seen without any tracker *)

Section FirstFrame.
Context {F : Type} {SF : Scalar F} {EX : External F}.

Lemma create_new_seed (rest : list (Detection F)) :
  forall (pre : list (Detection F)) (count : Z) (trks : list (KalmanBoxTracker.t F)),
    SortTracker.create_new (seq (length pre) (length rest)) (pre ++ rest) count trks
    = (pool <- seed_trackers count rest ;;
       Some ((count + Z.of_nat (length rest))%Z, trks ++ pool)).
Proof.
  induction rest as [| d rest IH]; intros pre count trks.
  - simpl. now rewrite Z.add_0_r, app_nil_r.
  - cbn [length seq SortTracker.create_new seed_trackers].
    rewrite nth_error_app2, Nat.sub_diag by lia. cbn [nth_error bind].
    destruct (to_int (det_class d)) as [c |]; [| reflexivity].
    cbn [bind].
    change (KalmanBoxTracker.init count (det_box d) (det_score d) c)
      with (fst (KalmanBoxTracker.init count (det_box d) (det_score d) c), (count + 1)%Z).
    cbv iota beta.
    set (trk := fst (KalmanBoxTracker.init count (det_box d) (det_score d) c)).
    specialize (IH (pre ++ [d]) (count + 1)%Z (trks ++ [trk])).
    rewrite length_app, Nat.add_1_r, <- app_assoc in IH. simpl app in IH.
    rewrite IH.
    destruct (seed_trackers (count + 1) rest) as [pool |]; [| reflexivity].
    cbn [bind]. rewrite <- app_assoc. simpl app.
    replace (count + Z.of_nat (S (length rest)))%Z
      with (count + 1 + Z.of_nat (length rest))%Z by lia.
    reflexivity.
Qed.

Lemma seed_trackers_fresh (dets : list (Detection F)) :
  forall (count : Z) (pool : list (KalmanBoxTracker.t F)),
    seed_trackers count dets = Some pool ->
    Forall (fun trk => KalmanBoxTracker.time_since_update trk = 0%Z
                       /\ KalmanBoxTracker.hit_streak trk = 0%Z) pool.
Proof.
  induction dets as [| d rest IH]; intros count pool H; simpl in H.
  - inversion H; subst. constructor.
  - apply bind_Some in H as (c & _ & H).
    apply bind_Some in H as (rest' & Hrest & H). inversion H; subst.
    constructor; [now split | eapply IH; exact Hrest].
Qed.

Lemma filter_const {A : Type} (g : A -> bool) (b : bool) (l : list A) :
  (forall x, In x l -> g x = b) -> filter g l = if b then l else [].
Proof.
  intros H. destruct b; [| now apply filter_none].
  induction l as [| h t IH]; simpl; [reflexivity |].
  rewrite (H h (or_introl eq_refl)). f_equal. apply IH. intros x Hx. apply H. now right.
Qed.

Lemma update_without_trackers (count max_age min_hits : Z) (tau : F) (frame_count : Z)
      (dets : list (Detection F)) :
  (0 <= max_age)%Z ->
  SortTracker.update count (SortTracker.mk max_age min_hits tau [] frame_count) dets
  = (pool <- seed_trackers count dets ;;
     Some ((count + Z.of_nat (length dets))%Z,
           SortTracker.mk max_age min_hits tau pool (frame_count + 1),
           if ((0 >=? min_hits) || (frame_count + 1 <=? min_hits))%Z
           then map SortTracker.report_row (rev pool)
           else [])).
Proof.
  intros Hma. rewrite update_spec, track_pool_unfold. cbv zeta.
  cbn [SortTracker.trackers SortTracker.iou_threshold SortTracker.max_age
       SortTracker.min_hits SortTracker.frame_count filter map
       SortTracker.compress_rows].
  rewrite associate_no_trackers. cbn [bind SortTracker.update_matched].
  rewrite length_map.
  pose proof (create_new_seed dets [] count []) as Hc. simpl in Hc. rewrite Hc.
  destruct (seed_trackers count dets) as [pool |] eqn:Hs; [| reflexivity].
  cbn [bind]. pose proof (seed_trackers_fresh dets count pool Hs) as Hf.
  rewrite Forall_forall in Hf.
  rewrite (filter_const (alive max_age) true pool).
  2:{ intros trk Hin. destruct (Hf _ Hin) as [Ht _].
      unfold alive, SortTracker.dead. rewrite Ht.
      destruct (Z.gtb_spec 0 max_age); [lia | reflexivity]. }
  rewrite (filter_const (SortTracker.reported min_hits (frame_count + 1))
                        ((0 >=? min_hits) || (frame_count + 1 <=? min_hits))%Z
                        (rev pool)).
  2:{ intros trk Hin. apply in_rev in Hin. destruct (Hf _ Hin) as [Ht Hh].
      unfold SortTracker.reported. now rewrite Ht, Hh. }
  now destruct ((0 >=? min_hits) || (frame_count + 1 <=? min_hits))%Z.
Qed.

End FirstFrame.

(** X13: a frame seen by an orchestrator without trackers (the first
    frame, or any frame after all trackers are gone), [max_age] not being
    negative, creates one tracker for each detection, in the order of the
    detections, each from its detection's box, score and class, with the
    consecutive values of the class counter as identities; it raises
    exactly when some class does not convert to an integer, and the
    solver is not consulted.  All of the new trackers are reported when
    [min_hits] is not positive or the frame is among the first [min_hits]
    frames, the last detection's first; none is otherwise. *)
Theorem frame_without_trackers :
  forall (F : Type) (SF : Scalar F) (EX : External F)
         (count max_age min_hits : Z) (tau : F) (frame_count : Z)
         (dets : list (Detection F)),
    (0 <= max_age)%Z ->
    SortTracker.update count (SortTracker.mk max_age min_hits tau [] frame_count) dets
    = (pool <- seed_trackers count dets ;;
       Some ((count + Z.of_nat (length dets))%Z,
             SortTracker.mk max_age min_hits tau pool (frame_count + 1),
             if ((0 >=? min_hits) || (frame_count + 1 <=? min_hits))%Z
             then map SortTracker.report_row (rev pool)
             else [])).
Proof.
  intros F SF EX count max_age min_hits tau frame_count dets Hma.
  now apply update_without_trackers.
Qed.

Lemma frame_without_trackers_witness :
  @SortTracker.update float Scalar_float Reference_External
    5 (SortTracker.mk 1 3 default_threshold [] 0)
    [detection 0 0 2 2 0.5 1; detection 50 50 60 60 0.5 1]
  = (pool <- @seed_trackers float Scalar_float 5
               [detection 0 0 2 2 0.5 1; detection 50 50 60 60 0.5 1] ;;
     Some ((5 + Z.of_nat (length [detection 0 0 2 2 0.5 1; detection 50 50 60 60 0.5 1]))%Z,
           SortTracker.mk 1 3 default_threshold pool (0 + 1),
           if ((0 >=? 3) || (0 + 1 <=? 3))%Z
           then map SortTracker.report_row (rev pool)
           else [])).
Proof.
  apply (frame_without_trackers float Scalar_float Reference_External). lia.
Defined.

(** ** Identities over a run *)

Lemma sorted_NoDup (l : list Z) : StronglySorted Z.lt l -> NoDup l.
Proof.
  induction 1 as [| a l Hs IH Ha]; constructor; [| assumption].
  intros Hin. rewrite Forall_forall in Ha. specialize (Ha _ Hin). lia.
Qed.

Section RunIdentities.
Context {F : Type} {SF : Scalar F} {EX : External F}.

Lemma run_ids_ordered (frames : list (list (Detection F))) :
  forall count self count' self' rets,
    ids_ordered count (SortTracker.trackers self) ->
    SortTracker.run count self frames = Some (count', self', rets) ->
    ids_ordered count' (SortTracker.trackers self').
Proof.
  induction frames as [| dets rest IH]; intros count self count' self' rets H Hr;
    simpl in Hr.
  - now inversion Hr; subst.
  - apply bind_Some in Hr as ([[c1 s1] r1] & Hu & Hr).
    apply bind_Some in Hr as ([[c2 s2] r2] & Hrest & Hr).
    inversion Hr; subst.
    eapply IH; [| exact Hrest].
    eapply update_ids_ordered; eauto.
Qed.

Lemma run_absent_identity (frames : list (list (Detection F)))
      (count : Z) (self : SortTracker.t F) (count' : Z) (self' : SortTracker.t F)
      (rets : list (list (list F))) (i : Z) :
  SortTracker.run count self frames = Some (count', self', rets) ->
  (i < count)%Z ->
  ~ In i (map (@KalmanBoxTracker.id F) (SortTracker.trackers self)) ->
  ~ In i (map (@KalmanBoxTracker.id F) (SortTracker.trackers self')).
Proof.
  intros Hr Hi Hout Hin.
  apply run_origin in Hr as [Hr _]. rewrite Forall_forall in Hr.
  apply in_map_iff in Hin as (trk' & Hid & Hin').
  destruct (Hr _ Hin') as [(trk & Hin & Hs & _) | [Hle _]]; [| lia].
  apply Hout. apply in_map_iff. exists trk. split; [congruence | assumption].
Qed.

End RunIdentities.

(** X14: from trackers whose identities increase in storage order and lie
    below the class counter (the state of a fresh orchestrator, and every
    state a run reaches from it), any run leaves live trackers with
    pairwise distinct identities, all below the new class counter, which
    has not decreased; and an identity below the class counter that no
    tracker carries is carried by no tracker ever after: the identity of
    a removed tracker is not given again. *)
Theorem identities_never_shared_or_reused :
  forall (F : Type) (SF : Scalar F) (EX : External F)
         (frames : list (list (Detection F)))
         (count : Z) (self : SortTracker.t F) (count' : Z) (self' : SortTracker.t F)
         (rets : list (list (list F))),
    ids_ordered count (SortTracker.trackers self) ->
    SortTracker.run count self frames = Some (count', self', rets) ->
    (count <= count')%Z
    /\ NoDup (map (@KalmanBoxTracker.id F) (SortTracker.trackers self'))
    /\ Forall (fun trk => (KalmanBoxTracker.id trk < count')%Z) (SortTracker.trackers self')
    /\ (forall i, (i < count)%Z ->
                  ~ In i (map (@KalmanBoxTracker.id F) (SortTracker.trackers self)) ->
                  ~ In i (map (@KalmanBoxTracker.id F) (SortTracker.trackers self'))).
Proof.
  intros F SF EX frames count self count' self' rets Hids Hr.
  pose proof (run_ids_ordered frames count self count' self' rets Hids Hr) as [Hs Hb].
  split; [| split; [| split]].
  - now apply run_origin in Hr as [_ Hle].
  - now apply sorted_NoDup.
  - exact Hb.
  - intros i Hi Hout.
    now apply (run_absent_identity frames count self count' self' rets i Hr Hi Hout).
Qed.

Lemma state_after_two_detections_ids :
  ids_ordered (fst (state_after [[detection 0 0 2 2 0.5 1; detection 50 50 60 60 0.5 1]]))
    (SortTracker.trackers
       (snd (state_after [[detection 0 0 2 2 0.5 1; detection 50 50 60 60 0.5 1]]))).
Proof.
  vm_compute. split; repeat constructor.
Qed.

Lemma identities_never_shared_or_reused_witness :
  exists count' self' rets,
    @SortTracker.run float Scalar_float Reference_External
      (fst (state_after [[detection 0 0 2 2 0.5 1; detection 50 50 60 60 0.5 1]]))
      (snd (state_after [[detection 0 0 2 2 0.5 1; detection 50 50 60 60 0.5 1]]))
      [[detection 0 0 2 2 0.5 1]; []; [detection 20 20 30 30 0.5 1]]
    = Some (count', self', rets)
    /\ (fst (state_after [[detection 0 0 2 2 0.5 1; detection 50 50 60 60 0.5 1]])
        <= count')%Z
    /\ NoDup (map (@KalmanBoxTracker.id float) (SortTracker.trackers self'))
    /\ Forall (fun trk => (KalmanBoxTracker.id trk < count')%Z) (SortTracker.trackers self')
    /\ (forall i,
           (i < fst (state_after [[detection 0 0 2 2 0.5 1; detection 50 50 60 60 0.5 1]]))%Z ->
           ~ In i (map (@KalmanBoxTracker.id float)
                       (SortTracker.trackers
                          (snd (state_after
                                  [[detection 0 0 2 2 0.5 1; detection 50 50 60 60 0.5 1]])))) ->
           ~ In i (map (@KalmanBoxTracker.id float) (SortTracker.trackers self'))).
Proof.
  destruct (@SortTracker.run float Scalar_float Reference_External
              (fst (state_after [[detection 0 0 2 2 0.5 1; detection 50 50 60 60 0.5 1]]))
              (snd (state_after [[detection 0 0 2 2 0.5 1; detection 50 50 60 60 0.5 1]]))
              [[detection 0 0 2 2 0.5 1]; []; [detection 20 20 30 30 0.5 1]])
    as [[[count' self'] rets] |] eqn:E; [| vm_compute in E; discriminate].
  exists count', self', rets. split; [reflexivity |].
  exact (identities_never_shared_or_reused float Scalar_float Reference_External
           _ _ _ count' self' rets state_after_two_detections_ids E).
Defined.

(** ** The parameters and the frame counter over a run *)

Section RunParameters.
Context {F : Type} {SF : Scalar F} {EX : External F}.

Lemma run_parameters (frames : list (list (Detection F))) :
  forall count self count' self' rets,
    SortTracker.run count self frames = Some (count', self', rets) ->
    SortTracker.max_age self' = SortTracker.max_age self
    /\ SortTracker.min_hits self' = SortTracker.min_hits self
    /\ SortTracker.iou_threshold self' = SortTracker.iou_threshold self
    /\ SortTracker.frame_count self'
       = (SortTracker.frame_count self + Z.of_nat (length frames))%Z
    /\ length rets = length frames.
Proof.
  induction frames as [| dets rest IH]; intros count self count' self' rets Hr;
    simpl in Hr.
  - inversion Hr; subst. simpl. repeat split. lia.
  - apply bind_Some in Hr as ([[c1 s1] r1] & Hu & Hr).
    apply bind_Some in Hr as ([[c2 s2] r2] & Hrest & Hr).
    inversion Hr; subst.
    destruct (IH _ _ _ _ _ Hrest) as (Ha & Hm & Ht & Hf & Hl).
    rewrite update_spec in Hu.
    apply bind_Some in Hu as ([c pool] & _ & Hu). inversion Hu; subst.
    simpl in *. rewrite Ha, Hm, Ht, Hf, Hl. repeat split. lia.
Qed.

End RunParameters.

(** X15: a run changes none of the parameters [max_age], [min_hits] and
    [iou_threshold], adds one to [frame_count] for every frame, with or
    without detections, and gives one report for every frame. *)
Theorem run_counts_frames_and_keeps_parameters :
  forall (F : Type) (SF : Scalar F) (EX : External F)
         (frames : list (list (Detection F)))
         (count : Z) (self : SortTracker.t F) (count' : Z) (self' : SortTracker.t F)
         (rets : list (list (list F))),
    SortTracker.run count self frames = Some (count', self', rets) ->
    SortTracker.max_age self' = SortTracker.max_age self
    /\ SortTracker.min_hits self' = SortTracker.min_hits self
    /\ SortTracker.iou_threshold self' = SortTracker.iou_threshold self
    /\ SortTracker.frame_count self'
       = (SortTracker.frame_count self + Z.of_nat (length frames))%Z
    /\ length rets = length frames.
Proof.
  intros F SF EX frames count self count' self' rets Hr.
  now apply (run_parameters frames count self count' self' rets).
Qed.

Lemma run_counts_frames_and_keeps_parameters_witness :
  exists count' self' rets,
    @SortTracker.run float Scalar_float Reference_External 0 default_tracker
      [[detection 0 0 2 2 0.5 1]; []; [detection 20 20 30 30 0.5 1]]
    = Some (count', self', rets)
    /\ SortTracker.max_age self' = SortTracker.max_age default_tracker
    /\ SortTracker.min_hits self' = SortTracker.min_hits default_tracker
    /\ SortTracker.iou_threshold self' = SortTracker.iou_threshold default_tracker
    /\ SortTracker.frame_count self'
       = (SortTracker.frame_count default_tracker
          + Z.of_nat (length [[detection 0 0 2 2 0.5 1]; [];
                              [detection 20 20 30 30 0.5 1]]))%Z
    /\ length rets
       = length [[detection 0 0 2 2 0.5 1]; []; [detection 20 20 30 30 0.5 1]].
Proof.
  destruct (@SortTracker.run float Scalar_float Reference_External 0 default_tracker
              [[detection 0 0 2 2 0.5 1]; []; [detection 20 20 30 30 0.5 1]])
    as [[[count' self'] rets] |] eqn:E; [| vm_compute in E; discriminate].
  exists count', self', rets. split; [reflexivity |].
  exact (run_counts_frames_and_keeps_parameters float Scalar_float Reference_External
           _ _ _ count' self' rets E).
Defined.

(** ** The guard of [predict] *)

Section AreaGuard.
Local Open Scope R_scope.

(** The reference prediction with the transition matrix of [__init__]
    adds the area's velocity to the area and leaves the ratio alone. *)
Lemma linear_predict_area (k : KalmanFilter R) :
  kf_F k = KalmanBoxTracker.F_matrix ->
  ss (kf_x (linear_predict k)) = ss (kf_x k) + svs (kf_x k)
  /\ sr (kf_x (linear_predict k)) = sr (kf_x k).
Proof.
  intros HF. unfold linear_predict. rewrite HF.
  destruct (kf_x k) as [x y s r vx vy vs]; simpl.
  unfold list_state, mat_vec, dot; simpl. split; ring.
Qed.

Lemma clamp_area (k : KalmanFilter R) :
  0 < ss (kf_x k) ->
  ss (kf_x (KalmanBoxTracker.clamp_area_velocity k)) = ss (kf_x k)
  /\ sr (kf_x (KalmanBoxTracker.clamp_area_velocity k)) = sr (kf_x k)
  /\ 0 < ss (kf_x (KalmanBoxTracker.clamp_area_velocity k))
         + svs (kf_x (KalmanBoxTracker.clamp_area_velocity k)).
Proof.
  intros Hs. unfold KalmanBoxTracker.clamp_area_velocity. simpl.
  destruct (Rle_dec (svs (kf_x k) + ss (kf_x k)) 0) as [Hle | Hgt]; simpl.
  - repeat split. lra.
  - repeat split. lra.
Qed.

Lemma proper_convert_x_to_bbox (z : Obs R) :
  0 < os z -> 0 < or_ z -> proper_box (convert_x_to_bbox z).
Proof.
  intros Hs Hr. unfold proper_box, convert_x_to_bbox. simpl.
  assert (Hw : 0 < R_sqrt.sqrt (os z * or_ z)).
  { apply sqrt_lt_R0. now apply Rmult_lt_0_compat. }
  assert (Hh : 0 < os z / R_sqrt.sqrt (os z * or_ z)).
  { now apply Rdiv_lt_0_compat. }
  split; lra.
Qed.

End AreaGuard.

(** X16: over the reals, when the filter's prediction adds the area's
    velocity to the area and leaves the aspect ratio alone (what the
    transition matrix set by [__init__] does), [predict] on a tracker of
    positive area and positive aspect ratio leaves the area positive,
    whatever its velocity, and returns a box of positive width and
    height; the ratio is unchanged. *)
Theorem predict_keeps_area_positive :
  forall (EX : External R) (trk : KalmanBoxTracker.t R),
    (ss (kf_x (kf_predict (KalmanBoxTracker.clamp_area_velocity (KalmanBoxTracker.kf trk))))
     = ss (kf_x (KalmanBoxTracker.clamp_area_velocity (KalmanBoxTracker.kf trk)))
       + svs (kf_x (KalmanBoxTracker.clamp_area_velocity (KalmanBoxTracker.kf trk))))%R ->
    (sr (kf_x (kf_predict (KalmanBoxTracker.clamp_area_velocity (KalmanBoxTracker.kf trk))))
     = sr (kf_x (KalmanBoxTracker.clamp_area_velocity (KalmanBoxTracker.kf trk))))%R ->
    (0 < ss (kf_x (KalmanBoxTracker.kf trk)))%R ->
    (0 < sr (kf_x (KalmanBoxTracker.kf trk)))%R ->
    (0 < ss (kf_x (KalmanBoxTracker.kf (predicted trk))))%R
    /\ sr (kf_x (KalmanBoxTracker.kf (predicted trk))) = sr (kf_x (KalmanBoxTracker.kf trk))
    /\ proper_box (predicted_box trk).
Proof.
  intros EX trk Harea Hratio Hs Hr.
  destruct (clamp_area (KalmanBoxTracker.kf trk) Hs) as (_ & Hcr & Hpos).
  unfold predicted, predicted_box, KalmanBoxTracker.predict. cbn [fst snd KalmanBoxTracker.kf].
  split; [| split].
  - rewrite Harea. exact Hpos.
  - now rewrite Hratio, Hcr.
  - apply proper_convert_x_to_bbox; cbn [os or_ state_obs].
    + rewrite Harea. exact Hpos.
    + now rewrite Hratio, Hcr.
Qed.

Lemma predict_keeps_area_positive_witness :
  (0 < ss (kf_x (KalmanBoxTracker.kf
                   (@predicted R Scalar_R Reference_External shrinking_tracker))))%R
  /\ sr (kf_x (KalmanBoxTracker.kf
                 (@predicted R Scalar_R Reference_External shrinking_tracker)))
     = sr (kf_x (KalmanBoxTracker.kf shrinking_tracker))
  /\ proper_box (@predicted_box R Scalar_R Reference_External shrinking_tracker).
Proof.
  apply (predict_keeps_area_positive Reference_External shrinking_tracker).
  - apply (linear_predict_area
             (KalmanBoxTracker.clamp_area_velocity (KalmanBoxTracker.kf shrinking_tracker))).
    unfold KalmanBoxTracker.clamp_area_velocity, shrinking_tracker. simpl.
    destruct (Rle_dec (-10 + 4) 0); reflexivity.
  - apply (linear_predict_area
             (KalmanBoxTracker.clamp_area_velocity (KalmanBoxTracker.kf shrinking_tracker))).
    unfold KalmanBoxTracker.clamp_area_velocity, shrinking_tracker. simpl.
    destruct (Rle_dec (-10 + 4) 0); reflexivity.
  - simpl. lra.
  - simpl. lra.
Defined.

(** ** What the counters of a tracker count *)

Section CallCounts.
Context {F : Type} {SF : Scalar F} {EX : External F}.

Lemma history_in_step_init (count : Z) (bbox : BBox F) (conf : F) (cls : Z) :
  history_in_step (fst (KalmanBoxTracker.init count bbox conf cls)).
Proof. reflexivity. Qed.

Lemma history_in_step_update (trk : KalmanBoxTracker.t F) (bbox : BBox F) :
  history_in_step trk -> history_in_step (KalmanBoxTracker.update trk bbox).
Proof. reflexivity. Qed.

Lemma history_in_step_predict (trk : KalmanBoxTracker.t F) :
  history_in_step trk -> history_in_step (fst (KalmanBoxTracker.predict trk)).
Proof.
  unfold history_in_step. simpl. rewrite length_app. simpl. lia.
Qed.

Lemma history_in_step_calls (cs : list call) :
  forall trk : KalmanBoxTracker.t F, history_in_step trk -> history_in_step (do_calls trk cs).
Proof.
  induction cs as [| c cs IH]; intros trk H; simpl; [assumption |].
  apply IH. destruct c; simpl;
    [now apply history_in_step_predict | now apply history_in_step_update].
Qed.

Lemma history_in_step_run (frames : list (list (Detection F))) :
  forall count self count' self' rets,
    Forall history_in_step (SortTracker.trackers self) ->
    SortTracker.run count self frames = Some (count', self', rets) ->
    Forall history_in_step (SortTracker.trackers self').
Proof.
  induction frames as [| dets rest IH]; intros count self count' self' rets H Hr;
    simpl in Hr.
  - now inversion Hr; subst.
  - apply bind_Some in Hr as ([[c1 s1] r1] & Hu & Hr).
    apply bind_Some in Hr as ([[c2 s2] r2] & Hrest & Hr).
    inversion Hr; subst.
    eapply IH; [| exact Hrest].
    eapply (update_Forall history_in_step dets count); [| | | exact H | exact Hu].
    + apply history_in_step_predict.
    + intros trk bbox. apply history_in_step_update.
    + intros; apply history_in_step_init.
Qed.

Lemma do_calls_counts (cs : list call) :
  forall trk : KalmanBoxTracker.t F,
    KalmanBoxTracker.age (do_calls trk cs) = (KalmanBoxTracker.age trk + predicts_in cs)%Z
    /\ KalmanBoxTracker.hits (do_calls trk cs) = (KalmanBoxTracker.hits trk + updates_in cs)%Z
    /\ KalmanBoxTracker.id (do_calls trk cs) = KalmanBoxTracker.id trk.
Proof.
  unfold predicts_in, updates_in.
  induction cs as [| c cs IH]; intros trk; simpl.
  - repeat split; lia.
  - destruct (IH (do_call trk c)) as (Ha & Hh & Hi).
    unfold do_calls in *. rewrite Ha, Hh, Hi.
    destruct c; simpl; repeat split; lia.
Qed.

End CallCounts.

(** X17: [history] holds exactly one box for every [predict] since the
    last [update] (or since creation): its length is
    [time_since_update], after any calls on a new tracker and in every
    state a run reaches from trackers of which it holds. *)
Theorem history_length_is_time_since_update :
  forall (F : Type) (SF : Scalar F) (EX : External F),
    (forall count bbox conf cls (cs : list call),
        history_in_step (do_calls (fst (KalmanBoxTracker.init count bbox conf cls)) cs))
    /\ (forall frames count self count' self' rets,
           Forall history_in_step (SortTracker.trackers self) ->
           SortTracker.run count self frames = Some (count', self', rets) ->
           Forall history_in_step (SortTracker.trackers self')).
Proof.
  intros F SF EX. split.
  - intros. apply history_in_step_calls, history_in_step_init.
  - intros frames count self count' self' rets H Hr.
    now apply (history_in_step_run frames count self count' self' rets).
Qed.

(** X18: after any sequence of calls on a new tracker, [age] is the
    number of [predict] calls, [hits] the number of [update] calls, and
    [id] is still the value the class counter had at creation. *)
Theorem age_and_hits_count_calls :
  forall (F : Type) (SF : Scalar F) (EX : External F)
         (count : Z) (bbox : BBox F) (conf : F) (cls : Z) (cs : list call),
    KalmanBoxTracker.age (do_calls (fst (KalmanBoxTracker.init count bbox conf cls)) cs)
    = predicts_in cs
    /\ KalmanBoxTracker.hits (do_calls (fst (KalmanBoxTracker.init count bbox conf cls)) cs)
       = updates_in cs
    /\ KalmanBoxTracker.id (do_calls (fst (KalmanBoxTracker.init count bbox conf cls)) cs)
       = count.
Proof.
  intros F SF EX count bbox conf cls cs.
  destruct (do_calls_counts cs (fst (KalmanBoxTracker.init count bbox conf cls)))
    as (Ha & Hh & Hi).
  rewrite Ha, Hh, Hi. simpl. repeat split.
Qed.

(** ** NaN and infinity in binary64 *)

Lemma is_nan_true (x : float) : PrimFloat.is_nan x = true -> x = nan.
Proof.
  rewrite is_nan_SF. intros H. apply Prim2SF_inj.
  change (Prim2SF nan) with S754_nan.
  now destruct (Prim2SF x).
Qed.

Lemma SF_nan (x : float) : Prim2SF x = S754_nan -> x = nan.
Proof.
  intros H. apply Prim2SF_inj. now rewrite H.
Qed.

Lemma add_nan_l (x : float) : (nan + x)%float = nan.
Proof. apply SF_nan. rewrite add_spec. reflexivity. Qed.

Lemma add_nan_r (x : float) : (x + nan)%float = nan.
Proof.
  apply SF_nan. rewrite add_spec. change (Prim2SF nan) with S754_nan.
  now destruct (Prim2SF x).
Qed.

Lemma sub_nan_l (x : float) : (nan - x)%float = nan.
Proof. apply SF_nan. rewrite sub_spec. reflexivity. Qed.

Lemma sub_nan_r (x : float) : (x - nan)%float = nan.
Proof.
  apply SF_nan. rewrite sub_spec. change (Prim2SF nan) with S754_nan.
  now destruct (Prim2SF x).
Qed.

Lemma mul_nan_l (x : float) : (nan * x)%float = nan.
Proof. apply SF_nan. rewrite mul_spec. reflexivity. Qed.

Lemma mul_nan_r (x : float) : (x * nan)%float = nan.
Proof.
  apply SF_nan. rewrite mul_spec. change (Prim2SF nan) with S754_nan.
  now destruct (Prim2SF x).
Qed.

Lemma div_nan_l (x : float) : (nan / x)%float = nan.
Proof. apply SF_nan. rewrite div_spec. reflexivity. Qed.

Lemma div_nan_r (x : float) : (x / nan)%float = nan.
Proof.
  apply SF_nan. rewrite div_spec. change (Prim2SF nan) with S754_nan.
  now destruct (Prim2SF x).
Qed.

Lemma ltb_nan_l (x : float) : (nan <? x)%float = false.
Proof. rewrite ltb_spec. reflexivity. Qed.

Lemma ltb_nan_r (x : float) : (x <? nan)%float = false.
Proof.
  rewrite ltb_spec. change (Prim2SF nan) with S754_nan.
  now destruct (Prim2SF x).
Qed.

Lemma leb_nan_l (x : float) : (nan <=? x)%float = false.
Proof. rewrite leb_spec. reflexivity. Qed.

Lemma leb_nan_r (x : float) : (x <=? nan)%float = false.
Proof.
  rewrite leb_spec. change (Prim2SF nan) with S754_nan.
  now destruct (Prim2SF x).
Qed.

Lemma maximum_nan_l (x : float) : @maximum float Scalar_float nan x = nan.
Proof.
  unfold maximum. simpl. now rewrite orb_true_r.
Qed.

Lemma maximum_nan_r (x : float) : @maximum float Scalar_float x nan = nan.
Proof.
  unfold maximum. simpl. rewrite leb_nan_l. simpl.
  destruct (PrimFloat.is_nan x) eqn:E; [now apply is_nan_true | reflexivity].
Qed.

Lemma minimum_nan_l (x : float) : @minimum float Scalar_float nan x = nan.
Proof.
  unfold minimum. simpl. now rewrite orb_true_r.
Qed.

Lemma minimum_nan_r (x : float) : @minimum float Scalar_float x nan = nan.
Proof.
  unfold minimum. simpl. rewrite leb_nan_r. simpl.
  destruct (PrimFloat.is_nan x) eqn:E; [now apply is_nan_true | reflexivity].
Qed.

Create Rewrite HintDb nan.

#[local] Hint Rewrite add_nan_l add_nan_r sub_nan_l sub_nan_r mul_nan_l mul_nan_r
  div_nan_l div_nan_r maximum_nan_l maximum_nan_r minimum_nan_l minimum_nan_r : nan.

Lemma iou_nan (a b : BBox float) :
  SortTracker.any_isnan a = true \/ SortTracker.any_isnan b = true ->
  @iou float Scalar_float a b = nan.
Proof.
  unfold SortTracker.any_isnan. destruct a as [a1 a2 a3 a4], b as [b1 b2 b3 b4].
  cbn [bx1 by1 bx2 by2 fisnan Scalar_float].
  intros [H | H];
    repeat (apply orb_true_iff in H as [H | H]);
    apply is_nan_true in H; subst;
    unfold iou; cbn [bx1 by1 bx2 by2 fsub fadd fmul fdiv Scalar_float];
    autorewrite with nan; reflexivity.
Qed.

Lemma float_to_int_None (x : float) :
  float_to_int x = None <-> @SortTracker.invalid float Scalar_float x = true.
Proof.
  unfold SortTracker.invalid, float_to_int. cbn [fisnan fisinf Scalar_float].
  rewrite is_nan_SF, is_infinity_SF.
  destruct (Prim2SF x) as [s | s | | s m e]; simpl; split; intros H;
    try reflexivity; discriminate.
Qed.

(** X19: in binary64, a box with a NaN coordinate, detection or tracker,
    has a NaN IoU with every box; NaN being neither above nor below any
    threshold, the shortcut never pairs the two boxes, and the loop that
    filters out the matches of low IoU keeps the pair as a match when the
    matching step hands it over. *)
Theorem nan_box_neither_above_nor_below :
  forall (dets trks : list (BBox float)) (tau : float) (d t : nat)
         (det trk : BBox float),
    nth_error dets d = Some det ->
    nth_error trks t = Some trk ->
    SortTracker.any_isnan det = true \/ SortTracker.any_isnan trk = true ->
    matrix_get (iou_batch dets trks) d t = Some nan
    /\ ~ In (d, t) (where_pairs (threshold_matrix (iou_batch dets trks) tau))
    /\ (forall rest matches ud ut,
           filter_matches (iou_batch dets trks) tau ((d, t) :: rest) matches ud ut
           = filter_matches (iou_batch dets trks) tau rest (matches ++ [(d, t)]) ud ut).
Proof.
  intros dets trks tau d t det trk Hd Ht Hnan.
  assert (Hv : matrix_get (iou_batch dets trks) d t = Some nan).
  { rewrite matrix_get_iou_batch_entry, Hd, Ht. cbn [bind].
    now rewrite (iou_nan det trk Hnan). }
  split; [exact Hv |]. split.
  - rewrite where_threshold_In. unfold high. cbn [fst snd]. rewrite Hv.
    cbn [fltb Scalar_float]. rewrite ltb_nan_r. discriminate.
  - intros rest matches ud ut. cbn [filter_matches fst snd]. rewrite Hv.
    cbn [bind fltb Scalar_float]. now rewrite ltb_nan_l.
Qed.

Lemma nan_box_neither_above_nor_below_witness :
  matrix_get (iou_batch [mkBBox nan 0 1 1]%float [mkBBox 0 0 1 1]%float) 0 0 = Some nan
  /\ ~ In (0%nat, 0%nat)
          (where_pairs (threshold_matrix
                          (iou_batch [mkBBox nan 0 1 1]%float [mkBBox 0 0 1 1]%float)
                          default_threshold))
  /\ (forall rest matches ud ut,
         filter_matches (iou_batch [mkBBox nan 0 1 1]%float [mkBBox 0 0 1 1]%float)
                        default_threshold ((0%nat, 0%nat) :: rest) matches ud ut
         = filter_matches (iou_batch [mkBBox nan 0 1 1]%float [mkBBox 0 0 1 1]%float)
                          default_threshold rest (matches ++ [(0%nat, 0%nat)]) ud ut).
Proof.
  apply (nan_box_neither_above_nor_below
           [mkBBox nan 0 1 1]%float [mkBBox 0 0 1 1]%float default_threshold 0 0
           (mkBBox nan 0 1 1)%float (mkBBox 0 0 1 1)%float).
  - reflexivity.
  - reflexivity.
  - left. reflexivity.
Defined.

(** ** A class that is not a number *)

Section InvalidClass.
Context {F : Type} {SF : Scalar F} {EX : External F}.

Lemma seed_trackers_None (dets : list (Detection F)) :
  forall count,
    seed_trackers count dets = None
    <-> Exists (fun d => to_int (det_class d) = None) dets.
Proof.
  induction dets as [| d rest IH]; intros count; simpl.
  - split; [discriminate | intros H; inversion H].
  - destruct (to_int (det_class d)) as [c |] eqn:Ec; simpl.
    + destruct (seed_trackers (count + 1) rest) as [pool |] eqn:Es; simpl.
      * split; [discriminate |]. intros H. inversion H; subst; [congruence |].
        apply (IH (count + 1)%Z) in H1. congruence.
      * split; [| reflexivity]. intros _. right. now apply (IH (count + 1)%Z).
    + split; [| reflexivity]. intros _. now left.
Qed.

End InvalidClass.

(** X20: in binary64, a frame seen by an orchestrator without trackers,
    [max_age] not being negative, raises exactly when the class of some
    detection is NaN or infinite ([int] of it is an error); no check
    comes before. *)
Theorem invalid_class_raises :
  forall (EX : External float) (count max_age min_hits : Z) (tau : float)
         (frame_count : Z) (dets : list (Detection float)),
    (0 <= max_age)%Z ->
    SortTracker.update count (SortTracker.mk max_age min_hits tau [] frame_count) dets = None
    <-> Exists (fun d => SortTracker.invalid (det_class d) = true) dets.
Proof.
  intros EX count max_age min_hits tau frame_count dets Hma.
  rewrite (update_without_trackers count max_age min_hits tau frame_count dets Hma).
  transitivity (seed_trackers count dets = None).
  - destruct (seed_trackers count dets) as [pool |]; simpl; split; congruence.
  - rewrite seed_trackers_None. split; intros H;
      (eapply Exists_impl; [| exact H]); intros d Hd; now apply float_to_int_None.
Qed.

Lemma invalid_class_raises_witness :
  @SortTracker.update float Scalar_float Reference_External
    0 (SortTracker.mk 1 3 default_threshold [] 0)
    [detection 0 0 2 2 0.5 1; detection 50 50 60 60 0.5 nan] = None
  <-> Exists (fun d => SortTracker.invalid (det_class d) = true)
             [detection 0 0 2 2 0.5 1; detection 50 50 60 60 0.5 nan].
Proof.
  apply (invalid_class_raises Reference_External). lia.
Defined.

(** ** Removing the trackers whose prediction has a NaN *)

Lemma enumerate_from_filter_sorted {A : Type} (g : A -> bool) (l : list A) :
  forall t,
    StronglySorted lt (map fst (filter (fun p => g (snd p)) (enumerate_from t l)))
    /\ Forall (fun i => (t <= i)%nat)
              (map fst (filter (fun p => g (snd p)) (enumerate_from t l))).
Proof.
  induction l as [| h rest IH]; intros t; simpl; [split; constructor |].
  destruct (IH (S t)) as [Hs Hb].
  assert (Hb' : Forall (fun i => (t <= i)%nat)
                       (map fst (filter (fun p => g (snd p)) (enumerate_from (S t) rest)))).
  { eapply Forall_impl; [| exact Hb]. simpl. intros; lia. }
  destruct (g h); simpl; [| now split].
  split.
  - constructor; [assumption |].
    eapply Forall_impl; [| exact Hb]. simpl. intros; lia.
  - constructor; [lia | assumption].
Qed.

(** X21: the first loop of [SortTracker.update] calls [predict] once on
    every tracker, in storage order, and records the indices of the
    predicted boxes with a NaN in increasing order; popping these
    indices from the last to the first raises nothing and leaves the
    other trackers, in their order. *)
Theorem nan_trackers_removed_without_error :
  forall (F : Type) (SF : Scalar F) (EX : External F)
         (trks : list (KalmanBoxTracker.t F)),
    fst (fst (SortTracker.predict_loop 0 trks)) = map predicted trks
    /\ snd (fst (SortTracker.predict_loop 0 trks)) = map predicted_box trks
    /\ StronglySorted lt (snd (SortTracker.predict_loop 0 trks))
    /\ SortTracker.pop_all (rev (snd (SortTracker.predict_loop 0 trks)))
                           (fst (fst (SortTracker.predict_loop 0 trks)))
       = Some (map predicted (filter (fun trk => negb (has_nan trk)) trks)).
Proof.
  intros F SF EX trks. rewrite predict_loop_unfold. cbn [fst snd].
  split; [reflexivity |]. split; [reflexivity |]. split.
  - apply (enumerate_from_filter_sorted has_nan trks 0%nat).
  - exact (pop_all_to_del trks []).
Qed.
